(** * rbbi-go: a shallow embedding of the rule-based break iterator

    The development follows the Go sources:
    - the [Cursor] interface and its [StringCursor] implementation
      (byte offsets into a Go string, runes decoded with [unicode/utf8]);
    - the code point trie [ucpTrie] with [fastGet];
    - the state tables [rbbiStateTable] and the bundle [rbbiData];
    - the engine [RBBI] with [Next], [safePrevious] and [Previous].

    Go's [int] and [rune] values are integers of [Z]; conversions that can
    wrap are written out.  A [uint8] is a [byte].  A Go slice is a list and
    an index expression that is out of range panics. *)

From Stdlib Require Import ZArith Lia Bool String Sorting.Sorted.
From Stdlib Require Import Strings.Byte.
From stdpp Require Import base list.

Local Open Scope Z_scope.

(** ** Outcomes of Go code

    A call returns a value, panics (an assertion or a run-time bounds
    check), or, in the model only, runs out of loop fuel. *)

Inductive outcome (A : Type) : Type :=
| Ret (a : A)
| Panic
| Timeout.

Arguments Ret {A} a.
Arguments Panic {A}.
Arguments Timeout {A}.

#[global] Instance outcome_ret : MRet outcome := fun A a => Ret a.
#[global] Instance outcome_bind : MBind outcome := fun A B k m =>
  match m with
  | Ret a => k a
  | Panic => Panic
  | Timeout => Timeout
  end.

(** ** Integers and slices *)

(** Conversion of an integer to Go's [int32] (two's complement wrap). *)
Definition wrap32 (z : Z) : Z := (z + 2 ^ 31) mod 2 ^ 32 - 2 ^ 31.

(** Conversion to [uint16]. *)
Definition uint16 (z : Z) : Z := z mod 2 ^ 16.

(** The value of a [uint8]. *)
Definition u8 (b : byte) : Z := Z.of_N (Byte.to_N b).

(** [len(s)] as a Go [int]. *)
Definition len {A : Type} (l : list A) : Z := Z.of_nat (length l).

(** The index expression [l[i]]: a run-time panic outside [0 .. len(l)-1]. *)
Definition slice_index {A : Type} (l : list A) (i : Z) : outcome A :=
  if i <? 0 then Panic
  else match l !! Z.to_nat i with
       | Some a => Ret a
       | None => Panic
       end.

(** The assignment [l[i] = v], with the same bounds check. *)
Definition store {A : Type} (l : list A) (i : Z) (v : A) : outcome (list A) :=
  if (i <? 0) || (len l <=? i) then Panic
  else Ret (<[Z.to_nat i := v]> l).

(** The slices [s[i:]] and [s[:i]] of a string, for [0 <= i <= len(s)]. *)
Definition slice_from {A : Type} (l : list A) (i : Z) : list A := drop (Z.to_nat i) l.
Definition slice_to {A : Type} (l : list A) (i : Z) : list A := take (Z.to_nat i) l.

(** ** Go's [unicode/utf8]: decoding the first and the last rune of a string *)

Module utf8.

Definition RuneError : Z := 0xFFFD.
Definition RuneSelf : Z := 0x80.
Definition UTFMax : Z := 4.

Definition maskx : Z := 0x3F.
Definition mask2 : Z := 0x1F.
Definition mask3 : Z := 0x0F.
Definition mask4 : Z := 0x07.

Definition locb : Z := 0x80.
Definition hicb : Z := 0xBF.

(** Entries of the table [first]: the high nibble selects the accept range
    (or is [F] for the one-byte cases), the low nibble is the size. *)
Definition xx : Z := 0xF1.
Definition as_ : Z := 0xF0.
Definition s1 : Z := 0x02.
Definition s2 : Z := 0x13.
Definition s3 : Z := 0x03.
Definition s4 : Z := 0x23.
Definition s5 : Z := 0x34.
Definition s6 : Z := 0x04.
Definition s7 : Z := 0x44.

(** The 256-entry table [first], row by row. *)
Definition first (b : Z) : Z :=
  if b <? 0x80 then as_
  else if b <? 0xC2 then xx
  else if b <? 0xE0 then s1
  else if b =? 0xE0 then s2
  else if b <? 0xED then s3
  else if b =? 0xED then s4
  else if b <? 0xF0 then s3
  else if b =? 0xF0 then s5
  else if b <? 0xF4 then s6
  else if b =? 0xF4 then s7
  else xx.

(** The table [acceptRanges]: bounds of the second byte. *)
Definition acceptRanges (i : Z) : Z * Z :=
  match i with
  | 0 => (locb, hicb)
  | 1 => (0xA0, hicb)
  | 2 => (locb, 0x9F)
  | 3 => (0x90, hicb)
  | 4 => (locb, 0x8F)
  | _ => (0, 0)
  end.

(** [RuneStart]: the byte is not a continuation byte. *)
Definition RuneStart (b : Z) : bool := negb (Z.land b 0xC0 =? 0x80).

(** A byte outside the continuation range [locb .. hicb]. *)
Definition not_cont (b : Z) : bool := (b <? locb) || (hicb <? b).

Definition DecodeRuneInString (s : list byte) : Z * Z :=
  match s with
  | [] => (RuneError, 0)
  | b0 :: t0 =>
    let n := len s in
    let c0 := u8 b0 in
    let x := first c0 in
    if as_ <=? x then
      let mask := Z.shiftr (wrap32 (Z.shiftl x 31)) 31 in
      (Z.lor (Z.land c0 (Z.lnot mask)) (Z.land RuneError mask), 1)
    else
      let sz := Z.land x 7 in
      let accept := acceptRanges (Z.shiftr x 4) in
      if n <? sz then (RuneError, 1)
      else match t0 with
      | [] => (RuneError, 1)
      | b1 :: t1 =>
        let c1 := u8 b1 in
        if (c1 <? fst accept) || (snd accept <? c1) then (RuneError, 1)
        else if sz <=? 2 then
          (Z.lor (Z.shiftl (Z.land c0 mask2) 6) (Z.land c1 maskx), 2)
        else match t1 with
        | [] => (RuneError, 1)
        | b2 :: t2 =>
          let c2 := u8 b2 in
          if not_cont c2 then (RuneError, 1)
          else if sz <=? 3 then
            (Z.lor (Z.lor (Z.shiftl (Z.land c0 mask3) 12)
                          (Z.shiftl (Z.land c1 maskx) 6))
                   (Z.land c2 maskx), 3)
          else match t2 with
          | [] => (RuneError, 1)
          | b3 :: _ =>
            let c3 := u8 b3 in
            if not_cont c3 then (RuneError, 1)
            else
              (Z.lor (Z.lor (Z.lor (Z.shiftl (Z.land c0 mask4) 18)
                                   (Z.shiftl (Z.land c1 maskx) 12))
                            (Z.shiftl (Z.land c2 maskx) 6))
                     (Z.land c3 maskx), 4)
          end
        end
      end
  end.

(** The byte [s[i]] of a string, read where the caller has checked the
    range (the value outside the range is never used). *)
Definition byte_at (s : list byte) (i : Z) : Z :=
  match s !! Z.to_nat i with
  | Some b => u8 b
  | None => 0
  end.

(** The loop [for start--; start >= lim; start-- { if RuneStart(s[start])
    { break } }], entered after the first decrement; it runs at most
    [UTFMax - 1] times. *)
Fixpoint scan_start (fuel : nat) (s : list byte) (start lim : Z) : Z :=
  match fuel with
  | O => start
  | S fuel' =>
    if start <? lim then start
    else if RuneStart (byte_at s start) then start
    else scan_start fuel' s (start - 1) lim
  end.

Definition DecodeLastRuneInString (s : list byte) : Z * Z :=
  let end_ := len s in
  if end_ =? 0 then (RuneError, 0)
  else
    let start := end_ - 1 in
    let r := byte_at s start in
    if r <? RuneSelf then (r, 1)
    else
      let lim := Z.max (end_ - UTFMax) 0 in
      let start := scan_start (Z.to_nat UTFMax) s (start - 1) lim in
      let start := if start <? 0 then 0 else start in
      let '(r, size) := DecodeRuneInString (slice_from s start) in
      if negb (start + size =? end_) then (RuneError, 1)
      else (r, size).

End utf8.

(** ** Well-formed runes in a string *)

(** A continuation byte. *)
Definition cont (b : byte) : Prop := 0x80 <= u8 b <= 0xBF.

(** What [DecodeRuneInString] returns on [s], as a rune [r] and a size [k]:
    one byte, which is the rune itself when it is ASCII and [RuneError]
    otherwise, or a lead byte followed by one to three continuation bytes,
    whose decoding does not depend on the text after them. *)
Definition decodes_as (s : list byte) (r k : Z) : Prop :=
  match s with
  | [] => k = 0 /\ r = utf8.RuneError
  | b0 :: t =>
    (k = 1 /\ (if u8 b0 <? 0x80 then r = u8 b0 else r = utf8.RuneError)) \/
    (0xC2 <= u8 b0 /\
     ((exists b1 t1, t = b1 :: t1 /\ k = 2 /\ cont b1 /\
         forall t', utf8.DecodeRuneInString (b0 :: b1 :: t') = (r, 2)) \/
      (exists b1 b2 t2, t = b1 :: b2 :: t2 /\ k = 3 /\ cont b1 /\ cont b2 /\
         forall t', utf8.DecodeRuneInString (b0 :: b1 :: b2 :: t') = (r, 3)) \/
      (exists b1 b2 b3 t3, t = b1 :: b2 :: b3 :: t3 /\ k = 4 /\
         cont b1 /\ cont b2 /\ cont b3 /\
         forall t', utf8.DecodeRuneInString (b0 :: b1 :: b2 :: b3 :: t') = (r, 4))))
  end.

(** ** The [Cursor] interface

    A cursor is a stateful iterator; each method takes the cursor and gives
    back the cursor it leaves.  Go's [error] is [None] for [nil].  [Next] and
    [Previous] return [(r, ok)]. *)

Definition rune : Type := Z.
Definition error : Type := option string.

Class Cursor (C : Type) : Type := {
  Position : C -> Z;
  SetPosition : C -> Z -> C * error;
  Next : C -> outcome (C * (rune * bool));
  Previous : C -> outcome (C * (rune * bool));
}.

(** ** [StringCursor]: a cursor over a Go string, positions are byte offsets *)

Module StringCursor.

Record t : Type := mk {
  text : list byte;
  position : Z;
}.

Definition NewStringCursor (text : list byte) : t :=
  {| text := text; position := 0 |}.

Definition Position (c : t) : Z := position c.

Definition SetPosition (c : t) (position : Z) : t * error :=
  if position <? 0 then
    (c, Some "Position can not be negative"%string)
  else if len (text c) <? position then
    (c, Some "Position can not be beyond the end of the string"%string)
  else
    ({| text := text c; position := position |}, None).

(** [c.text[c.position:]] panics for a negative position; the guard has
    excluded positions beyond the end. *)
Definition Next (c : t) : outcome (t * (rune * bool)) :=
  if len (text c) <=? position c then Ret (c, (-1, false))
  else if position c <? 0 then Panic
  else
    let '(r, size) := utf8.DecodeRuneInString (slice_from (text c) (position c)) in
    Ret ({| text := text c; position := position c + size |}, (r, true)).

(** [c.text[:c.position]] panics for a position beyond the end; the guard
    has excluded positions at or before the start. *)
Definition Previous (c : t) : outcome (t * (rune * bool)) :=
  if position c <=? 0 then Ret (c, (-1, false))
  else if len (text c) <? position c then Panic
  else
    let '(r, size) := utf8.DecodeLastRuneInString (slice_to (text c) (position c)) in
    Ret ({| text := text c; position := position c - size |}, (r, true)).

(** The cursors the package can build: the position is within the text. *)
Definition wf (c : t) : Prop := 0 <= position c <= len (text c).

(** A position that does not intersect the bytes of a single rune: no
    well-formed multi-byte rune starts one to three bytes before it and
    extends beyond it. *)
Definition splits_rune (text : list byte) (p : Z) : bool :=
  existsb (fun d => (d <=? p) && (d <? snd (utf8.DecodeRuneInString (slice_from text (p - d)))))
          [1; 2; 3].

Definition on_boundary (text : list byte) (p : Z) : bool :=
  (0 <=? p) && (p <=? len text) && negb (splits_rune text p).

End StringCursor.

#[global] Instance StringCursor_Cursor : Cursor StringCursor.t := {
  Position := StringCursor.Position;
  SetPosition := StringCursor.SetPosition;
  Next := StringCursor.Next;
  Previous := StringCursor.Previous;
}.

(** ** The code point trie [ucpTrie] *)

Module ucpTrie.

(** [ucpTrieType] and [ucpTrieValueWidth] are [uint8] types with the named
    constants below. *)
Definition ucpTrieTypeFast : Z := 0.
Definition ucpTrieTypeSmall : Z := 1.

Definition ucpTrieValueWidth16 : Z := 0.
Definition ucpTrieValueWidth32 : Z := 1.
Definition ucpTrieValueWidth8 : Z := 2.

Record t : Type := mk {
  trieType : Z;
  valueWidth : Z;
  dataLength : Z;
  index3NullOffset : Z;
  dataNullOffset : Z;
  highStart : Z;
  shifted12HighStart : Z;
  nullValueOffset : Z;
  index : list Z;
  data8 : list byte;
  data16 : list Z;
  data32 : list Z;
  nullValue : Z;
}.

Definition ucpTrieFastShift : Z := 6.
Definition ucpTrieSmallLimit : Z := 0x1000.
Definition ucpTrieSmallIndexLength : Z := Z.shiftr ucpTrieSmallLimit ucpTrieFastShift.
Definition ucpTrieFastDataBlockLength : Z := Z.shiftl 1 ucpTrieFastShift.
Definition ucpTrieFastDataMask : Z := ucpTrieFastDataBlockLength - 1.
Definition ucpTrieHighValueNegDataOffset : Z := 2.
Definition ucpTrieErrorValueNegDataOffset : Z := 1.
Definition ucpTrieBmpIndexLength : Z := Z.shiftr 0x10000 ucpTrieFastShift.
Definition ucpTrieShift3 : Z := 4.
Definition ucpTrieShift2 : Z := 5 + ucpTrieShift3.
Definition ucpTrieShift1 : Z := 5 + ucpTrieShift2.
Definition ucpTrieOmittedBmpIndex1Length : Z := Z.shiftr 0x10000 ucpTrieShift1.
Definition ucpTrieShift1Minus2 : Z := ucpTrieShift1 - ucpTrieShift2.
Definition ucpTrieShift2Minus3 : Z := ucpTrieShift2 - ucpTrieShift3.
Definition ucpTrieIndex2BlockLength : Z := Z.shiftl 1 ucpTrieShift1Minus2.
Definition ucpTrieIndex3BlockLength : Z := Z.shiftl 1 ucpTrieShift2Minus3.
Definition ucpTrieIndex2Mask : Z := ucpTrieIndex2BlockLength - 1.
Definition ucpTrieIndex3Mask : Z := ucpTrieIndex3BlockLength - 1.
Definition ucpTrieSmallDataBlockLength : Z := Z.shiftl 1 ucpTrieShift3.
Definition ucpTrieSmallDataMask : Z := ucpTrieSmallDataBlockLength - 1.

Definition internalSmallIndex (t : t) (codePoint : rune) : outcome Z :=
  let i1 := Z.shiftr codePoint ucpTrieShift1 in
  i1 ←
    (if trieType t =? ucpTrieTypeFast then
       if (codePoint <=? 0xffff) || (highStart t <=? codePoint) then Panic
       else Ret (i1 + (ucpTrieBmpIndexLength - ucpTrieOmittedBmpIndex1Length))
     else
       if (highStart t <=? codePoint) || (highStart t <=? ucpTrieSmallLimit) then Panic
       else Ret (i1 + ucpTrieSmallIndexLength));
  e1 ← slice_index (index t) i1;
  i3Block ← slice_index (index t)
    (e1 + Z.land (Z.shiftr codePoint ucpTrieShift2) ucpTrieIndex2Mask);
  let i3 := Z.land (Z.shiftr codePoint ucpTrieShift3) ucpTrieIndex3Mask in
  dataBlock ←
    (if Z.land i3Block 0x8000 =? 0 then
       slice_index (index t) (i3Block + i3)
     else
       let i3Block := Z.land i3Block 0x7fff + Z.land i3 (Z.lnot 7) + Z.shiftr i3 3 in
       let i3 := Z.land i3 7 in
       e ← slice_index (index t) i3Block;
       let dataBlock := Z.land (wrap32 (Z.shiftl e (2 + 2 * i3))) 0x30000 in
       let i3Block := i3Block + 1 in
       e' ← slice_index (index t) (i3Block + i3);
       Ret (Z.lor dataBlock e'));
  Ret (dataBlock + Z.land codePoint ucpTrieSmallDataMask).

Definition fastIndex (t : t) (codePoint : rune) : outcome Z :=
  e ← slice_index (index t) (Z.shiftr codePoint ucpTrieFastShift);
  Ret (e + Z.land codePoint ucpTrieFastDataMask).

Definition smallIndex (t : t) (codePoint : rune) : outcome Z :=
  if highStart t <=? codePoint then Ret (dataLength t - ucpTrieHighValueNegDataOffset)
  else internalSmallIndex t codePoint.

Definition codePointIndex (t : t) (fastMax : Z) (codePoint : rune) : outcome Z :=
  if codePoint <=? fastMax then fastIndex t codePoint
  else if codePoint <=? 0x10ffff then smallIndex t codePoint
  else Ret (dataLength t - ucpTrieErrorValueNegDataOffset).

(** The [switch] on the value width that reads the data array; a width that
    is none of the three constants falls through to [return 0]. *)
Definition readData (t : t) (i : Z) : outcome Z :=
  if valueWidth t =? ucpTrieValueWidth8 then b ← slice_index (data8 t) i; Ret (u8 b)
  else if valueWidth t =? ucpTrieValueWidth16 then slice_index (data16 t) i
  else if valueWidth t =? ucpTrieValueWidth32 then slice_index (data32 t) i
  else Ret 0.

Definition fastGet (t : t) (codePoint : rune) : outcome Z :=
  i ← codePointIndex t 0xffff codePoint;
  readData t i.

(** The lookup as the specification words it: the limit of the one-level
    path depends on the trie type, [0xFFFF] for a fast trie and the last code
    point below [ucpTrieSmallLimit] for a small one. *)
Definition fastMax_as_specified (t : t) : Z :=
  if trieType t =? ucpTrieTypeFast then 0xffff else ucpTrieSmallLimit - 1.

Definition get_as_specified (t : t) (codePoint : rune) : outcome Z :=
  i ← codePointIndex t (fastMax_as_specified t) codePoint;
  readData t i.

(** The same trie with another type tag. *)
Definition with_trieType (tr : t) (ty : Z) : t :=
  {| trieType := ty; valueWidth := valueWidth tr; dataLength := dataLength tr;
     index3NullOffset := index3NullOffset tr; dataNullOffset := dataNullOffset tr;
     highStart := highStart tr; shifted12HighStart := shifted12HighStart tr;
     nullValueOffset := nullValueOffset tr; index := index tr;
     data8 := data8 tr; data16 := data16 tr; data32 := data32 tr;
     nullValue := nullValue tr |}.

End ucpTrie.

(** ** State tables and the data bundle *)

Record rbbiStateTableRow : Type := {
  accepting : byte;
  lookahead : byte;
  tagIndex : byte;
  nextStates : list byte;
}.

Definition rbbiStateTableValueWidth8 : Z := 0.
Definition rbbiStateTableValueWidth16 : Z := 1.

Record rbbiStateTable : Type := {
  stateCount : Z;
  rowLength : Z;
  dictCategoriesStart : Z;
  lookaheadResultsSize : Z;
  lookaheadHardBreak : bool;
  bofRequired : bool;
  valueWidth : Z;
  rows : list rbbiStateTableRow;
}.

Record rbbiData : Type := {
  forwardTable : rbbiStateTable;
  reverseTable : rbbiStateTable;
  trie : ucpTrie.t;
  categoryCount : Z;
}.

Definition rbbiStateStart : Z := 1.
Definition rbbiStateStop : Z := 0.
Definition rbbiAcceptingUnconditional : Z := 1.

Inductive rbbiRunMode : Type :=
| rbbiRunModeStart
| rbbiRunModeRun
| rbbiRunModeEnd.

Definition rbbiRunMode_eqb (a b : rbbiRunMode) : bool :=
  match a, b with
  | rbbiRunModeStart, rbbiRunModeStart => true
  | rbbiRunModeRun, rbbiRunModeRun => true
  | rbbiRunModeEnd, rbbiRunModeEnd => true
  | _, _ => false
  end.

(** ** The break iterator [RBBI] *)

Module RBBI.

Section Engine.

Context {C : Type} `{Cursor C}.

(** The engine.  The cursor is an interface value: [nil] until [SetCursor]. *)
Record t : Type := mk {
  data : rbbiData;
  lookaheadMatches : list Z;
  ruleStatusIndex : Z;
  cursor : option C;
}.

(** [make([]int, n)]: [n] zeros. *)
Definition newRBBI (data : rbbiData) : t :=
  {| data := data;
     lookaheadMatches := replicate (Z.to_nat (lookaheadResultsSize (forwardTable data))) 0;
     ruleStatusIndex := 0;
     cursor := None |}.

Definition SetCursor (r : t) (c : C) : t :=
  {| data := data r; lookaheadMatches := lookaheadMatches r;
     ruleStatusIndex := ruleStatusIndex r; cursor := Some c |}.

(** *** [Next]

    The variables of [Next] that live across loop iterations: the fields of
    the engine that the scan writes, the cursor, and the locals. *)
Record scan : Type := mkScan {
  s_lookaheadMatches : list Z;
  s_ruleStatusIndex : Z;
  s_cursor : C;
  s_category : Z;
  s_dictionaryCharCount : Z;
  s_result : Z;
  s_c : rune;
  s_nextOk : bool;
  s_state : Z;
  s_row : rbbiStateTableRow;
  s_mode : rbbiRunMode;
}.

Definition set_lookaheadMatches (s : scan) (v : list Z) : scan :=
  mkScan v (s_ruleStatusIndex s) (s_cursor s) (s_category s) (s_dictionaryCharCount s)
    (s_result s) (s_c s) (s_nextOk s) (s_state s) (s_row s) (s_mode s).
Definition set_ruleStatusIndex (s : scan) (v : Z) : scan :=
  mkScan (s_lookaheadMatches s) v (s_cursor s) (s_category s) (s_dictionaryCharCount s)
    (s_result s) (s_c s) (s_nextOk s) (s_state s) (s_row s) (s_mode s).
Definition set_cursor (s : scan) (v : C) : scan :=
  mkScan (s_lookaheadMatches s) (s_ruleStatusIndex s) v (s_category s)
    (s_dictionaryCharCount s) (s_result s) (s_c s) (s_nextOk s) (s_state s) (s_row s)
    (s_mode s).
Definition set_category (s : scan) (v : Z) : scan :=
  mkScan (s_lookaheadMatches s) (s_ruleStatusIndex s) (s_cursor s) v
    (s_dictionaryCharCount s) (s_result s) (s_c s) (s_nextOk s) (s_state s) (s_row s)
    (s_mode s).
Definition set_dictionaryCharCount (s : scan) (v : Z) : scan :=
  mkScan (s_lookaheadMatches s) (s_ruleStatusIndex s) (s_cursor s) (s_category s) v
    (s_result s) (s_c s) (s_nextOk s) (s_state s) (s_row s) (s_mode s).
Definition set_result (s : scan) (v : Z) : scan :=
  mkScan (s_lookaheadMatches s) (s_ruleStatusIndex s) (s_cursor s) (s_category s)
    (s_dictionaryCharCount s) v (s_c s) (s_nextOk s) (s_state s) (s_row s) (s_mode s).
Definition set_read (s : scan) (cur : C) (c : rune) (ok : bool) : scan :=
  mkScan (s_lookaheadMatches s) (s_ruleStatusIndex s) cur (s_category s)
    (s_dictionaryCharCount s) (s_result s) c ok (s_state s) (s_row s) (s_mode s).
Definition set_state (s : scan) (state : Z) (row : rbbiStateTableRow) : scan :=
  mkScan (s_lookaheadMatches s) (s_ruleStatusIndex s) (s_cursor s) (s_category s)
    (s_dictionaryCharCount s) (s_result s) (s_c s) (s_nextOk s) state row (s_mode s).
Definition set_mode (s : scan) (v : rbbiRunMode) : scan :=
  mkScan (s_lookaheadMatches s) (s_ruleStatusIndex s) (s_cursor s) (s_category s)
    (s_dictionaryCharCount s) (s_result s) (s_c s) (s_nextOk s) (s_state s) (s_row s) v.

(** The engine a scan leaves behind. *)
Definition engine_of (d : rbbiData) (s : scan) : t :=
  {| data := d; lookaheadMatches := s_lookaheadMatches s;
     ruleStatusIndex := s_ruleStatusIndex s; cursor := Some (s_cursor s) |}.

(** How one pass through the body of the [for] loop ends: at the bottom of
    the body, at a [break], or at the [return] inside the loop. *)
Inductive step : Type :=
| Continue (s : scan)
| Break (s : scan)
| Return (s : scan) (position : Z) (ok : bool).

(** The head of the loop body: the end-of-input switch, the category of the
    current rune, and the transition to the next state and its row. *)
Definition Next_transition (d : rbbiData) (s : scan) : outcome scan :=
  let s :=
    if negb (s_nextOk s) then set_category (set_mode s rbbiRunModeEnd) 1 else s in
  s ←
    (if rbbiRunMode_eqb (s_mode s) rbbiRunModeRun then
       v ← ucpTrie.fastGet (trie d) (s_c s);
       let s := set_category s (uint16 v) in
       if dictCategoriesStart (forwardTable d) <=? s_category s then
         Ret (set_dictionaryCharCount s (s_dictionaryCharCount s + 1))
       else Ret s
     else Ret s);
  if categoryCount d <=? s_category s then Panic
  else
    e ← slice_index (nextStates (s_row s)) (s_category s);
    let state := u8 e in
    row ← slice_index (rows (forwardTable d)) state;
    Ret (set_state s state row).

(** The body with the machine in its new row, first part: an unconditional
    acceptance, or the completion of a lookahead, which returns from [Next]
    when the slot of the rule holds a position. *)
Definition Next_accept (d : rbbiData) (s : scan) : outcome (scan + step) :=
  let row := s_row s in
  let accepting := u8 (accepting row) in
  if accepting =? rbbiAcceptingUnconditional then
    let s :=
      if negb (rbbiRunMode_eqb (s_mode s) rbbiRunModeStart)
      then set_result s (Position (s_cursor s)) else s in
    Ret (inl (set_ruleStatusIndex s (u8 (tagIndex row))))
  else if rbbiAcceptingUnconditional <? accepting then
    if lookaheadResultsSize (forwardTable d) <=? accepting then Panic
    else
      lookaheadResult ← slice_index (s_lookaheadMatches s) accepting;
      if 0 <=? lookaheadResult then
        let s := set_ruleStatusIndex s (u8 (tagIndex row)) in
        let s := set_cursor s (fst (SetPosition (s_cursor s) lookaheadResult)) in
        Ret (inr (Return s lookaheadResult true))
      else Ret (inl s)
  else Ret (inl s).

(** Second part: the recording of a lookahead position, the stop state, and
    the advance to the next rune. *)
Definition Next_advance (d : rbbiData) (s : scan) : outcome step :=
  let rule := u8 (lookahead (s_row s)) in
  if negb (rule =? 0) && (rule <=? rbbiAcceptingUnconditional) then Panic
  else if negb (rule =? 0) && (lookaheadResultsSize (forwardTable d) <=? rule) then Panic
  else
    s ←
      (if rbbiAcceptingUnconditional <? rule then
         m ← store (s_lookaheadMatches s) rule (Position (s_cursor s));
         Ret (set_lookaheadMatches s m)
       else Ret s);
    if s_state s =? rbbiStateStop then Ret (Break s)
    else if rbbiRunMode_eqb (s_mode s) rbbiRunModeRun then
      '(cur, (c, nextOk)) ← Next (s_cursor s);
      Ret (Continue (set_read s cur c nextOk))
    else if rbbiRunMode_eqb (s_mode s) rbbiRunModeStart then
      Ret (Continue (set_mode s rbbiRunModeRun))
    else Ret (Continue s).

Definition Next_row (d : rbbiData) (s : scan) : outcome step :=
  r ← Next_accept d s;
  match r with
  | inr ret => Ret ret
  | inl s => Next_advance d s
  end.

(** One pass through the loop body. *)
Definition Next_body (d : rbbiData) (s : scan) : outcome step :=
  if negb (s_nextOk s) && rbbiRunMode_eqb (s_mode s) rbbiRunModeEnd then Ret (Break s)
  else
    s ← Next_transition d s;
    Next_row d s.

(** The [for] loop; [fuel] bounds the number of passes. *)
Fixpoint Next_loop (fuel : nat) (d : rbbiData) (s : scan) : outcome step :=
  match fuel with
  | O => Timeout
  | S fuel' =>
    st ← Next_body d s;
    match st with
    | Continue s' => Next_loop fuel' d s'
    | _ => Ret st
    end
  end.

(** The code after the loop. *)
Definition Next_finish (d : rbbiData) (initialPosition : Z) (s : scan)
  : outcome (t * (Z * bool)) :=
  if s_result s =? initialPosition then
    let cur := fst (SetPosition (s_cursor s) initialPosition) in
    '(cur, (c, ok)) ← Next cur;
    if negb ok then Ret (engine_of d (set_cursor s cur), (-1, false))
    else
      let result := Position cur in
      let s := set_ruleStatusIndex (set_result (set_cursor s cur) result) 0 in
      let cur := fst (SetPosition cur result) in
      Ret (engine_of d (set_cursor s cur), (result, true))
  else
    let cur := fst (SetPosition (s_cursor s) (s_result s)) in
    Ret (engine_of d (set_cursor s cur), (s_result s, true)).

(** The state of the scan when the loop is entered. *)
Definition Next_init (r : t) (cur : C) (initialPosition : Z) (c : rune)
  (row : rbbiStateTableRow) : scan :=
  let bof := bofRequired (forwardTable (data r)) in
  {| s_lookaheadMatches := lookaheadMatches r;
     s_ruleStatusIndex := 0;
     s_cursor := cur;
     s_category := if bof then 2 else 0;
     s_dictionaryCharCount := 0;
     s_result := initialPosition;
     s_c := c;
     s_nextOk := true;
     s_state := rbbiStateStart;
     s_row := row;
     s_mode := if bof then rbbiRunModeStart else rbbiRunModeRun |}.

Definition Next (fuel : nat) (r : t) : outcome (t * (Z * bool)) :=
  match cursor r with
  | None => Panic
  | Some cur =>
    let initialPosition := Position cur in
    '(cur, (c, nextOk)) ← Next cur;
    if negb nextOk then
      Ret ({| data := data r; lookaheadMatches := lookaheadMatches r;
              ruleStatusIndex := 0; cursor := Some cur |}, (-1, false))
    else
      row ← slice_index (rows (forwardTable (data r))) rbbiStateStart;
      st ← Next_loop fuel (data r) (Next_init r cur initialPosition c row);
      match st with
      | Return s position ok => Ret (engine_of (data r) s, (position, ok))
      | Break s => Next_finish (data r) initialPosition s
      | Continue _ => Timeout
      end
  end.


(** *** [safePrevious] *)

Definition with_cursor (r : t) (cur : C) : t :=
  {| data := data r; lookaheadMatches := lookaheadMatches r;
     ruleStatusIndex := ruleStatusIndex r; cursor := Some cur |}.

(** The loop [for ok { ... }] over the reverse table; it gives the cursor
    and the value of [state] that the loop leaves. *)
Fixpoint safePrevious_loop (fuel : nat) (d : rbbiData) (cur : C) (c : rune) (ok : bool)
  (state : Z) (row : rbbiStateTableRow) : outcome (C * Z) :=
  if negb ok then Ret (cur, state)
  else
    match fuel with
    | O => Timeout
    | S fuel' =>
      category ← ucpTrie.fastGet (trie d) c;
      if categoryCount d <=? category then Panic
      else
        e ← slice_index (nextStates row) category;
        let state := u8 e in
        row ← slice_index (rows (reverseTable d)) state;
        if state =? rbbiStateStop then Ret (cur, state)
        else
          '(cur, (c, ok)) ← Previous cur;
          safePrevious_loop fuel' d cur c ok state row
    end.

Definition safePrevious (fuel : nat) (r : t) (fromPosition : Z)
  : outcome (t * (Z * bool)) :=
  match cursor r with
  | None => Panic
  | Some cur =>
    let cur := fst (SetPosition cur fromPosition) in
    '(cur, (c, ok)) ← Previous cur;
    if negb ok then Ret (with_cursor r cur, (-1, false))
    else
      row ← slice_index (rows (reverseTable (data r))) rbbiStateStart;
      '(cur, _) ← safePrevious_loop fuel (data r) cur c ok rbbiStateStart row;
      Ret (with_cursor r cur, (Position cur, true))
  end.

(** *** [Previous] *)

(** The inner loop: scan forward from the safe point and remember the last
    breakpoint before [startPosition]. *)
Fixpoint Previous_replay (fuel n : nat) (r : t) (startPosition lastBreakpoint : Z)
  : outcome (t * Z) :=
  match fuel with
  | O => Timeout
  | S fuel' =>
    '(r, (breakpoint, ok)) ← Next n r;
    if negb ok then Panic
    else
      match cursor r with
      | None => Panic
      | Some cur =>
        if startPosition <=? Position cur then Ret (r, lastBreakpoint)
        else Previous_replay fuel' n r startPosition breakpoint
      end
  end.

(** The outer loop [for lastBreakpoint == -1 { ... }] and the code after it. *)
Fixpoint Previous_loop (fuel n : nat) (r : t) (startPosition backtraceStart lastBreakpoint : Z)
  : outcome (t * (Z * bool)) :=
  if negb (lastBreakpoint =? -1) then
    match cursor r with
    | None => Panic
    | Some cur =>
      match SetPosition cur lastBreakpoint with
      | (_, Some _) => Panic
      | (cur, None) => Ret (with_cursor r cur, (lastBreakpoint, true))
      end
    end
  else
    match fuel with
    | O => Timeout
    | S fuel' =>
      '(r, (newStart, ok)) ← safePrevious n r backtraceStart;
      if negb ok then
        if backtraceStart =? startPosition then Ret (r, (-1, false))
        else
          match cursor r with
          | None => Panic
          | Some cur =>
            match SetPosition cur backtraceStart with
            | (_, Some _) => Panic
            | (cur, None) => Ret (with_cursor r cur, (backtraceStart, true))
            end
          end
      else
        '(r, lastBreakpoint) ← Previous_replay n n r startPosition lastBreakpoint;
        Previous_loop fuel' n r startPosition newStart lastBreakpoint
    end.

Definition Previous (fuel : nat) (r : t) : outcome (t * (Z * bool)) :=
  match cursor r with
  | None => Panic
  | Some cur =>
    let startPosition := Position cur in
    Previous_loop fuel fuel r startPosition startPosition (-1)
  end.

End Engine.

End RBBI.

(** ** Example texts *)

(** The text [A€b]: the euro sign takes the bytes 1 to 3. *)
Definition euro : list byte := [x41; xe2; x82; xac; x62]%byte.

(** The text [é]: one rune of two bytes. *)
Definition e_acute : list byte := [xc3; xa9]%byte.

(** The claim on [SetPosition] as the specification words it: the call fails
    for a position that is out of range or not on a rune boundary, succeeds
    at the end of the text, moves the cursor on success and leaves it on
    failure. *)
Definition SetPosition_as_specified : Prop :=
  forall (c : StringCursor.t) (p : Z),
    let text := StringCursor.text c in
    let '(c', err) := SetPosition c p in
    ((p < 0 \/ len text < p \/ StringCursor.on_boundary text p = false) -> err <> None) /\
    (p = len text -> err = None) /\
    (err = None -> Position c' = p) /\
    (err <> None -> c' = c).


(** ** Example data *)

(** A fast trie for ASCII text: the letter [b] has category 4 and every
    other code point below 128 has category 3. *)
Definition ascii_trie : ucpTrie.t :=
  {| ucpTrie.trieType := ucpTrie.ucpTrieTypeFast;
     ucpTrie.valueWidth := ucpTrie.ucpTrieValueWidth16;
     ucpTrie.dataLength := 130;
     ucpTrie.index3NullOffset := 0;
     ucpTrie.dataNullOffset := 0;
     ucpTrie.highStart := 0x80;
     ucpTrie.shifted12HighStart := 0;
     ucpTrie.nullValueOffset := 0;
     ucpTrie.index := [0; 64];
     ucpTrie.data8 := [];
     ucpTrie.data16 := map (fun cp => if cp =? 0x62 then 4 else 3) (seqZ 0 128) ++ [0; 0];
     ucpTrie.data32 := [];
     ucpTrie.nullValue := 0 |}.

(** A small trie in which the one-level path and the multi-level path lead
    to different data for the code point [0x1000]. *)
Definition small_trie : ucpTrie.t :=
  {| ucpTrie.trieType := ucpTrie.ucpTrieTypeSmall;
     ucpTrie.valueWidth := ucpTrie.ucpTrieValueWidth16;
     ucpTrie.dataLength := 4;
     ucpTrie.index3NullOffset := 0;
     ucpTrie.dataNullOffset := 0;
     ucpTrie.highStart := 0x2000;
     ucpTrie.shifted12HighStart := 0;
     ucpTrie.nullValueOffset := 0;
     ucpTrie.index := <[1%nat := 1]> (<[8%nat := 1]> (replicate 65 0));
     ucpTrie.data8 := [];
     ucpTrie.data16 := [7; 9; 0; 0];
     ucpTrie.data32 := [];
     ucpTrie.nullValue := 0 |}.

(** A fast trie with data for the code point [0x10000], reached through
    the index-1, index-2 and index-3 entries at 1024, 1025 and 1026. *)
Definition supplementary_trie : ucpTrie.t :=
  {| ucpTrie.trieType := ucpTrie.ucpTrieTypeFast;
     ucpTrie.valueWidth := ucpTrie.ucpTrieValueWidth16;
     ucpTrie.dataLength := 4;
     ucpTrie.index3NullOffset := 0;
     ucpTrie.dataNullOffset := 0;
     ucpTrie.highStart := 0x20000;
     ucpTrie.shifted12HighStart := 0;
     ucpTrie.nullValueOffset := 0;
     ucpTrie.index := replicate 1024 0 ++ [1025; 1026; 1];
     ucpTrie.data8 := [];
     ucpTrie.data16 := [7; 9; 0; 0];
     ucpTrie.data32 := [];
     ucpTrie.nullValue := 0 |}.

Definition mkRow (accepting lookahead tagIndex : byte) (nextStates : list byte)
  : rbbiStateTableRow :=
  {| accepting := accepting; lookahead := lookahead; tagIndex := tagIndex;
     nextStates := nextStates |}.

Definition mkTable (lookaheadResultsSize : Z) (bofRequired : bool)
  (rows : list rbbiStateTableRow) : rbbiStateTable :=
  {| stateCount := len rows; rowLength := 5; dictCategoriesStart := 5;
     lookaheadResultsSize := lookaheadResultsSize; lookaheadHardBreak := false;
     bofRequired := bofRequired; valueWidth := rbbiStateTableValueWidth8;
     rows := rows |}.

(** Columns of a row: error, end of input, start of input, category 3,
    category 4 (the letter [b]). *)

(** The stop row. *)
Definition stop_row : rbbiStateTableRow := mkRow x00 x00 x00 [x00; x00; x00; x00; x00]%byte.

(** A break after every code point. *)
Definition each_table : rbbiStateTable :=
  mkTable 0 false
    [ stop_row;
      mkRow x00 x00 x00 [x00; x00; x00; x02; x02];
      mkRow x01 x00 x09 [x00; x00; x00; x00; x00] ]%byte.

(** A break after every second code point. *)
Definition pairs_table : rbbiStateTable :=
  mkTable 0 false
    [ stop_row;
      mkRow x00 x00 x00 [x00; x00; x00; x02; x02];
      mkRow x00 x00 x00 [x00; x00; x00; x03; x03];
      mkRow x01 x00 x09 [x00; x00; x00; x00; x00] ]%byte.

(** A table that stops at once and accepts nothing. *)
Definition stop_table : rbbiStateTable :=
  mkTable 0 false
    [ stop_row;
      mkRow x00 x00 x00 [x00; x00; x00; x00; x00] ]%byte.

(** A table that never reaches the stop state on a code point. *)
Definition run_table : rbbiStateTable :=
  mkTable 0 false
    [ stop_row;
      mkRow x00 x00 x00 [x00; x00; x00; x01; x01] ]%byte.

(** A table with a lookahead rule of number 2: the row entered on a code
    point of category 3 accepts and records the position of the rule, the
    row entered on the letter [b] completes the rule. *)
Definition lookahead_table : rbbiStateTable :=
  mkTable 3 false
    [ stop_row;
      mkRow x00 x00 x00 [x00; x00; x00; x02; x03];
      mkRow x01 x02 x05 [x00; x00; x00; x00; x00];
      mkRow x02 x00 x07 [x00; x00; x00; x00; x00] ]%byte.

Definition mkData (forwardTable reverseTable : rbbiStateTable) : rbbiData :=
  {| forwardTable := forwardTable; reverseTable := reverseTable;
     trie := ascii_trie; categoryCount := 5 |}.

Definition each_data : rbbiData := mkData each_table stop_table.
Definition pairs_data : rbbiData := mkData pairs_table stop_table.
Definition stop_data : rbbiData := mkData stop_table run_table.
Definition lookahead_data : rbbiData := mkData lookahead_table stop_table.

(** A new engine for [data] with a cursor over [text] at position [p]. *)
Definition engine_at (data : rbbiData) (text : list byte) (p : Z) : RBBI.t :=
  RBBI.SetCursor (RBBI.newRBBI data) (StringCursor.mk text p).

(** The engine [r] with its cursor over [text] at position [p]. *)
Definition seek (r : RBBI.t) (text : list byte) (p : Z) : RBBI.t :=
  RBBI.with_cursor r (StringCursor.mk text p).

(** ** Break positions of a text

    The break positions of a text are the start of the text and the positions
    that [Next] returns when it is called again and again from the start. *)

(** Calls of [Next] until one returns [ok = false]; the positions returned. *)
Fixpoint Next_all (fuel n : nat) (r : RBBI.t (C := StringCursor.t)) : outcome (list Z) :=
  match fuel with
  | O => Timeout
  | S fuel' =>
    '(r', (position, ok)) ← RBBI.Next n r;
    if negb ok then Ret []
    else l ← Next_all fuel' n r'; Ret (position :: l)
  end.

Definition breaks (n : nat) (r : RBBI.t) (text : list byte) : outcome (list Z) :=
  Next_all n n (seek r text 0).

(** The largest member of [l] that is less than [p]. *)
Definition largest_below (p : Z) (l : list Z) : option Z :=
  foldr (fun b acc =>
           if b <? p then
             match acc with
             | Some a => Some (Z.max a b)
             | None => Some b
             end
           else acc) None l.

(** The claim on [Previous] as the specification words it, for an engine
    over a [StringCursor]: [ok = false] exactly at the start of the text, and
    otherwise the position returned is the largest break position before the
    entry position, where the cursor is left. *)
Definition Previous_as_specified : Prop :=
  forall (n : nat) (r r' : RBBI.t) (text : list byte) (p : Z) (bs : list Z)
         (position : Z) (ok : bool),
    0 <= p <= len text ->
    breaks n r text = Ret bs ->
    RBBI.Previous n (seek r text p) = Ret (r', (position, ok)) ->
    (ok = false <-> p = 0) /\
    (ok = true ->
     largest_below p (0 :: bs) = Some position /\
     RBBI.cursor r' = Some (StringCursor.mk text position)).

(** A forward table without lookahead rules: no row completes a lookahead
    and no row records one. *)
Definition lookahead_free (table : rbbiStateTable) : bool :=
  forallb (fun row => (u8 (accepting row) <=? rbbiAcceptingUnconditional)
                      && (u8 (lookahead row) =? 0))
          (rows table).

(** [safePrevious] from the position [s] finds a restart point that is safe:
    it reports the start of the text or returns one of the break positions
    [0 :: bs]. *)
Definition safe_restart (n : nat) (r : RBBI.t) (text : list byte) (bs : list Z) (s : Z)
  : bool :=
  match RBBI.safePrevious n (seek r text s) s with
  | Ret (_, (q, ok)) => negb ok || existsb (Z.eqb q) (0 :: bs)
  | _ => false
  end.

(** An engine over a [StringCursor]: data [d], slots [lam], rule status
    [rsi], cursor over [text] at [pos]. *)
Definition string_engine (d : rbbiData) (lam : list Z) (text : list byte) (rsi pos : Z)
  : RBBI.t :=
  RBBI.mk d lam rsi (Some (StringCursor.mk text pos)).

(** What a pass through the loop of [Next] keeps, for a table without
    lookahead rules: the cursor is beyond the entry position [p0] and within
    the text, the result is the entry position or a position beyond it, and
    the slots are those of the engine. *)
Definition scan_inv (lam : list Z) (text : list byte) (p0 : Z)
  (s : RBBI.scan (C := StringCursor.t)) : Prop :=
  (exists pc, RBBI.s_cursor s = StringCursor.mk text pc /\ p0 < pc <= len text) /\
  (RBBI.s_result s = p0 \/ p0 < RBBI.s_result s <= len text) /\
  RBBI.s_lookaheadMatches s = lam.

(** The slots [m] of a scan that started at [p0] with the slots [lam]: a slot
    holds what it held at the start or a position recorded since, which lies
    beyond [p0] within the text. *)
Definition slots_inv (lam : list Z) (text : list byte) (p0 : Z) (m : list Z) : Prop :=
  length m = length lam /\
  forall (i : nat) (v : Z), m !! i = Some v -> lam !! i = Some v \/ p0 < v <= len text.

(** What a pass through the loop of [Next] keeps, for any table. *)
Definition scan_inv_general (lam : list Z) (text : list byte) (p0 : Z)
  (s : RBBI.scan (C := StringCursor.t)) : Prop :=
  (exists pc, RBBI.s_cursor s = StringCursor.mk text pc /\ p0 < pc <= len text) /\
  (RBBI.s_result s = p0 \/ p0 < RBBI.s_result s <= len text) /\
  slots_inv lam text p0 (RBBI.s_lookaheadMatches s) /\
  (RBBI.s_mode s = rbbiRunModeEnd -> RBBI.s_nextOk s = false).

(** A bound on the passes through the loop of [Next] that are left. *)
Definition scan_fuel (text : list byte) (s : RBBI.scan (C := StringCursor.t)) : Z :=
  if RBBI.s_nextOk s then
    len text - StringCursor.position (RBBI.s_cursor s)
    + (if rbbiRunMode_eqb (RBBI.s_mode s) rbbiRunModeStart then 4 else 3)
  else if rbbiRunMode_eqb (RBBI.s_mode s) rbbiRunModeEnd then 1 else 2.

(** The claim on [Next] as the specification words it, for an engine over a
    [StringCursor]: [ok = false] exactly at the end of the text, where the
    cursor stays; otherwise the position returned is beyond the entry
    position and the cursor is left there. *)
Definition Next_as_specified : Prop :=
  forall (n : nat) (r r' : RBBI.t) (text : list byte) (p position : Z) (ok : bool),
    RBBI.cursor r = Some (StringCursor.mk text p) ->
    0 <= p <= len text ->
    RBBI.Next n r = Ret (r', (position, ok)) ->
    (ok = false <-> p = len text) /\
    (ok = true -> p < position /\ RBBI.cursor r' = Some (StringCursor.mk text position)) /\
    (ok = false -> RBBI.cursor r' = Some (StringCursor.mk text p)).

(** The claim on the slots as the specification words it: when a call of
    [Next] on a new engine enters its loop, every slot is unset, that is,
    holds no position. *)
Definition slots_cleared_as_specified : Prop :=
  forall (d : rbbiData) (text : list byte) (p : Z) (cur : StringCursor.t) (c : rune)
         (row : rbbiStateTableRow),
    Forall (fun v => v < 0)
           (RBBI.s_lookaheadMatches (RBBI.Next_init (engine_at d text p) cur p c row)).

Definition text_b : list byte := [x62]%byte.
Definition text_ab : list byte := [x61; x62]%byte.
Definition text_abc : list byte := [x61; x62; x63]%byte.
Definition text_abab : list byte := [x61; x62; x61; x62]%byte.
(** ** Runes of a cursor *)

(** A Unicode scalar value: a code point that is no surrogate. *)
Definition scalar_value (r : Z) : Prop := 0 <= r <= 0x10FFFF /\ ~ (0xD800 <= r <= 0xDFFF).

(** The number of bytes of the UTF-8 encoding of a scalar value. *)
Definition rune_size (r : Z) : Z :=
  if r <? 0x80 then 1 else if r <? 0x800 then 2 else if r <? 0x10000 then 3 else 4.

(** A rune [r] decoded from [k] bytes: a scalar value in its shortest
    encoding, or [RuneError] for at most one byte. *)
Definition decoded (r k : Z) : Prop :=
  scalar_value r /\ (k = rune_size r \/ (k <= 1 /\ r = utf8.RuneError)).

(** ** Sequences of calls on a [StringCursor] *)

(** [k] calls of [Next], and of [Previous], on a [StringCursor]. *)
Fixpoint Next_times (k : nat) (c : StringCursor.t) : outcome StringCursor.t :=
  match k with
  | O => Ret c
  | S k' => '(c', _) ← StringCursor.Next c; Next_times k' c'
  end.

Fixpoint Previous_times (k : nat) (c : StringCursor.t) : outcome StringCursor.t :=
  match k with
  | O => Ret c
  | S k' => '(c', _) ← StringCursor.Previous c; Previous_times k' c'
  end.

(** A call of a method of the cursor that moves it. *)
Inductive cursor_call : Type :=
| call_SetPosition (position : Z)
| call_Next
| call_Previous.

Definition call (c : StringCursor.t) (m : cursor_call) : outcome StringCursor.t :=
  match m with
  | call_SetPosition p => Ret (fst (StringCursor.SetPosition c p))
  | call_Next => '(c', _) ← StringCursor.Next c; Ret c'
  | call_Previous => '(c', _) ← StringCursor.Previous c; Ret c'
  end.

(** A sequence of calls, from left to right. *)
Fixpoint calls (c : StringCursor.t) (ms : list cursor_call) : outcome StringCursor.t :=
  match ms with
  | [] => Ret c
  | m :: ms' => c' ← call c m; calls c' ms'
  end.

(** ** Well-formed data *)

(** The values of a trie, read as [readData] reads them. *)
Definition values (t : ucpTrie.t) : list Z :=
  if ucpTrie.valueWidth t =? ucpTrie.ucpTrieValueWidth8 then map u8 (ucpTrie.data8 t)
  else if ucpTrie.valueWidth t =? ucpTrie.ucpTrieValueWidth16 then ucpTrie.data16 t
  else if ucpTrie.valueWidth t =? ucpTrie.ucpTrieValueWidth32 then ucpTrie.data32 t
  else [].

(** A trie without multi-level index: the index has an entry for every
    block of the basic multilingual plane, every block lies within the
    values, the code points above the plane share the high value, and the
    high value and the error value are stored. *)
Definition flat (t : ucpTrie.t) : bool :=
  (ucpTrie.ucpTrieBmpIndexLength <=? len (ucpTrie.index t))
  && forallb (fun e => (0 <=? e) && (e + ucpTrie.ucpTrieFastDataBlockLength <=? len (values t)))
             (take (Z.to_nat ucpTrie.ucpTrieBmpIndexLength) (ucpTrie.index t))
  && (ucpTrie.highStart t <=? 0x10000)
  && (ucpTrie.ucpTrieHighValueNegDataOffset <=? ucpTrie.dataLength t)
  && (ucpTrie.dataLength t <=? len (values t)).

(** A flat trie in which the letter [b] has category 4 and every other code
    point has category 3. *)
Definition flat_trie : ucpTrie.t :=
  {| ucpTrie.trieType := ucpTrie.ucpTrieTypeFast;
     ucpTrie.valueWidth := ucpTrie.ucpTrieValueWidth16;
     ucpTrie.dataLength := 130;
     ucpTrie.index3NullOffset := 0;
     ucpTrie.dataNullOffset := 0;
     ucpTrie.highStart := 0x10000;
     ucpTrie.shifted12HighStart := 0;
     ucpTrie.nullValueOffset := 0;
     ucpTrie.index := <[1%nat := 64]> (replicate 1024 0);
     ucpTrie.data8 := [];
     ucpTrie.data16 := map (fun cp => if cp =? 0x62 then 4 else 3) (seqZ 0 128) ++ [3; 3];
     ucpTrie.data32 := [];
     ucpTrie.nullValue := 0 |}.

(** The trie gives a category of the data for every code point that a
    cursor can yield. *)
Definition trie_ok (d : rbbiData) : Prop :=
  forall c : rune, 0 <= c <= 0x10FFFF ->
    exists v, ucpTrie.fastGet (trie d) c = Ret v /\ 0 <= v < categoryCount d.

(** A row has a column for every category, and every entry is the number of
    a row of the table. *)
Definition row_ok (d : rbbiData) (table : rbbiStateTable) (row : rbbiStateTableRow) : bool :=
  (categoryCount d <=? len (nextStates row))
  && forallb (fun e => u8 e <? len (rows table)) (nextStates row).

(** The lookahead rules of a row are rules of the table. *)
Definition lookahead_ok (table : rbbiStateTable) (row : rbbiStateTableRow) : bool :=
  ((u8 (accepting row) <=? rbbiAcceptingUnconditional)
   || (u8 (accepting row) <? lookaheadResultsSize table))
  && ((u8 (lookahead row) =? 0)
      || ((rbbiAcceptingUnconditional <? u8 (lookahead row))
          && (u8 (lookahead row) <? lookaheadResultsSize table))).

(** The forward table: the categories of the end and of the start of the
    input are categories of the data, the start row exists, and every row is
    well formed. *)
Definition forward_ok (d : rbbiData) : bool :=
  (3 <=? categoryCount d)
  && (rbbiStateStart <? len (rows (forwardTable d)))
  && forallb (fun row => row_ok d (forwardTable d) row && lookahead_ok (forwardTable d) row)
             (rows (forwardTable d)).

Definition reverse_ok (d : rbbiData) : bool :=
  (rbbiStateStart <? len (rows (reverseTable d)))
  && forallb (row_ok d (reverseTable d)) (rows (reverseTable d)).

(** What a pass through the loop of [Next] needs in order not to panic. *)
Definition scan_ok (d : rbbiData) (text : list byte) (s : RBBI.scan (C := StringCursor.t))
  : Prop :=
  (exists pc, RBBI.s_cursor s = StringCursor.mk text pc /\ 0 <= pc <= len text) /\
  In (RBBI.s_row s) (rows (forwardTable d)) /\
  lookaheadResultsSize (forwardTable d) <= len (RBBI.s_lookaheadMatches s) /\
  (RBBI.s_nextOk s = true -> 0 <= RBBI.s_c s <= 0x10FFFF) /\
  (RBBI.s_mode s = rbbiRunModeStart -> RBBI.s_category s = 2) /\
  (RBBI.s_mode s = rbbiRunModeEnd -> RBBI.s_nextOk s = false).

Definition mkFlatData (forwardTable reverseTable : rbbiStateTable) : rbbiData :=
  {| forwardTable := forwardTable; reverseTable := reverseTable;
     trie := flat_trie; categoryCount := 5 |}.

(** ** Backward iteration *)

(** Calls of [Previous] until one returns [ok = false]; the positions
    returned. *)
Fixpoint Previous_all (fuel n : nat) (r : RBBI.t (C := StringCursor.t)) : outcome (list Z) :=
  match fuel with
  | O => Timeout
  | S fuel' =>
    '(r', (position, ok)) ← RBBI.Previous n r;
    if negb ok then Ret []
    else l ← Previous_all fuel' n r'; Ret (position :: l)
  end.

(** ** The dictionary categories *)

(** The data with another start of the dictionary categories in the forward
    table. *)
Definition with_dictCategoriesStart (d : rbbiData) (v : Z) : rbbiData :=
  {| forwardTable :=
       {| stateCount := stateCount (forwardTable d);
          rowLength := rowLength (forwardTable d);
          dictCategoriesStart := v;
          lookaheadResultsSize := lookaheadResultsSize (forwardTable d);
          lookaheadHardBreak := lookaheadHardBreak (forwardTable d);
          bofRequired := bofRequired (forwardTable d);
          valueWidth := valueWidth (forwardTable d);
          rows := rows (forwardTable d) |};
     reverseTable := reverseTable d;
     trie := trie d;
     categoryCount := categoryCount d |}.

(** The engine [r] with the data [d]. *)
Definition with_data {C : Type} (r : RBBI.t (C := C)) (d : rbbiData) : RBBI.t (C := C) :=
  {| RBBI.data := d; RBBI.lookaheadMatches := RBBI.lookaheadMatches r;
     RBBI.ruleStatusIndex := RBBI.ruleStatusIndex r; RBBI.cursor := RBBI.cursor r |}.

(** A scan and the end of a pass, without the count of dictionary
    characters. *)
Definition forget_count {C : Type} (s : RBBI.scan (C := C)) : RBBI.scan (C := C) :=
  RBBI.set_dictionaryCharCount s 0.

Definition forget_step {C : Type} (st : RBBI.step (C := C)) : RBBI.step (C := C) :=
  match st with
  | RBBI.Continue s => RBBI.Continue (forget_count s)
  | RBBI.Break s => RBBI.Break (forget_count s)
  | RBBI.Return s position ok => RBBI.Return (forget_count s) position ok
  end.

(** ** Repeated calls of [Next] *)

(** [k] calls of [Next] on an engine, one after the other. *)
Fixpoint Next_calls (k n : nat) (r : RBBI.t (C := StringCursor.t))
  : outcome (RBBI.t (C := StringCursor.t)) :=
  match k with
  | O => Ret r
  | S k' => '(r', _) ← RBBI.Next n r; Next_calls k' n r'
  end.


(** ** Lookahead slots and backward iteration *)

(** What a call returns to its caller, without the engine it leaves. *)
Definition answer {A B : Type} (o : outcome (A * B)) : outcome B :=
  match o with
  | Ret (_, b) => Ret b
  | Panic => Panic
  | Timeout => Timeout
  end.

(** What a call of [Next] from the position [q] of the text returns does not
    depend on what the slots hold: with the data [d] and any two lists of [L]
    slots the two calls end alike and, when they return, return the same
    position and the same [ok]. *)
Definition slots_irrelevant (n : nat) (d : rbbiData) (L : nat) (text : list byte) (q : Z)
  : Prop :=
  forall (lam lam' : list Z) (rsi rsi' : Z),
    length lam = L -> length lam' = L ->
    answer (RBBI.Next n (string_engine d lam text rsi q))
    = answer (RBBI.Next n (string_engine d lam' text rsi' q)).

(** The outcome of a pass through the loop of [Next] with the slots of its
    scan replaced by [m]. *)
Definition step_with_slots {C : Type} (m : list Z) (st : RBBI.step (C := C))
  : RBBI.step (C := C) :=
  match st with
  | RBBI.Continue s => RBBI.Continue (RBBI.set_lookaheadMatches s m)
  | RBBI.Break s => RBBI.Break (RBBI.set_lookaheadMatches s m)
  | RBBI.Return s position ok => RBBI.Return (RBBI.set_lookaheadMatches s m) position ok
  end.

(** A table with a lookahead rule of number 2 that records its position
    before it completes: after two letters of category 3 the position is
    recorded, and the letter [b] that follows completes the rule; two
    letters [b] from the start are accepted. *)
Definition recorded_table : rbbiStateTable :=
  mkTable 3 false
    [ stop_row;
      mkRow x00 x00 x00 [x00; x00; x00; x02; x04];
      mkRow x00 x00 x00 [x00; x00; x00; x03; x00];
      mkRow x00 x02 x00 [x00; x00; x00; x00; x06];
      mkRow x00 x00 x00 [x00; x00; x00; x00; x05];
      mkRow x01 x00 x09 [x00; x00; x00; x00; x00];
      mkRow x02 x00 x07 [x00; x00; x00; x00; x00] ]%byte.

(** A table with a lookahead rule of number 2 whose completion can be
    reached without its recording: a letter of category 3 is accepted; a
    second one records the position of the rule; the letter [b] after an
    accepted letter completes the rule; two letters [b] from the start are
    accepted. *)
Definition stale_table : rbbiStateTable :=
  mkTable 3 false
    [ stop_row;
      mkRow x00 x00 x00 [x00; x00; x00; x02; x05];
      mkRow x01 x00 x09 [x00; x00; x00; x03; x04];
      mkRow x00 x02 x00 [x00; x00; x00; x00; x00];
      mkRow x02 x00 x07 [x00; x00; x00; x00; x00];
      mkRow x00 x00 x00 [x00; x00; x00; x00; x06];
      mkRow x01 x00 x09 [x00; x00; x00; x00; x00] ]%byte.

(** A reverse table that goes back over letters [b] and stops after the
    first code point of category 3. *)
Definition stale_reverse_table : rbbiStateTable :=
  mkTable 0 false
    [ stop_row;
      mkRow x00 x00 x00 [x00; x00; x00; x00; x02];
      mkRow x00 x00 x00 [x00; x00; x00; x00; x03];
      mkRow x00 x00 x00 [x00; x00; x00; x00; x03] ]%byte.

Definition recorded_data : rbbiData := mkData recorded_table run_table.
Definition stale_data : rbbiData := mkData stale_table stale_reverse_table.

Definition text_aabb : list byte := [x61; x61; x62; x62]%byte.
Definition text_baa : list byte := [x62; x61; x61]%byte.

(** The engine that two calls of [Next] on a new engine for [stale_data]
    over the text [baa] leave: the slot of rule 2 holds the position 3. *)
Definition stale_engine : RBBI.t :=
  string_engine stale_data [0; 0; 3] text_baa 9 2.

(** * Properties *)

(** ** Outcomes, integers and slices *)

Lemma bind_Ret {A B : Type} (m : outcome A) (k : A -> outcome B) (b : B) :
  m ≫= k = Ret b -> exists a, m = Ret a /\ k a = Ret b.
Proof. destruct m; simpl; intros H; try discriminate. eauto. Qed.

Lemma u8_range (b : byte) : 0 <= u8 b < 256.
Proof.
  unfold u8. pose proof (Byte.to_N_bounded b) as H.
  split; [apply N2Z.is_nonneg|].
  apply N2Z.inj_le in H. change (Z.of_N 255) with 255 in H. lia.
Qed.

Lemma slice_index_neg {A : Type} (l : list A) (i : Z) : i < 0 -> slice_index l i = Panic.
Proof. intros H. unfold slice_index. destruct (Z.ltb_spec i 0); [reflexivity|lia]. Qed.

Lemma len_nonneg {A : Type} (l : list A) : 0 <= len l.
Proof. unfold len. lia. Qed.

(** ** UTF-8 decoding *)

Lemma first_cases (b : Z) :
  0 <= b < 256 ->
  (b < 0x80 /\ utf8.first b = utf8.as_) \/
  (0x80 <= b /\ utf8.first b = utf8.xx) \/
  (0xC2 <= b /\ utf8.first b < utf8.as_ /\
   2 <= Z.land (utf8.first b) 7 <= 4 /\
   0x80 <= fst (utf8.acceptRanges (Z.shiftr (utf8.first b) 4)) /\
   snd (utf8.acceptRanges (Z.shiftr (utf8.first b) 4)) <= 0xBF).
Proof.
  intros Hb. unfold utf8.first.
  repeat match goal with
  | |- context [?x <? ?y] => destruct (Z.ltb_spec x y)
  | |- context [?x =? ?y] => destruct (Z.eqb_spec x y)
  end; try (left; split; [lia|reflexivity]);
  try (right; left; split; [lia|reflexivity]);
  right; right; (split; [lia|]); vm_compute; intuition congruence.
Qed.

Lemma RuneStart_u8 (b : byte) :
  utf8.RuneStart (u8 b) = negb ((0x80 <=? u8 b) && (u8 b <=? 0xBF)).
Proof. destruct b; reflexivity. Qed.

Lemma len_cons {A} (a : A) l : len (a :: l) = 1 + len l.
Proof. unfold len. simpl length. lia. Qed.

Ltac ifs :=
  repeat match goal with
  | |- context [if ?x <? ?y then _ else _] => destruct (Z.ltb_spec x y); try lia
  | |- context [if ?x <=? ?y then _ else _] => destruct (Z.leb_spec x y); try lia
  | |- context [(?x <? ?y) || _] => destruct (Z.ltb_spec x y); cbn [orb]; try lia
  end.

Lemma DecodeRuneInString_shape (s : list byte) :
  decodes_as s (fst (utf8.DecodeRuneInString s)) (snd (utf8.DecodeRuneInString s)).
Proof.
  destruct s as [|b0 t]; [simpl; auto|].
  unfold decodes_as.
  pose proof (u8_range b0) as H0.
  destruct (first_cases (u8 b0) H0) as [[R F]|[[R F]|[R [F [Hsz [Hlo Hhi]]]]]].
  - left. unfold utf8.DecodeRuneInString. rewrite F. 
    change (utf8.as_ <=? utf8.as_) with true. cbv iota.
    change (Z.shiftr (wrap32 (Z.shiftl utf8.as_ 31)) 31) with 0.
    cbn [fst snd]. ifs. change (Z.lnot 0) with (-1).
    rewrite Z.land_m1_r, Z.land_0_r, Z.lor_0_r. auto.
  - left. unfold utf8.DecodeRuneInString. rewrite F.
    change (utf8.as_ <=? utf8.xx) with true. cbv iota.
    change (Z.shiftr (wrap32 (Z.shiftl utf8.xx 31)) 31) with (-1).
    cbn [fst snd]. ifs. change (Z.lnot (-1)) with 0.
    rewrite Z.land_m1_r, Z.land_0_r. auto.
  - assert (Hu : forall t', utf8.DecodeRuneInString (b0 :: t') =
      let sz := Z.land (utf8.first (u8 b0)) 7 in
      let accept := utf8.acceptRanges (Z.shiftr (utf8.first (u8 b0)) 4) in
      if len (b0 :: t') <? sz then (utf8.RuneError, 1)
      else match t' with
      | [] => (utf8.RuneError, 1)
      | b1 :: t1 =>
        if (u8 b1 <? fst accept) || (snd accept <? u8 b1) then (utf8.RuneError, 1)
        else if sz <=? 2 then
          (Z.lor (Z.shiftl (Z.land (u8 b0) utf8.mask2) 6) (Z.land (u8 b1) utf8.maskx), 2)
        else match t1 with
        | [] => (utf8.RuneError, 1)
        | b2 :: t2 =>
          if utf8.not_cont (u8 b2) then (utf8.RuneError, 1)
          else if sz <=? 3 then
            (Z.lor (Z.lor (Z.shiftl (Z.land (u8 b0) utf8.mask3) 12)
                          (Z.shiftl (Z.land (u8 b1) utf8.maskx) 6))
                   (Z.land (u8 b2) utf8.maskx), 3)
          else match t2 with
          | [] => (utf8.RuneError, 1)
          | b3 :: _ =>
            if utf8.not_cont (u8 b3) then (utf8.RuneError, 1)
            else
              (Z.lor (Z.lor (Z.lor (Z.shiftl (Z.land (u8 b0) utf8.mask4) 18)
                                   (Z.shiftl (Z.land (u8 b1) utf8.maskx) 12))
                            (Z.shiftl (Z.land (u8 b2) utf8.maskx) 6))
                     (Z.land (u8 b3) utf8.maskx), 4)
          end
        end
      end).
    { intros t'. unfold utf8.DecodeRuneInString.
      destruct (Z.leb_spec utf8.as_ (utf8.first (u8 b0))); [lia|]. reflexivity. }
    rewrite Hu. 
    assert (Herr : (1 = 1 /\ (if u8 b0 <? 128 then utf8.RuneError = u8 b0 else utf8.RuneError = utf8.RuneError))).
    { ifs; auto. }
    generalize dependent (Z.land (utf8.first (u8 b0)) 7). intros sz Hsz Hu.
    generalize dependent (utf8.acceptRanges (Z.shiftr (utf8.first (u8 b0)) 4)).
    intros [lo hi]. cbn [fst snd]. intros Hlo Hhi Hu.
    cbv zeta. unfold utf8.not_cont, utf8.locb, utf8.hicb.
    destruct t as [|b1 [|b2 [|b3 t3]]]; rewrite ?len_cons;
      try pose proof (len_nonneg t3);
      change (len (@nil byte)) with 0; ifs; cbn [fst snd]; auto;
      right; (split; [lia|]).
    all: try (left; eexists _, _; split; [reflexivity|]; split; [reflexivity|];
       split; [unfold cont; lia|]; intros t'; rewrite Hu; cbv zeta; rewrite ?len_cons;
       pose proof (len_nonneg t'); ifs; reflexivity).
    all: try (right; left; eexists _, _, _; split; [reflexivity|]; split; [reflexivity|];
       split; [unfold cont; lia|]; split; [unfold cont; lia|];
       intros t'; rewrite Hu; cbv zeta; rewrite ?len_cons;
       pose proof (len_nonneg t'); unfold utf8.not_cont, utf8.locb, utf8.hicb; ifs; reflexivity).
    all: try (right; right; eexists _, _, _, _; split; [reflexivity|]; split; [reflexivity|];
       split; [unfold cont; lia|]; split; [unfold cont; lia|]; split; [unfold cont; lia|];
       intros t'; rewrite Hu; cbv zeta; rewrite ?len_cons;
       pose proof (len_nonneg t'); unfold utf8.not_cont, utf8.locb, utf8.hicb; ifs; reflexivity).
Qed.

Lemma DecodeRuneInString_inv (s : list byte) (r k : Z) :
  utf8.DecodeRuneInString s = (r, k) -> decodes_as s r k.
Proof.
  intros H. pose proof (DecodeRuneInString_shape s) as Hs.
  rewrite H in Hs. exact Hs.
Qed.

Lemma DecodeRuneInString_size (s : list byte) (r k : Z) :
  s <> [] -> utf8.DecodeRuneInString s = (r, k) -> 1 <= k <= 4 /\ k <= len s.
Proof.
  intros Hne H. apply DecodeRuneInString_inv in H.
  destruct s as [|b0 t]; [congruence|].
  rewrite len_cons. pose proof (len_nonneg t).
  destruct H as [[-> _]|[_ [(b1 & t1 & -> & -> & _)|[(b1 & b2 & t2 & -> & -> & _)|
    (b1 & b2 & b3 & t3 & -> & -> & _)]]]];
    rewrite ?len_cons; try pose proof (len_nonneg t1);
    try pose proof (len_nonneg t2); try pose proof (len_nonneg t3); lia.
Qed.

(** A multi-byte rune is decoded from its own bytes: more text after it, or
    less, does not change the result. *)
Lemma DecodeRuneInString_take (s : list byte) (m : nat) (r k : Z) :
  2 <= k -> k <= Z.of_nat m ->
  utf8.DecodeRuneInString s = (r, k) ->
  utf8.DecodeRuneInString (take m s) = (r, k).
Proof.
  intros Hk Hm H. apply DecodeRuneInString_inv in H.
  destruct s as [|b0 t]; [simpl in H; lia|].
  destruct H as [[-> _]|[_ [(b1 & t1 & -> & -> & _ & H)|[(b1 & b2 & t2 & -> & -> & _ & _ & H)|
    (b1 & b2 & b3 & t3 & -> & -> & _ & _ & _ & H)]]]]; [lia| | |].
  - destruct m as [|[|m]]; try lia. cbn [take]. apply H.
  - destruct m as [|[|[|m]]]; try lia. cbn [take]. apply H.
  - destruct m as [|[|[|[|m]]]]; try lia. cbn [take]. apply H.
Qed.

Lemma DecodeRuneInString_of_take (s : list byte) (m : nat) (r k : Z) :
  2 <= k ->
  utf8.DecodeRuneInString (take m s) = (r, k) ->
  utf8.DecodeRuneInString s = (r, k).
Proof.
  intros Hk H. apply DecodeRuneInString_inv in H.
  destruct (take m s) as [|b0 t] eqn:E; [simpl in H; lia|].
  destruct H as [[-> _]|[_ [(b1 & t1 & -> & -> & _ & H)|[(b1 & b2 & t2 & -> & -> & _ & _ & H)|
    (b1 & b2 & b3 & t3 & -> & -> & _ & _ & _ & H)]]]]; [lia| | |].
  - destruct m as [|[|m]], s as [|c0 [|c1 s]]; try discriminate.
    cbn [take] in E. injection E as -> -> _. apply H.
  - destruct m as [|[|[|m]]], s as [|c0 [|c1 [|c2 s]]]; try discriminate.
    cbn [take] in E. injection E as -> -> -> _. apply H.
  - destruct m as [|[|[|[|m]]]], s as [|c0 [|c1 [|c2 [|c3 s]]]]; try discriminate.
    cbn [take] in E. injection E as -> -> -> -> _. apply H.
Qed.

Lemma byte_at_app_r (pre suf : list byte) (i : Z) :
  0 <= i -> utf8.byte_at (pre ++ suf) (len pre + i) = utf8.byte_at suf i.
Proof.
  intros Hi. unfold utf8.byte_at, len.
  replace (Z.to_nat (Z.of_nat (length pre) + i)) with (length pre + Z.to_nat i)%nat by lia.
  rewrite lookup_app_r by lia.
  replace (length pre + Z.to_nat i - length pre)%nat with (Z.to_nat i) by lia.
  reflexivity.
Qed.

Lemma len_app {A} (l1 l2 : list A) : len (l1 ++ l2) = len l1 + len l2.
Proof. unfold len. rewrite length_app. lia. Qed.

Lemma slice_from_app {A} (pre suf : list A) : slice_from (pre ++ suf) (len pre) = suf.
Proof.
  unfold slice_from, len. rewrite Nat2Z.id. apply drop_app_length.
Qed.

Lemma RuneStart_cont (b : byte) : cont b -> utf8.RuneStart (u8 b) = false.
Proof.
  unfold cont. intros H. rewrite RuneStart_u8.
  destruct (Z.leb_spec 128 (u8 b)), (Z.leb_spec (u8 b) 191); try lia; reflexivity.
Qed.

Lemma RuneStart_lead (b : byte) : 0xC0 <= u8 b -> utf8.RuneStart (u8 b) = true.
Proof.
  intros H. rewrite RuneStart_u8.
  destruct (Z.leb_spec 128 (u8 b)), (Z.leb_spec (u8 b) 191); try lia; reflexivity.
Qed.

Lemma scan_start_found (fuel : nat) (s : list byte) (start lim target : Z) :
  lim <= target <= start -> start - target < Z.of_nat fuel ->
  utf8.RuneStart (utf8.byte_at s target) = true ->
  (forall i, target < i <= start -> utf8.RuneStart (utf8.byte_at s i) = false) ->
  utf8.scan_start fuel s start lim = target.
Proof.
  revert start. induction fuel as [|fuel IH]; intros start Hr Hf Ht Hc; [lia|].
  cbn [utf8.scan_start]. destruct (Z.ltb_spec start lim); [lia|].
  destruct (Z.eq_dec start target) as [->|Hne].
  - rewrite Ht. reflexivity.
  - rewrite Hc by lia. apply IH; try lia; try assumption.
    intros i Hi. apply Hc. lia.
Qed.

Lemma scan_start_le (fuel : nat) (s : list byte) (start lim : Z) :
  utf8.scan_start fuel s start lim <= start.
Proof.
  revert start. induction fuel as [|fuel IH]; intros start; cbn [utf8.scan_start]; [lia|].
  destruct (start <? lim); [lia|].
  destruct (utf8.RuneStart _); [lia|]. specialize (IH (start - 1)). lia.
Qed.

(** Decoding backwards finds a multi-byte rune that ends the string. *)
Lemma DecodeLastRuneInString_multi (pre suf : list byte) (r k : Z) :
  2 <= k -> len suf = k ->
  utf8.DecodeRuneInString suf = (r, k) ->
  utf8.DecodeLastRuneInString (pre ++ suf) = (r, k).
Proof.
  intros Hk Hlen H. pose proof H as Hinv. apply DecodeRuneInString_inv in Hinv.
  destruct suf as [|b0 t]; [simpl in Hinv; lia|].
  pose proof (len_nonneg pre) as Hpre.
  unfold utf8.DecodeLastRuneInString. rewrite len_app, Hlen.
  destruct (Z.eqb_spec (len pre + k) 0); [lia|].
  assert (Hlast : 0x80 <= utf8.byte_at (pre ++ b0 :: t) (len pre + k - 1) /\
    utf8.scan_start (Z.to_nat utf8.UTFMax) (pre ++ b0 :: t) (len pre + k - 1 - 1)
      (Z.max (len pre + k - utf8.UTFMax) 0) = len pre).
  { assert (H0 : utf8.RuneStart (utf8.byte_at (pre ++ b0 :: t) (len pre)) = true).
    { replace (len pre) with (len pre + 0) by lia. rewrite byte_at_app_r by lia.
      change (utf8.byte_at (b0 :: t) 0) with (u8 b0). apply RuneStart_lead.
      destruct Hinv as [[-> _]|[Hb0 _]]; lia. }
    assert (Hc : forall i, 1 <= i < k ->
      0x80 <= utf8.byte_at (b0 :: t) i /\ utf8.RuneStart (utf8.byte_at (b0 :: t) i) = false).
    { intros i Hi.
      destruct Hinv as [[-> _]|[Hb0 [(b1 & t1 & -> & -> & C1 & _)|
        [(b1 & b2 & t2 & -> & -> & C1 & C2 & _)|
         (b1 & b2 & b3 & t3 & -> & -> & C1 & C2 & C3 & _)]]]]; [lia| | |].
      - assert (i = 1) as -> by lia. change (utf8.byte_at (b0 :: b1 :: t1) 1) with (u8 b1).
        split; [apply C1|apply RuneStart_cont, C1].
      - assert (i = 1 \/ i = 2) as [->| ->] by lia.
        + change (utf8.byte_at (b0 :: b1 :: b2 :: t2) 1) with (u8 b1).
          split; [apply C1|apply RuneStart_cont, C1].
        + change (utf8.byte_at (b0 :: b1 :: b2 :: t2) 2) with (u8 b2).
          split; [apply C2|apply RuneStart_cont, C2].
      - assert (i = 1 \/ i = 2 \/ i = 3) as [->|[->| ->]] by lia.
        + change (utf8.byte_at (b0 :: b1 :: b2 :: b3 :: t3) 1) with (u8 b1).
          split; [apply C1|apply RuneStart_cont, C1].
        + change (utf8.byte_at (b0 :: b1 :: b2 :: b3 :: t3) 2) with (u8 b2).
          split; [apply C2|apply RuneStart_cont, C2].
        + change (utf8.byte_at (b0 :: b1 :: b2 :: b3 :: t3) 3) with (u8 b3).
          split; [apply C3|apply RuneStart_cont, C3]. }
    assert (k <= 4).
    { pose proof (DecodeRuneInString_size (b0 :: t) r k) as Hs.
      destruct Hs as [Hs _]; [congruence|assumption|lia]. }
    split.
    - replace (len pre + k - 1) with (len pre + (k - 1)) by lia.
      rewrite byte_at_app_r by lia. apply Hc. lia.
    - apply scan_start_found; unfold utf8.UTFMax; try lia; [assumption|].
      intros i Hi. replace i with (len pre + (i - len pre)) by lia.
      rewrite byte_at_app_r by lia. apply Hc. lia. }
  destruct Hlast as [Hlast ->].
  unfold utf8.RuneSelf. destruct (Z.ltb_spec (utf8.byte_at (pre ++ b0 :: t) (len pre + k - 1)) 128);
    [lia|].
  destruct (Z.ltb_spec (len pre) 0); [lia|].
  rewrite slice_from_app, H. rewrite Z.eqb_refl. reflexivity.
Qed.

(** What decoding backwards can return. *)
Lemma DecodeLastRuneInString_inv (s : list byte) (r k : Z) :
  s <> [] ->
  utf8.DecodeLastRuneInString s = (r, k) ->
  (k = 1 /\ utf8.byte_at s (len s - 1) < 0x80 /\ r = utf8.byte_at s (len s - 1)) \/
  (k = 1 /\ 0x80 <= utf8.byte_at s (len s - 1) /\ r = utf8.RuneError) \/
  (2 <= k <= 4 /\ k <= len s /\ utf8.DecodeRuneInString (slice_from s (len s - k)) = (r, k)).
Proof.
  intros Hne. unfold utf8.DecodeLastRuneInString.
  assert (Hlen : 0 < len s).
  { destruct s; [congruence|]. rewrite len_cons. pose proof (len_nonneg s). lia. }
  destruct (Z.eqb_spec (len s) 0); [lia|].
  unfold utf8.RuneSelf.
  destruct (Z.ltb_spec (utf8.byte_at s (len s - 1)) 128) as [Hlt|Hge].
  { intros [= <- <-]. left. auto. }
  set (st := utf8.scan_start _ _ _ _).
  pose proof (scan_start_le (Z.to_nat utf8.UTFMax) s (len s - 1 - 1)
    (Z.max (len s - utf8.UTFMax) 0)) as Hst. fold st in Hst.
  set (start := if st <? 0 then 0 else st).
  assert (Hstart : 0 <= start <= len s - 1).
  { unfold start. destruct (Z.ltb_spec st 0); lia. }
  destruct (utf8.DecodeRuneInString (slice_from s start)) as [r0 size] eqn:E.
  assert (Hdrop : slice_from s start <> []).
  { unfold slice_from. intros Hnil. apply (f_equal length) in Hnil.
    rewrite length_drop in Hnil. simpl in Hnil. unfold len in *. lia. }
  pose proof (DecodeRuneInString_size _ _ _ Hdrop E) as [Hsz Hsz'].
  destruct (Z.eqb_spec (start + size) (len s)) as [Heq|Hneq]; cbn [negb].
  2:{ intros [= <- <-]. right. left. auto. }
  intros [= <- <-].
  destruct (Z.eq_dec size 1) as [->|Hne1].
  - right. left. split; [reflexivity|]. split; [assumption|].
    apply DecodeRuneInString_inv in E.
    assert (start = len s - 1) as Es by lia. rewrite Es in E.
    unfold slice_from in E. unfold utf8.byte_at in Hge.
    destruct (drop (Z.to_nat (len s - 1)) s) as [|b0 t] eqn:Ed; [simpl in E; lia|].
    assert (Hl : s !! Z.to_nat (len s - 1) = Some b0).
    { rewrite <- (Nat.add_0_r (Z.to_nat (len s - 1))), <- lookup_drop, Ed. reflexivity. }
    rewrite Hl in Hge.
    destruct E as [[_ E]|[_ [(? & ? & _ & ? & _)|[(? & ? & ? & _ & ? & _)|(? & ? & ? & ? & _ & ? & _)]]]];
      try lia.
    destruct (Z.ltb_spec (u8 b0) 128); [lia|assumption].
  - right. right. split; [lia|]. split; [lia|].
    replace (len s - size) with start by lia. assumption.
Qed.

(** ** [StringCursor] *)

Lemma slice_to_from {A} (l : list A) (i : Z) :
  slice_to l i ++ slice_from l i = l.
Proof. apply take_drop. Qed.

Lemma len_slice_to {A} (l : list A) (i : Z) :
  0 <= i <= len l -> len (slice_to l i) = i.
Proof. unfold len, slice_to. intros H. rewrite length_take. lia. Qed.

Lemma len_slice_from {A} (l : list A) (i : Z) :
  0 <= i <= len l -> len (slice_from l i) = len l - i.
Proof. unfold len, slice_from. intros H. rewrite length_drop. lia. Qed.

Lemma slice_from_nonempty {A} (l : list A) (i : Z) :
  0 <= i < len l -> slice_from l i <> [].
Proof.
  intros H Hnil. pose proof (len_slice_from l i ltac:(lia)) as Hl.
  rewrite Hnil in Hl. change (len (@nil A)) with 0 in Hl. lia.
Qed.

(** [s[:q][i:]] is the prefix of [s[i:]] of length [q - i]. *)
Lemma slice_to_slice_from {A} (l : list A) (i q : Z) :
  0 <= i <= q ->
  slice_from (slice_to l q) i = take (Z.to_nat (q - i)) (slice_from l i).
Proof.
  intros H. unfold slice_from, slice_to.
  rewrite take_drop_commute. f_equal. f_equal. lia.
Qed.

Lemma byte_at_slice_to (s : list byte) (q i : Z) :
  0 <= i < q -> utf8.byte_at (slice_to s q) i = utf8.byte_at s i.
Proof.
  intros H. unfold utf8.byte_at, slice_to. rewrite lookup_take_lt by lia. reflexivity.
Qed.

Lemma byte_at_slice_from (s : list byte) (p : Z) (b : byte) (t : list byte) :
  0 <= p -> slice_from s p = b :: t -> utf8.byte_at s p = u8 b.
Proof.
  intros Hp H. unfold utf8.byte_at, slice_from in *.
  rewrite <- (Nat.add_0_r (Z.to_nat p)), <- lookup_drop, H. reflexivity.
Qed.

Lemma splits_rune_false (text : list byte) (p d : Z) :
  StringCursor.splits_rune text p = false ->
  1 <= d <= 3 -> d <= p ->
  snd (utf8.DecodeRuneInString (slice_from text (p - d))) <= d.
Proof.
  unfold StringCursor.splits_rune. cbn [existsb]. rewrite !orb_false_iff, !andb_false_iff.
  rewrite !Z.leb_gt, !Z.ltb_ge. intros (H1 & H2 & H3 & _) Hd Hp.
  assert (d = 1 \/ d = 2 \/ d = 3) as [->|[->| ->]] by lia; lia.
Qed.

Lemma on_boundary_inv (text : list byte) (p : Z) :
  StringCursor.on_boundary text p = true ->
  0 <= p <= len text /\ StringCursor.splits_rune text p = false.
Proof.
  unfold StringCursor.on_boundary. rewrite !andb_true_iff, negb_true_iff, !Z.leb_le. tauto.
Qed.

Lemma StringCursor_Next_Previous (c : StringCursor.t) :
  StringCursor.on_boundary (StringCursor.text c) (StringCursor.position c) = true ->
  StringCursor.position c < len (StringCursor.text c) ->
  exists r c1, StringCursor.Next c = Ret (c1, (r, true)) /\
               StringCursor.Previous c1 = Ret (c, (r, true)).
Proof.
  destruct c as [text p]. cbn [StringCursor.text StringCursor.position].
  intros Hb Hlt. apply on_boundary_inv in Hb as [Hp Hs].
  unfold StringCursor.Next. cbn [StringCursor.text StringCursor.position].
  destruct (Z.leb_spec (len text) p); [lia|]. destruct (Z.ltb_spec p 0); [lia|].
  destruct (utf8.DecodeRuneInString (slice_from text p)) as [r k] eqn:E.
  pose proof (DecodeRuneInString_size _ _ _ (slice_from_nonempty text p ltac:(lia)) E) as [Hk Hk'].
  rewrite len_slice_from in Hk' by lia.
  exists r, {| StringCursor.text := text; StringCursor.position := p + k |}.
  split; [reflexivity|].
  unfold StringCursor.Previous. cbn [StringCursor.text StringCursor.position].
  destruct (Z.leb_spec (p + k) 0); [lia|]. destruct (Z.ltb_spec (len text) (p + k)); [lia|].
  assert (Hlast : utf8.DecodeLastRuneInString (slice_to text (p + k)) = (r, k)).
  2:{ rewrite Hlast. repeat f_equal. lia. }
  destruct (Z.eq_dec k 1) as [->|Hk1].
  - (* a single byte: ASCII or an error *)
    assert (Hne : slice_to text (p + 1) <> []).
    { intros Hnil. pose proof (len_slice_to text (p + 1) ltac:(lia)) as Hl.
      rewrite Hnil in Hl. change (len (@nil byte)) with 0 in Hl. lia. }
    destruct (utf8.DecodeLastRuneInString (slice_to text (p + 1))) as [r' k'] eqn:E'.
    pose proof (DecodeLastRuneInString_inv _ _ _ Hne E') as Hinv.
    rewrite len_slice_to in Hinv by lia.
    replace (p + 1 - 1) with p in Hinv by lia.
    rewrite byte_at_slice_to in Hinv by lia.
    destruct (slice_from text p) as [|b0 t] eqn:Ed.
    { exfalso. eapply slice_from_nonempty; [|exact Ed]. lia. }
    rewrite (byte_at_slice_from text p b0 t) in Hinv by (lia || assumption).
    apply DecodeRuneInString_inv in E. cbn [decodes_as] in E.
    assert (Hr : if u8 b0 <? 128 then r = u8 b0 else r = utf8.RuneError).
    { destruct E as [[_ E]|[_ [(? & ? & _ & ? & _)|[(? & ? & ? & _ & ? & _)|(? & ? & ? & ? & _ & ? & _)]]]];
        [assumption|lia..]. }
    destruct Hinv as [(-> & Hb & ->)|[(-> & Hb & ->)|(Hk2 & Hk3 & Hd)]].
    + destruct (Z.ltb_spec (u8 b0) 128); [subst; reflexivity|lia].
    + destruct (Z.ltb_spec (u8 b0) 128); [lia|subst; reflexivity].
    + exfalso. rewrite slice_to_slice_from in Hd by lia.
      apply DecodeRuneInString_of_take in Hd; [|lia].
      pose proof (splits_rune_false text p (k' - 1) Hs ltac:(lia) ltac:(lia)) as Hsp.
      replace (p - (k' - 1)) with (p + 1 - k') in Hsp by lia.
      rewrite Hd in Hsp. cbn [snd] in Hsp. lia.
  - (* a multi-byte rune *)
    rewrite <- (slice_to_from (slice_to text (p + k)) p).
    assert (Hpre : slice_to (slice_to text (p + k)) p = slice_to text p).
    { unfold slice_to. rewrite take_take. f_equal. lia. }
    apply DecodeLastRuneInString_multi; [lia| |].
    + rewrite len_slice_from; rewrite len_slice_to; lia.
    + rewrite slice_to_slice_from by lia.
      apply DecodeRuneInString_take; [lia|lia|assumption].
Qed.

Lemma StringCursor_Previous_Next (c : StringCursor.t) :
  StringCursor.on_boundary (StringCursor.text c) (StringCursor.position c) = true ->
  0 < StringCursor.position c ->
  exists r c1, StringCursor.Previous c = Ret (c1, (r, true)) /\
               StringCursor.Next c1 = Ret (c, (r, true)).
Proof.
  destruct c as [text p]. cbn [StringCursor.text StringCursor.position].
  intros Hb Hlt. apply on_boundary_inv in Hb as [Hp Hs].
  unfold StringCursor.Previous. cbn [StringCursor.text StringCursor.position].
  destruct (Z.leb_spec p 0); [lia|]. destruct (Z.ltb_spec (len text) p); [lia|].
  destruct (utf8.DecodeLastRuneInString (slice_to text p)) as [r k] eqn:E.
  assert (Hne : slice_to text p <> []).
  { intros Hnil. pose proof (len_slice_to text p ltac:(lia)) as Hl.
    rewrite Hnil in Hl. change (len (@nil byte)) with 0 in Hl. lia. }
  pose proof (DecodeLastRuneInString_inv _ _ _ Hne E) as Hinv.
  rewrite len_slice_to in Hinv by lia.
  rewrite byte_at_slice_to in Hinv by lia.
  exists r, {| StringCursor.text := text; StringCursor.position := p - k |}.
  split; [reflexivity|].
  unfold StringCursor.Next. cbn [StringCursor.text StringCursor.position].
  assert (Hfwd : 1 <= k <= p /\ utf8.DecodeRuneInString (slice_from text (p - k)) = (r, k)).
  2:{ destruct Hfwd as [Hk Hfwd]. destruct (Z.leb_spec (len text) (p - k)); [lia|].
      destruct (Z.ltb_spec (p - k) 0); [lia|]. rewrite Hfwd. repeat f_equal. lia. }
  destruct Hinv as [(-> & Hb & ->)|[(-> & Hb & ->)|(Hk2 & Hk3 & Hd)]].
  - split; [lia|].
    destruct (slice_from text (p - 1)) as [|b0 t] eqn:Ed.
    { exfalso. eapply slice_from_nonempty; [|exact Ed]. lia. }
    rewrite (byte_at_slice_from text (p - 1) b0 t) in * by (lia || assumption).
    pose proof (DecodeRuneInString_shape (b0 :: t)) as Hsh. cbn [decodes_as] in Hsh.
    destruct (utf8.DecodeRuneInString (b0 :: t)) as [r' k']. cbn [fst snd] in Hsh.
    destruct Hsh as [[-> Hr]|[? _]]; [|lia].
    destruct (Z.ltb_spec (u8 b0) 128); [subst; reflexivity|lia].
  - split; [lia|].
    pose proof (splits_rune_false text p 1 Hs ltac:(lia) ltac:(lia)) as Hsp.
    destruct (slice_from text (p - 1)) as [|b0 t] eqn:Ed.
    { exfalso. eapply slice_from_nonempty; [|exact Ed]. lia. }
    rewrite (byte_at_slice_from text (p - 1) b0 t) in * by (lia || assumption).
    pose proof (DecodeRuneInString_shape (b0 :: t)) as Hsh. cbn [decodes_as] in Hsh.
    destruct (utf8.DecodeRuneInString (b0 :: t)) as [r' k']. cbn [fst snd] in Hsh, Hsp.
    destruct Hsh as [[-> Hr]|[_ [(? & ? & _ & ? & _)|[(? & ? & ? & _ & ? & _)|(? & ? & ? & ? & _ & ? & _)]]]];
      try lia.
    destruct (Z.ltb_spec (u8 b0) 128); [lia|subst; reflexivity].
  - split; [lia|].
    rewrite slice_to_slice_from in Hd by lia.
    apply DecodeRuneInString_of_take in Hd; [assumption|lia].
Qed.


(** ** The positions that [Next] reaches are rune boundaries *)

Lemma on_boundary_start (text : list byte) : StringCursor.on_boundary text 0 = true.
Proof.
  unfold StringCursor.on_boundary, StringCursor.splits_rune. cbn [existsb].
  pose proof (len_nonneg text).
  destruct (Z.leb_spec 0 (len text)); [|lia]. reflexivity.
Qed.

Lemma splits_rune_intro (text : list byte) (p : Z) :
  (forall d, 1 <= d <= 3 -> d <= p ->
     snd (utf8.DecodeRuneInString (slice_from text (p - d))) <= d) ->
  StringCursor.splits_rune text p = false.
Proof.
  intros H. unfold StringCursor.splits_rune. cbn [existsb].
  rewrite !orb_false_iff, !andb_false_iff, !Z.leb_gt, !Z.ltb_ge.
  repeat split; try
    match goal with
    | |- ?d > p \/ _ => destruct (Z.le_gt_cases d p); [right; apply H; lia|left; lia]
    | |- p < ?d \/ _ => destruct (Z.le_gt_cases d p); [right; apply H; lia|left; lia]
    end.
Qed.

Lemma on_boundary_end (text : list byte) :
  StringCursor.on_boundary text (len text) = true.
Proof.
  unfold StringCursor.on_boundary. pose proof (len_nonneg text) as Hlen.
  destruct (Z.leb_spec 0 (len text)); [|lia]. rewrite Z.leb_refl. cbn [andb].
  apply negb_true_iff, splits_rune_intro. intros d Hd Hdp.
  destruct (utf8.DecodeRuneInString (slice_from text (len text - d))) as [r k] eqn:E.
  pose proof (DecodeRuneInString_size _ _ _
    (slice_from_nonempty text (len text - d) ltac:(lia)) E) as [_ Hk].
  rewrite len_slice_from in Hk by lia. cbn. lia.
Qed.

Lemma slice_from_succ {A : Type} (l : list A) (i : Z) (a : A) (t : list A) :
  0 <= i -> slice_from l i = a :: t -> slice_from l (i + 1) = t.
Proof.
  unfold slice_from. intros Hi H.
  replace (Z.to_nat (i + 1)) with (Z.to_nat i + 1)%nat by lia.
  rewrite <- drop_drop, H. reflexivity.
Qed.

Lemma DecodeRuneInString_cont (b : byte) (t : list byte) :
  cont b -> snd (utf8.DecodeRuneInString (b :: t)) = 1.
Proof.
  unfold cont. intros Hb. pose proof (DecodeRuneInString_shape (b :: t)) as H.
  cbn [decodes_as] in H. destruct H as [[-> _]|[H _]]; [reflexivity|lia].
Qed.

Lemma on_boundary_Next (c c1 : StringCursor.t) (r : rune) :
  StringCursor.on_boundary (StringCursor.text c) (StringCursor.position c) = true ->
  StringCursor.Next c = Ret (c1, (r, true)) ->
  StringCursor.on_boundary (StringCursor.text c1) (StringCursor.position c1) = true.
Proof.
  destruct c as [text p]. cbn [StringCursor.text StringCursor.position].
  intros Hb. apply on_boundary_inv in Hb as [Hp Hs].
  unfold StringCursor.Next. cbn [StringCursor.text StringCursor.position].
  destruct (Z.leb_spec (len text) p); [discriminate|]. destruct (Z.ltb_spec p 0); [lia|].
  destruct (utf8.DecodeRuneInString (slice_from text p)) as [r0 k] eqn:E.
  intros [= <- <-]. cbn [StringCursor.text StringCursor.position].
  pose proof (DecodeRuneInString_size _ _ _ (slice_from_nonempty text p ltac:(lia)) E) as [Hk Hk'].
  rewrite len_slice_from in Hk' by lia.
  unfold StringCursor.on_boundary.
  destruct (Z.leb_spec 0 (p + k)); [|lia]. destruct (Z.leb_spec (p + k) (len text)); [|lia].
  cbn [andb]. apply negb_true_iff. apply splits_rune_intro. intros d Hd Hdp.
  destruct (Z.lt_trichotomy d k) as [Hlt|[->|Hgt]].
  - (* inside the rune just read: a continuation byte *)
    pose proof (DecodeRuneInString_inv _ _ _ E) as Hinv.
    destruct (slice_from text p) as [|b0 t0] eqn:Ed; [cbn in Hinv; lia|].
    cbn [decodes_as] in Hinv.
    destruct Hinv as [[-> _]|[_ [(b1 & t1 & -> & -> & C1 & _)|
      [(b1 & b2 & t2 & -> & -> & C1 & C2 & _)|
       (b1 & b2 & b3 & t3 & -> & -> & C1 & C2 & C3 & _)]]]]; [lia| | |].
    + assert (d = 1) as -> by lia. replace (p + 2 - 1) with (p + 1) by lia.
      rewrite (slice_from_succ text p _ _ ltac:(lia) Ed), DecodeRuneInString_cont by assumption. lia.
    + pose proof (slice_from_succ text p _ _ ltac:(lia) Ed) as E1.
      pose proof (slice_from_succ text (p + 1) _ _ ltac:(lia) E1) as E2.
      assert (d = 1 \/ d = 2) as [-> | ->] by lia.
      * replace (p + 3 - 1) with (p + 1 + 1) by lia.
        rewrite E2, DecodeRuneInString_cont by assumption. lia.
      * replace (p + 3 - 2) with (p + 1) by lia.
        rewrite E1, DecodeRuneInString_cont by assumption. lia.
    + pose proof (slice_from_succ text p _ _ ltac:(lia) Ed) as E1.
      pose proof (slice_from_succ text (p + 1) _ _ ltac:(lia) E1) as E2.
      pose proof (slice_from_succ text (p + 1 + 1) _ _ ltac:(lia) E2) as E3.
      assert (d = 1 \/ d = 2 \/ d = 3) as [-> |[-> | ->]] by lia.
      * replace (p + 4 - 1) with (p + 1 + 1 + 1) by lia.
        rewrite E3, DecodeRuneInString_cont by assumption. lia.
      * replace (p + 4 - 2) with (p + 1 + 1) by lia.
        rewrite E2, DecodeRuneInString_cont by assumption. lia.
      * replace (p + 4 - 3) with (p + 1) by lia.
        rewrite E1, DecodeRuneInString_cont by assumption. lia.
  - replace (p + k - k) with p by lia. rewrite E. cbn. lia.
  - pose proof (splits_rune_false text p (d - k) Hs ltac:(lia) ltac:(lia)) as H'.
    replace (p + k - d) with (p - (d - k)) by lia. lia.
Qed.

(** C9. For a [StringCursor] whose position is on a rune boundary: when it is
    not at the end of the text, [Next] followed by [Previous] yields the same
    code point twice and gives back the cursor it started from; when it is
    not at the start, [Previous] followed by [Next] does so as well. *)
Theorem StringCursor_round_trip (c : StringCursor.t) :
  StringCursor.on_boundary (StringCursor.text c) (StringCursor.position c) = true ->
  (StringCursor.position c < len (StringCursor.text c) ->
   exists r c1, Next c = Ret (c1, (r, true)) /\ Previous c1 = Ret (c, (r, true))) /\
  (0 < StringCursor.position c ->
   exists r c1, Previous c = Ret (c1, (r, true)) /\ Next c1 = Ret (c, (r, true))).
Proof.
  intros H. split; intros Hp.
  - apply StringCursor_Next_Previous; assumption.
  - apply StringCursor_Previous_Next; assumption.
Qed.

Lemma StringCursor_round_trip_witness :
  StringCursor.on_boundary euro 1 = true /\
  1 < len euro /\ 0 < 1 /\
  (exists r c1, Next (StringCursor.mk euro 1) = Ret (c1, (r, true)) /\
                Previous c1 = Ret (StringCursor.mk euro 1, (r, true))) /\
  (exists r c1, Previous (StringCursor.mk euro 1) = Ret (c1, (r, true)) /\
                Next c1 = Ret (StringCursor.mk euro 1, (r, true))).
Proof.
  assert (Hb : StringCursor.on_boundary euro 1 = true) by reflexivity.
  assert (Hlt : 1 < len euro) by (vm_compute; reflexivity).
  assert (Hgt : 0 < 1) by lia.
  destruct (StringCursor_round_trip (StringCursor.mk euro 1) Hb) as [H1 H2].
  split; [exact Hb|]. split; [exact Hlt|]. split; [exact Hgt|].
  split; [exact (H1 Hlt)|exact (H2 Hgt)].
Defined.

(** C5, as the specification words it, fails: position 1 of [é] lies between
    the two bytes of a rune and [SetPosition] accepts it. *)
Lemma SetPosition_accepts_mid_rune : ~ SetPosition_as_specified.
Proof.
  intros H. specialize (H (StringCursor.NewStringCursor e_acute) 1).
  cbv zeta in H. destruct H as [H _]. apply H; [|reflexivity].
  right. right. reflexivity.
Qed.

(** C5, amended. [SetPosition] fails exactly when the position is negative
    or beyond the end of the text, and makes no check of rune boundaries; the
    end of the text is accepted; on success the position of the cursor is the
    one given and on failure the cursor is unchanged. *)
Theorem SetPosition_range_only (c : StringCursor.t) (p : Z) :
  let text := StringCursor.text c in
  (snd (SetPosition c p) <> None <-> (p < 0 \/ len text < p)) /\
  (p = len text -> snd (SetPosition c p) = None) /\
  (snd (SetPosition c p) = None ->
   fst (SetPosition c p) = StringCursor.mk text p) /\
  (snd (SetPosition c p) <> None -> fst (SetPosition c p) = c).
Proof.
  cbv zeta. cbn [SetPosition StringCursor_Cursor]. unfold StringCursor.SetPosition.
  pose proof (len_nonneg (StringCursor.text c)).
  destruct (Z.ltb_spec p 0); [|destruct (Z.ltb_spec (len (StringCursor.text c)) p)];
    cbn [fst snd]; repeat split; intros; try reflexivity; try congruence; try lia.
Qed.

(** ** The code point trie *)

Lemma fastIndex_negative (t : ucpTrie.t) (codePoint : rune) :
  codePoint < 0 -> ucpTrie.fastIndex t codePoint = Panic.
Proof.
  intros H. unfold ucpTrie.fastIndex.
  rewrite slice_index_neg; [reflexivity|].
  apply Z.shiftr_neg. assumption.
Qed.

(** A negative code point takes the one-level path, since the comparison with
    [fastMax] is signed, and the index expression panics. *)
Lemma fastGet_negative (t : ucpTrie.t) (codePoint : rune) :
  codePoint < 0 -> ucpTrie.fastGet t codePoint = Panic.
Proof.
  intros H. unfold ucpTrie.fastGet, ucpTrie.codePointIndex.
  destruct (Z.leb_spec codePoint 0xffff); [|lia].
  rewrite fastIndex_negative by assumption. reflexivity.
Qed.

(** Above [0x10FFFF] the lookup reads the error value at [dataLength - 1]. *)
Lemma fastGet_above_range (t : ucpTrie.t) (codePoint : rune) :
  0x10ffff < codePoint ->
  ucpTrie.fastGet t codePoint = ucpTrie.readData t (ucpTrie.dataLength t - 1).
Proof.
  intros H. unfold ucpTrie.fastGet, ucpTrie.codePointIndex.
  destruct (Z.leb_spec codePoint 0xffff); [lia|].
  destruct (Z.leb_spec codePoint 0x10ffff); [lia|]. reflexivity.
Qed.

(** C4: on the code point [-1], a well-formed [int32], [fastGet] panics for
    every trie: it does not return the error value. *)
Theorem fastGet_minus_one_panics (t : ucpTrie.t) :
  ucpTrie.fastGet t (-1) = Panic.
Proof. apply fastGet_negative. lia. Qed.

(** C8, as the specification words it, fails: for the small trie
    [small_trie] and the code point [0x1000], above the limit of a small
    trie, [fastGet] reads the data through the one-level index and not
    through the multi-level path. *)
Lemma fastGet_small_trie_one_level :
  ucpTrie.fastGet small_trie 0x1000 = Ret 7 /\
  ucpTrie.get_as_specified small_trie 0x1000 = Ret 9 /\
  ucpTrie.fastGet small_trie 0x1000 <> ucpTrie.get_as_specified small_trie 0x1000.
Proof. split; [reflexivity|]. split; [reflexivity|]. discriminate. Qed.

(** C8, amended. [fastGet] takes the one-level path exactly for the code
    points up to [0xFFFF], whatever the type of the trie, so that the result
    there does not depend on the type; a code point from [0x10000] to
    [0x10FFFF] below [highStart] is resolved by the multi-level path of
    [internalSmallIndex]. *)
Theorem fastGet_paths (t : ucpTrie.t) (codePoint : rune) :
  (codePoint <= 0xffff ->
   ucpTrie.codePointIndex t 0xffff codePoint = ucpTrie.fastIndex t codePoint /\
   ucpTrie.fastGet t codePoint = ucpTrie.fastIndex t codePoint ≫= ucpTrie.readData t /\
   forall ty, ucpTrie.fastGet (ucpTrie.with_trieType t ty) codePoint
              = ucpTrie.fastGet t codePoint) /\
  (0xffff < codePoint <= 0x10ffff -> codePoint < ucpTrie.highStart t ->
   ucpTrie.codePointIndex t 0xffff codePoint = ucpTrie.internalSmallIndex t codePoint /\
   ucpTrie.fastGet t codePoint
   = ucpTrie.internalSmallIndex t codePoint ≫= ucpTrie.readData t).
Proof.
  split.
  - intros H. unfold ucpTrie.fastGet, ucpTrie.codePointIndex.
    destruct (Z.leb_spec codePoint 0xffff); [|lia].
    split; [reflexivity|]. split; [reflexivity|]. intros ty. reflexivity.
  - intros H Hh. unfold ucpTrie.fastGet, ucpTrie.codePointIndex, ucpTrie.smallIndex.
    destruct (Z.leb_spec codePoint 0xffff); [lia|].
    destruct (Z.leb_spec codePoint 0x10ffff); [|lia].
    destruct (Z.leb_spec (ucpTrie.highStart t) codePoint); [lia|].
    split; reflexivity.
Qed.

Lemma fastGet_paths_witness :
  (0x62 <= 0xffff /\
   ucpTrie.fastGet ascii_trie 0x62 = ucpTrie.fastIndex ascii_trie 0x62 ≫= ucpTrie.readData ascii_trie /\
   ucpTrie.fastGet ascii_trie 0x62 = Ret 4) /\
  (0xffff < 0x10000 <= 0x10ffff /\ 0x10000 < ucpTrie.highStart supplementary_trie /\
   ucpTrie.fastGet supplementary_trie 0x10000
   = ucpTrie.internalSmallIndex supplementary_trie 0x10000 ≫= ucpTrie.readData supplementary_trie /\
   ucpTrie.fastGet supplementary_trie 0x10000 = Ret 9).
Proof.
  assert (H1 : 0x62 <= 0xffff) by lia.
  assert (H2 : 0xffff < 0x10000 <= 0x10ffff) by lia.
  assert (H3 : 0x10000 < ucpTrie.highStart supplementary_trie) by (vm_compute; reflexivity).
  split.
  - split; [exact H1|]. split; [|reflexivity].
    apply (proj1 (fastGet_paths ascii_trie 0x62) H1).
  - split; [exact H2|]. split; [exact H3|]. split; [|reflexivity].
    apply (proj2 (fastGet_paths supplementary_trie 0x10000) H2 H3).
Defined.

(** ** Steps of a [StringCursor] *)

Lemma StringCursor_Next_end (c : StringCursor.t) :
  len (StringCursor.text c) <= StringCursor.position c ->
  StringCursor.Next c = Ret (c, (-1, false)).
Proof.
  intros H. unfold StringCursor.Next.
  destruct (Z.leb_spec (len (StringCursor.text c)) (StringCursor.position c)); [reflexivity|lia].
Qed.

Lemma StringCursor_Next_step (text : list byte) (p : Z) :
  0 <= p < len text ->
  exists r size, 1 <= size <= len text - p /\
    StringCursor.Next (StringCursor.mk text p) = Ret (StringCursor.mk text (p + size), (r, true)).
Proof.
  intros H. unfold StringCursor.Next. cbn [StringCursor.text StringCursor.position].
  destruct (Z.leb_spec (len text) p); [lia|]. destruct (Z.ltb_spec p 0); [lia|].
  destruct (utf8.DecodeRuneInString (slice_from text p)) as [r k] eqn:E.
  pose proof (DecodeRuneInString_size _ _ _ (slice_from_nonempty text p ltac:(lia)) E) as [Hk Hk'].
  rewrite len_slice_from in Hk' by lia.
  exists r, k. split; [lia|reflexivity].
Qed.

Lemma StringCursor_Previous_start (c : StringCursor.t) :
  StringCursor.position c <= 0 ->
  StringCursor.Previous c = Ret (c, (-1, false)).
Proof.
  intros H. unfold StringCursor.Previous.
  destruct (Z.leb_spec (StringCursor.position c) 0); [reflexivity|lia].
Qed.

Lemma StringCursor_Previous_step (text : list byte) (p : Z) :
  0 < p <= len text ->
  exists r size, 1 <= size <= p /\
    StringCursor.Previous (StringCursor.mk text p)
    = Ret (StringCursor.mk text (p - size), (r, true)).
Proof.
  intros H. unfold StringCursor.Previous. cbn [StringCursor.text StringCursor.position].
  destruct (Z.leb_spec p 0); [lia|]. destruct (Z.ltb_spec (len text) p); [lia|].
  destruct (utf8.DecodeLastRuneInString (slice_to text p)) as [r k] eqn:E.
  assert (Hne : slice_to text p <> []).
  { intros Hnil. pose proof (len_slice_to text p ltac:(lia)) as Hl.
    rewrite Hnil in Hl. change (len (@nil byte)) with 0 in Hl. lia. }
  pose proof (DecodeLastRuneInString_inv _ _ _ Hne E) as Hinv.
  rewrite len_slice_to in Hinv by lia.
  exists r, k. split; [|reflexivity].
  destruct Hinv as [(-> & _)|[(-> & _)|(Hk2 & Hk3 & _)]]; lia.
Qed.

Lemma StringCursor_SetPosition_ok (c : StringCursor.t) (p : Z) :
  0 <= p <= len (StringCursor.text c) ->
  StringCursor.SetPosition c p = (StringCursor.mk (StringCursor.text c) p, None).
Proof.
  intros H. unfold StringCursor.SetPosition.
  destruct (Z.ltb_spec p 0); [lia|].
  destruct (Z.ltb_spec (len (StringCursor.text c)) p); [lia|]. reflexivity.
Qed.

(** ** Loop-free code does not run out of fuel *)

Lemma slice_index_no_Timeout {A : Type} (l : list A) (i : Z) : slice_index l i <> Timeout.
Proof. unfold slice_index. destruct (i <? 0); [discriminate|]. destruct (l !! _); discriminate. Qed.

Lemma store_no_Timeout {A : Type} (l : list A) (i : Z) (v : A) : store l i v <> Timeout.
Proof. unfold store. destruct (_ || _); discriminate. Qed.

Lemma bind_no_Timeout {A B : Type} (m : outcome A) (k : A -> outcome B) :
  m <> Timeout -> (forall a, k a <> Timeout) -> m ≫= k <> Timeout.
Proof. intros Hm Hk. destruct m; cbn; [apply Hk|discriminate|congruence]. Qed.

Ltac no_timeout :=
  repeat first
    [ apply bind_no_Timeout; [|intros ?]
    | apply slice_index_no_Timeout
    | apply store_no_Timeout
    | discriminate
    | match goal with
      | |- (if ?b then _ else _) <> Timeout => destruct b
      | |- (let '(_, _) := ?p in _) <> Timeout => destruct p
      | |- (match ?p with _ => _ end) <> Timeout => destruct p
      end ].

Lemma fastGet_no_Timeout (t : ucpTrie.t) (codePoint : rune) :
  ucpTrie.fastGet t codePoint <> Timeout.
Proof.
  unfold ucpTrie.fastGet, ucpTrie.codePointIndex, ucpTrie.smallIndex,
    ucpTrie.internalSmallIndex, ucpTrie.fastIndex, ucpTrie.readData.
  cbv zeta. no_timeout.
Qed.

(** ** [safePrevious] *)

Lemma safePrevious_loop_StringCursor (d : rbbiData) (text : list byte) :
  forall (fuel : nat) (p : Z) (c : rune) (ok : bool) (state : Z) (row : rbbiStateTableRow),
    0 <= p <= len text ->
    (ok = false -> p = 0) ->
    match RBBI.safePrevious_loop fuel d (StringCursor.mk text p) c ok state row with
    | Ret (cur, state') =>
      exists q, cur = StringCursor.mk text q /\ 0 <= q <= p /\
                (ok = true -> state' <> rbbiStateStop -> q = 0)
    | Panic => True
    | Timeout => ok = true /\ (fuel <= Z.to_nat p)%nat
    end.
Proof.
  induction fuel as [|fuel IH]; intros p c ok state row Hp H0.
  - destruct ok; [cbn; split; [reflexivity|lia]|].
    cbn. exists p. split; [reflexivity|]. split; [lia|]. discriminate.
  - destruct ok.
    2:{ cbn. exists p. split; [reflexivity|]. split; [lia|]. discriminate. }
    cbn [RBBI.safePrevious_loop negb].
    pose proof (fastGet_no_Timeout (trie d) c) as Hf.
    destruct (ucpTrie.fastGet (trie d) c) as [category| |]; cbn [mbind outcome_bind];
      [|exact I|congruence].
    destruct (categoryCount d <=? category); [exact I|].
    pose proof (slice_index_no_Timeout (nextStates row) category) as Hn.
    destruct (slice_index (nextStates row) category) as [e| |]; cbn [mbind outcome_bind];
      [|exact I|congruence].
    pose proof (slice_index_no_Timeout (rows (reverseTable d)) (u8 e)) as Hr.
    destruct (slice_index (rows (reverseTable d)) (u8 e)) as [row'| |];
      cbn [mbind outcome_bind]; [|exact I|congruence].
    destruct (Z.eqb_spec (u8 e) rbbiStateStop) as [Hstop|Hstop].
    { exists p. split; [reflexivity|]. split; [lia|]. intros _ Hs. congruence. }
    cbn [Previous StringCursor_Cursor].
    destruct (Z.eq_dec p 0) as [->|Hp0].
    + rewrite StringCursor_Previous_start by (cbn; lia). cbn [mbind outcome_bind].
      specialize (IH 0 (-1) false (u8 e) row' ltac:(lia) ltac:(reflexivity)).
      destruct (RBBI.safePrevious_loop fuel d _ _ false _ _) as [[cur st]| |]; auto.
      * destruct IH as (q & -> & Hq & _). exists q. split; [reflexivity|].
        split; [lia|]. intros _ _. lia.
      * destruct IH as [IH _]. discriminate IH.
    + destruct (StringCursor_Previous_step text p ltac:(lia)) as (r0 & size & Hsize & ->).
      cbn [mbind outcome_bind].
      specialize (IH (p - size) r0 true (u8 e) row' ltac:(lia) ltac:(discriminate)).
      destruct (RBBI.safePrevious_loop fuel d _ _ true _ _) as [[cur st]| |]; auto.
      * destruct IH as (q & -> & Hq & Hs). exists q. split; [reflexivity|].
        split; [lia|]. intros _. apply Hs. reflexivity.
      * destruct IH as [_ IH]. split; [reflexivity|lia].
Qed.

Ltac absurd_outcome :=
  match goal with
  | H : Panic = Ret _ |- _ => discriminate H
  | H : Timeout = Ret _ |- _ => discriminate H
  | H : Ret _ = Panic |- _ => discriminate H
  | H : Ret _ = Timeout |- _ => discriminate H
  end.

(** C10. For an engine whose cursor is a [StringCursor] and a [fromPosition]
    within the text, with fuel for the loop: [safePrevious] returns
    [ok = false] when [fromPosition] is the start of the text, where the first
    [cursor.Previous()] fails; at every other [fromPosition] that first call
    succeeds and [safePrevious], unless an assertion or a bounds check panics,
    returns [ok = true] together with the position at which it leaves the
    cursor; when the loop ends with a state other than the stop state, the
    scan has run off the start of the text and the position returned is the
    start of the text. *)
Theorem safePrevious_result (fuel : nat) (r : RBBI.t) (text : list byte) (p fromPosition : Z) :
  RBBI.cursor r = Some (StringCursor.mk text p) ->
  0 <= fromPosition <= len text ->
  (Z.to_nat fromPosition <= fuel)%nat ->
  (fromPosition = 0 ->
   RBBI.safePrevious fuel r fromPosition = Ret (seek r text 0, (-1, false))) /\
  (0 < fromPosition ->
   (exists cur1 c, Previous (StringCursor.mk text fromPosition) = Ret (cur1, (c, true))) /\
   (RBBI.safePrevious fuel r fromPosition = Panic \/
    exists q, 0 <= q < fromPosition /\
      RBBI.safePrevious fuel r fromPosition = Ret (seek r text q, (q, true))) /\
   (forall cur1 c row cur' state',
      Previous (StringCursor.mk text fromPosition) = Ret (cur1, (c, true)) ->
      slice_index (rows (reverseTable (RBBI.data r))) rbbiStateStart = Ret row ->
      RBBI.safePrevious_loop fuel (RBBI.data r) cur1 c true rbbiStateStart row
      = Ret (cur', state') ->
      state' <> rbbiStateStop ->
      RBBI.safePrevious fuel r fromPosition = Ret (seek r text 0, (0, true)))).
Proof.
  intros Hcur Hfrom Hfuel.
  assert (Hset : fst (SetPosition (StringCursor.mk text p) fromPosition)
                 = StringCursor.mk text fromPosition).
  { cbn [SetPosition StringCursor_Cursor]. rewrite StringCursor_SetPosition_ok by (cbn; lia).
    reflexivity. }
  split.
  - intros ->. unfold RBBI.safePrevious. rewrite Hcur, Hset.
    cbn [Previous StringCursor_Cursor].
    rewrite StringCursor_Previous_start by (cbn; lia). reflexivity.
  - intros Hpos.
    destruct (StringCursor_Previous_step text fromPosition ltac:(lia)) as (c & size & Hsize & HP).
    cbn [Previous StringCursor_Cursor].
    split; [eauto|].
    unfold RBBI.safePrevious. rewrite Hcur, Hset.
    cbn [Previous StringCursor_Cursor]. rewrite HP. cbn [mbind outcome_bind negb].
    pose proof (slice_index_no_Timeout (rows (reverseTable (RBBI.data r))) rbbiStateStart) as Hr.
    destruct (slice_index (rows (reverseTable (RBBI.data r))) rbbiStateStart) as [row| |];
      cbn [mbind outcome_bind]; [|split; [auto|intros; absurd_outcome]|congruence].
    pose proof (safePrevious_loop_StringCursor (RBBI.data r) text fuel (fromPosition - size) c
      true rbbiStateStart row ltac:(lia) ltac:(discriminate)) as Hloop.
    destruct (RBBI.safePrevious_loop fuel (RBBI.data r) _ c true _ row) as [[cur st]| |] eqn:El;
      cbn [mbind outcome_bind]; [| |lia].
    + destruct Hloop as (q & -> & Hq & Hs). split.
      * right. exists q. split; [lia|]. reflexivity.
      * intros cur1 c1 row1 cur' state' [= <- <-] [= <-] Hl Hst.
        rewrite El in Hl. injection Hl as <- <-.
        rewrite (Hs eq_refl Hst). reflexivity.
    + split; [auto|].
      intros cur1 c1 row1 cur' state' [= <- <-] [= <-] Hl Hst.
      rewrite El in Hl. discriminate Hl.
Qed.

Lemma safePrevious_result_witness :
  RBBI.cursor (engine_at stop_data text_abc 1) = Some (StringCursor.mk text_abc 1) /\
  (0 <= 0 <= len text_abc /\ (Z.to_nat 0 <= 3)%nat /\
   RBBI.safePrevious 3 (engine_at stop_data text_abc 1) 0
   = Ret (seek (engine_at stop_data text_abc 1) text_abc 0, (-1, false))) /\
  (0 <= 3 <= len text_abc /\ (Z.to_nat 3 <= 3)%nat /\ 0 < 3 /\
   RBBI.safePrevious 3 (engine_at stop_data text_abc 1) 3
   = Ret (seek (engine_at stop_data text_abc 1) text_abc 0, (0, true))).
Proof.
  assert (Ha : 0 <= 0 <= len text_abc) by (vm_compute; split; discriminate).
  assert (Hb : (Z.to_nat 0 <= 3)%nat) by (vm_compute; lia).
  assert (H0 : 0 <= 3 <= len text_abc) by (vm_compute; split; discriminate).
  assert (H1 : (Z.to_nat 3 <= 3)%nat) by (vm_compute; lia).
  assert (H2 : 0 < 3) by lia.
  split; [reflexivity|]. split.
  - split; [exact Ha|]. split; [exact Hb|].
    exact (proj1 (safePrevious_result 3 (engine_at stop_data text_abc 1) text_abc 1 0
      eq_refl Ha Hb) eq_refl).
  - split; [exact H0|]. split; [exact H1|]. split; [exact H2|].
    destruct (safePrevious_result 3 (engine_at stop_data text_abc 1) text_abc 1 3
      eq_refl H0 H1) as [_ H].
    destruct (H H2) as (_ & _ & Hrun).
    eapply Hrun; [reflexivity|reflexivity|reflexivity|discriminate].
Defined.

(** ** [Next], for every implementation of [Cursor] *)

Section Next_facts.

Context {C : Type} `{Cursor C}.



(** C6. When the loop of [Next] ends at a [break] with [result] still equal
    to the entry position, [Next] puts the cursor back to the entry position
    and calls [cursor.Next()] once; if that call fails, [Next] returns
    [ok = false]; otherwise it returns the position of the cursor after that
    one code point, leaves the cursor there, and [ruleStatusIndex] is 0. *)
Theorem Next_failed_to_advance (fuel : nat) (r : RBBI.t) (cur0 cur : C) (c : rune)
  (row : rbbiStateTableRow) (s : RBBI.scan) (cur' : C) (c' : rune) (ok : bool) :
  RBBI.cursor r = Some cur0 ->
  Next cur0 = Ret (cur, (c, true)) ->
  slice_index (rows (forwardTable (RBBI.data r))) rbbiStateStart = Ret row ->
  RBBI.Next_loop fuel (RBBI.data r) (RBBI.Next_init r cur (Position cur0) c row)
  = Ret (RBBI.Break s) ->
  RBBI.s_result s = Position cur0 ->
  Next (fst (SetPosition (RBBI.s_cursor s) (Position cur0))) = Ret (cur', (c', ok)) ->
  RBBI.Next fuel r =
  if ok then
    Ret ({| RBBI.data := RBBI.data r;
            RBBI.lookaheadMatches := RBBI.s_lookaheadMatches s;
            RBBI.ruleStatusIndex := 0;
            RBBI.cursor := Some (fst (SetPosition cur' (Position cur'))) |},
         (Position cur', true))
  else
    Ret ({| RBBI.data := RBBI.data r;
            RBBI.lookaheadMatches := RBBI.s_lookaheadMatches s;
            RBBI.ruleStatusIndex := RBBI.s_ruleStatusIndex s;
            RBBI.cursor := Some cur' |},
         (-1, false)).
Proof.
  intros Hcur Hnext Hrow Hloop Hres Hone.
  unfold RBBI.Next. rewrite Hcur, Hnext. cbn [mbind outcome_bind negb].
  rewrite Hrow. cbn [mbind outcome_bind]. rewrite Hloop. cbn [mbind outcome_bind].
  unfold RBBI.Next_finish. rewrite Hres, Z.eqb_refl, Hone. cbn [mbind outcome_bind].
  destruct ok; reflexivity.
Qed.

End Next_facts.

Lemma Next_failed_to_advance_witness :
  RBBI.Next 3 (engine_at stop_data text_abc 1)
  = Ret ({| RBBI.data := stop_data; RBBI.lookaheadMatches := [];
            RBBI.ruleStatusIndex := 0;
            RBBI.cursor := Some (StringCursor.mk text_abc 2) |}, (2, true)).
Proof.
  exact (Next_failed_to_advance 3 (engine_at stop_data text_abc 1)
    (StringCursor.mk text_abc 1) (StringCursor.mk text_abc 2) 0x62
    (mkRow x00 x00 x00 [x00; x00; x00; x00; x00]%byte) _ 
    (StringCursor.mk text_abc 2) 0x62 true eq_refl eq_refl eq_refl eq_refl eq_refl eq_refl).
Defined.

(** ** The slots of [lookaheadMatches] *)

(** A new engine for [lookahead_data] over the text [b], with the cursor at
    the start: the first row entered completes the lookahead rule 2, the slot
    of the rule holds the 0 that [make] put there, and [Next] returns
    [(0, true)] with the cursor at 0, whatever the fuel. *)
Lemma Next_new_engine_no_progress (fuel : nat) :
  RBBI.Next (S fuel) (engine_at lookahead_data text_b 0)
  = Ret ({| RBBI.data := lookahead_data; RBBI.lookaheadMatches := [0; 0; 0];
            RBBI.ruleStatusIndex := 7;
            RBBI.cursor := Some (StringCursor.mk text_b 0) |}, (0, true)).
Proof. reflexivity. Qed.

(** On the text [ab], the first call of [Next] on a new engine for
    [lookahead_data] saves position 1 for the rule 2 and returns 1; the second
    call enters the row that completes the rule, finds the position saved by
    the first call, and returns 1 again. *)
Lemma Next_keeps_lookaheadMatches (fuel : nat) :
  RBBI.lookaheadMatches (RBBI.newRBBI (C := StringCursor.t) lookahead_data) = [0; 0; 0] /\
  (forall (r : RBBI.t) (cur : StringCursor.t) (p : Z) (c : rune) (row : rbbiStateTableRow),
     RBBI.s_lookaheadMatches (RBBI.Next_init r cur p c row) = RBBI.lookaheadMatches r) /\
  RBBI.Next (S (S fuel)) (engine_at lookahead_data text_ab 0)
  = Ret ({| RBBI.data := lookahead_data; RBBI.lookaheadMatches := [0; 0; 1];
            RBBI.ruleStatusIndex := 5;
            RBBI.cursor := Some (StringCursor.mk text_ab 1) |}, (1, true)) /\
  RBBI.Next (S fuel)
    {| RBBI.data := lookahead_data; RBBI.lookaheadMatches := [0; 0; 1];
       RBBI.ruleStatusIndex := 5;
       RBBI.cursor := Some (StringCursor.mk text_ab 1) |}
  = Ret ({| RBBI.data := lookahead_data; RBBI.lookaheadMatches := [0; 0; 1];
            RBBI.ruleStatusIndex := 7;
            RBBI.cursor := Some (StringCursor.mk text_ab 1) |}, (1, true)).
Proof. repeat split. Qed.

(** ** [Next] over a [StringCursor], for any table *)

Lemma slice_index_lookup {A : Type} (l : list A) (i : Z) (a : A) :
  slice_index l i = Ret a -> l !! Z.to_nat i = Some a.
Proof.
  unfold slice_index. destruct (i <? 0); [discriminate|].
  destruct (l !! Z.to_nat i); [|discriminate]. intros [= ->]. reflexivity.
Qed.

Lemma rbbiRunMode_eqb_eq (a b : rbbiRunMode) : rbbiRunMode_eqb a b = true <-> a = b.
Proof. destruct a, b; cbn; split; congruence. Qed.

Section Next_general.

Variables (d : rbbiData) (lam : list Z) (text : list byte).

Local Abbreviation eng := (string_engine d lam text).
Local Abbreviation inv := (scan_inv_general lam text).

Lemma slots_inv_refl (p0 : Z) : slots_inv lam text p0 lam.
Proof. split; [reflexivity|]. auto. Qed.

Lemma slots_inv_store (p0 pc i : Z) (m m' : list Z) :
  slots_inv lam text p0 m -> p0 < pc <= len text ->
  store m i pc = Ret m' -> slots_inv lam text p0 m'.
Proof.
  intros [Hlen Hm] Hpc. unfold store.
  destruct (_ || _); [discriminate|]. intros [= <-]. split.
  - rewrite length_insert. exact Hlen.
  - intros j v Hj. destruct (decide (Z.to_nat i = j)) as [<-|Hne].
    + apply list_lookup_insert_Some in Hj as [(_ & <- & _)|[Hc _]]; [right; lia|congruence].
    + rewrite list_lookup_insert_ne in Hj by assumption. apply Hm in Hj. exact Hj.
Qed.

(** The transition keeps the cursor, the result and the slots; it turns the
    mode to the end of input when the cursor has no rune left. *)
Lemma Next_transition_general (s s1 : RBBI.scan (C := StringCursor.t)) :
  RBBI.Next_transition d s = Ret s1 ->
  RBBI.s_cursor s1 = RBBI.s_cursor s /\
  RBBI.s_result s1 = RBBI.s_result s /\
  RBBI.s_lookaheadMatches s1 = RBBI.s_lookaheadMatches s /\
  RBBI.s_nextOk s1 = RBBI.s_nextOk s /\
  RBBI.s_mode s1 = (if RBBI.s_nextOk s then RBBI.s_mode s else rbbiRunModeEnd).
Proof.
  unfold RBBI.Next_transition. cbv zeta.
  intros Ht. apply bind_Ret in Ht as (s2 & Hs2 & Ht).
  assert (H2 : RBBI.s_cursor s2 = RBBI.s_cursor s /\
               RBBI.s_result s2 = RBBI.s_result s /\
               RBBI.s_lookaheadMatches s2 = RBBI.s_lookaheadMatches s /\
               RBBI.s_nextOk s2 = RBBI.s_nextOk s /\
               RBBI.s_mode s2 = (if RBBI.s_nextOk s then RBBI.s_mode s else rbbiRunModeEnd)).
  { destruct (RBBI.s_nextOk s) eqn:Eok; cbn [negb] in Hs2;
      (destruct (rbbiRunMode_eqb _ rbbiRunModeRun);
       [apply bind_Ret in Hs2 as (v & _ & Hs2);
        destruct (_ <=? _) in Hs2; injection Hs2 as <-; cbn; auto
       |injection Hs2 as <-; cbn; auto]). }
  destruct (categoryCount d <=? RBBI.s_category s2); [discriminate|].
  apply bind_Ret in Ht as (e & _ & Ht). apply bind_Ret in Ht as (row & Hrow & Ht).
  injection Ht as <-. cbn. exact H2.
Qed.

Lemma Next_body_general (p0 : Z) (s : RBBI.scan (C := StringCursor.t)) (st : RBBI.step) :
  0 <= p0 ->
  inv p0 s ->
  RBBI.Next_body d s = Ret st ->
  match st with
  | RBBI.Continue s' => inv p0 s' /\ scan_fuel text s' < scan_fuel text s
  | RBBI.Break s' => inv p0 s'
  | RBBI.Return s' q ok =>
    ok = true /\ 0 <= q /\
    ((exists i : nat, lam !! i = Some q) \/ p0 < q <= len text) /\
    slots_inv lam text p0 (RBBI.s_lookaheadMatches s') /\
    exists pc, p0 < pc <= len text /\
      RBBI.s_cursor s' = fst (SetPosition (StringCursor.mk text pc) q)
  end.
Proof.
  intros Hp0 Hinv. unfold RBBI.Next_body.
  destruct (negb (RBBI.s_nextOk s) && rbbiRunMode_eqb (RBBI.s_mode s) rbbiRunModeEnd) eqn:Etop;
    [intros [= <-]; exact Hinv|].
  intros Hb. apply bind_Ret in Hb as (s1 & Htr & Hrow).
  apply Next_transition_general in Htr as (Hc & Hr & Hl & Hok & Hmode).
  destruct Hinv as ((pc & Hcur & Hpc) & Hres & Hlam & Hend).
  assert (Hfuel1 : scan_fuel text s1 <= scan_fuel text s /\
                   (RBBI.s_nextOk s1 = false -> RBBI.s_mode s1 = rbbiRunModeEnd /\
                      scan_fuel text s = 2)).
  { unfold scan_fuel. rewrite Hc, Hok, Hmode.
    destruct (RBBI.s_nextOk s) eqn:Eok; [split; [lia|discriminate]|].
    cbn [negb andb] in Etop. rewrite Etop. cbn. split; [lia|auto]. }
  assert (Hend1 : RBBI.s_mode s1 = rbbiRunModeEnd -> RBBI.s_nextOk s1 = false).
  { rewrite Hok, Hmode. destruct (RBBI.s_nextOk s); auto. }
  rewrite <- Hc in Hcur. rewrite <- Hr in Hres. rewrite <- Hl in Hlam.
  clear Hc Hr Hl Hok Hmode Hend Etop.
  destruct Hfuel1 as [Hfuel1 Hfuel2].
  unfold RBBI.Next_row in Hrow. apply bind_Ret in Hrow as (r & Hacc & Hrow).
  unfold RBBI.Next_accept in Hacc. cbv zeta in Hacc.
  assert (Hr : match r with
               | inl s2 =>
                 RBBI.s_cursor s2 = RBBI.s_cursor s1 /\
                 (RBBI.s_result s2 = p0 \/ p0 < RBBI.s_result s2 <= len text) /\
                 RBBI.s_lookaheadMatches s2 = RBBI.s_lookaheadMatches s1 /\
                 RBBI.s_nextOk s2 = RBBI.s_nextOk s1 /\
                 RBBI.s_mode s2 = RBBI.s_mode s1 /\
                 RBBI.s_row s2 = RBBI.s_row s1 /\
                 RBBI.s_state s2 = RBBI.s_state s1
               | inr st' => st' = st /\
                 match st with
                 | RBBI.Return s' q ok =>
                   ok = true /\ 0 <= q /\
                   (exists i : nat, RBBI.s_lookaheadMatches s1 !! i = Some q) /\
                   RBBI.s_lookaheadMatches s' = RBBI.s_lookaheadMatches s1 /\
                   RBBI.s_cursor s' = fst (SetPosition (RBBI.s_cursor s1) q)
                 | _ => False
                 end
               end).
  { destruct (u8 (accepting (RBBI.s_row s1)) =? rbbiAcceptingUnconditional).
    - injection Hacc as <-.
      destruct (negb _); cbn; rewrite ?Hcur;
        cbn [Position StringCursor_Cursor StringCursor.Position StringCursor.position];
        auto 10.
    - destruct (rbbiAcceptingUnconditional <? _); [|injection Hacc as <-; auto 10].
      destruct (lookaheadResultsSize _ <=? _); [discriminate|].
      apply bind_Ret in Hacc as (saved & Hslot & Hacc).
      destruct (Z.leb_spec 0 saved).
      + injection Hacc as <-. cbn in Hrow. injection Hrow as <-. split; [reflexivity|].
        split; [reflexivity|]. split; [assumption|]. cbn.
        split; [eexists; eapply slice_index_lookup; exact Hslot|]. auto.
      + injection Hacc as <-. auto 10. }
  destruct r as [s2|st'].
  2:{ destruct Hr as [-> Hr]. destruct st as [| |s' q ok]; try contradiction.
      destruct Hr as (-> & Hq & (i & Hi) & Hl' & Hc').
      split; [reflexivity|]. split; [assumption|]. split.
      { destruct Hlam as [_ Hlam]. destruct (Hlam i q Hi); eauto. }
      rewrite Hl'. split; [assumption|]. exists pc. rewrite Hc', Hcur. auto. }
  destruct Hr as (Hc2 & Hres2 & Hl2 & Hok2 & Hmode2 & Hrow2 & Hst2).
  rewrite <- Hc2 in Hcur. rewrite <- Hl2 in Hlam.
  assert (Hfuel3 : scan_fuel text s2 = scan_fuel text s1).
  { unfold scan_fuel. rewrite Hc2, Hok2, Hmode2. reflexivity. }
  rewrite <- Hok2, <- Hmode2 in Hend1, Hfuel2. rewrite <- Hfuel3 in Hfuel1.
  clear Hc2 Hl2 Hok2 Hmode2 Hrow2 Hst2 Hfuel3 Hres Hacc s1.
  unfold RBBI.Next_advance in Hrow. cbv zeta in Hrow.
  destruct (negb _ && (_ <=? rbbiAcceptingUnconditional)); [discriminate|].
  destruct (negb _ && _); [discriminate|].
  apply bind_Ret in Hrow as (s3 & Hs3 & Hrow).
  assert (H3 : RBBI.s_cursor s3 = RBBI.s_cursor s2 /\
               RBBI.s_result s3 = RBBI.s_result s2 /\
               slots_inv lam text p0 (RBBI.s_lookaheadMatches s3) /\
               RBBI.s_nextOk s3 = RBBI.s_nextOk s2 /\
               RBBI.s_mode s3 = RBBI.s_mode s2 /\
               RBBI.s_state s3 = RBBI.s_state s2).
  { destruct (rbbiAcceptingUnconditional <? _).
    - apply bind_Ret in Hs3 as (m & Hm & [= <-]). cbn.
      split; [reflexivity|]. split; [reflexivity|]. split; [|auto].
      eapply slots_inv_store; [exact Hlam| |exact Hm].
      rewrite Hcur. cbn. exact Hpc.
    - injection Hs3 as <-. auto 10. }
  destruct H3 as (Hc3 & Hr3 & Hlam3 & Hok3 & Hmode3 & _).
  rewrite <- Hc3 in Hcur. rewrite <- Hr3 in Hres2.
  assert (Hfuel4 : scan_fuel text s3 = scan_fuel text s2).
  { unfold scan_fuel. rewrite Hc3, Hok3, Hmode3. reflexivity. }
  rewrite <- Hok3, <- Hmode3 in Hend1, Hfuel2. rewrite <- Hfuel4 in Hfuel1.
  clear Hc3 Hr3 Hok3 Hmode3 Hfuel4 Hlam Hs3 s2.
  assert (Hinv3 : inv p0 s3).
  { split; [eauto|]. auto. }
  destruct (RBBI.s_state s3 =? rbbiStateStop); [injection Hrow as <-; exact Hinv3|].
  destruct (rbbiRunMode_eqb (RBBI.s_mode s3) rbbiRunModeRun) eqn:Erun.
  - apply rbbiRunMode_eqb_eq in Erun.
    assert (Hok : RBBI.s_nextOk s3 = true).
    { destruct (RBBI.s_nextOk s3); [reflexivity|].
      destruct (Hfuel2 eq_refl) as [He _]. congruence. }
    rewrite Hcur in Hrow. cbn [Next StringCursor_Cursor] in Hrow.
    destruct (Z.eq_dec pc (len text)) as [->|Hne].
    + rewrite StringCursor_Next_end in Hrow by (cbn; lia).
      injection Hrow as <-. split.
      * unfold scan_inv_general. cbn. split; [eauto|]. split; [assumption|].
        split; [assumption|]. auto.
      * unfold scan_fuel in *. cbn. rewrite Erun, Hok, Hcur in *. cbn in *. lia.
    + destruct (StringCursor_Next_step text pc ltac:(lia)) as (r0 & size & Hsize & Hn).
      rewrite Hn in Hrow. injection Hrow as <-. split.
      * unfold scan_inv_general. cbn.
        split; [exists (pc + size); split; [reflexivity|lia]|].
        split; [assumption|]. split; [assumption|]. rewrite Erun. discriminate.
      * unfold scan_fuel in *. cbn. rewrite Erun, Hok, Hcur in *. cbn in *. lia.
  - destruct (rbbiRunMode_eqb (RBBI.s_mode s3) rbbiRunModeStart) eqn:Estart.
    + apply rbbiRunMode_eqb_eq in Estart.
      assert (Hok : RBBI.s_nextOk s3 = true).
      { destruct (RBBI.s_nextOk s3); [reflexivity|].
        destruct (Hfuel2 eq_refl) as [He _]. congruence. }
      injection Hrow as <-. split.
      * unfold scan_inv_general. cbn. split; [eauto|]. split; [assumption|].
        split; [assumption|]. discriminate.
      * unfold scan_fuel in *. cbn. rewrite Estart, Hok in *. cbn in *. lia.
    + injection Hrow as <-. split; [exact Hinv3|].
      assert (Hm : RBBI.s_mode s3 = rbbiRunModeEnd).
      { destruct (RBBI.s_mode s3); cbn in *; congruence. }
      specialize (Hend1 Hm). destruct (Hfuel2 Hend1) as [_ Hf].
      unfold scan_fuel at 1. rewrite Hend1, Hm. cbn. lia.
Qed.

Lemma StringCursor_Next_no_Timeout (c : StringCursor.t) : StringCursor.Next c <> Timeout.
Proof.
  unfold StringCursor.Next. destruct (_ <=? _); [discriminate|].
  destruct (_ <? _); [discriminate|]. destruct (utf8.DecodeRuneInString _). discriminate.
Qed.

Lemma Next_body_no_Timeout (s : RBBI.scan (C := StringCursor.t)) :
  RBBI.Next_body d s <> Timeout.
Proof.
  unfold RBBI.Next_body, RBBI.Next_transition, RBBI.Next_row, RBBI.Next_accept,
    RBBI.Next_advance. cbv zeta.
  destruct (negb _ && _); [discriminate|].
  repeat first
    [ apply fastGet_no_Timeout
    | apply StringCursor_Next_no_Timeout
    | apply bind_no_Timeout; [|intros ?]
    | apply slice_index_no_Timeout
    | apply store_no_Timeout
    | discriminate
    | match goal with
      | |- (if ?b then _ else _) <> Timeout => destruct b
      | |- (let '(_, _) := ?p in _) <> Timeout => destruct p
      | |- (match ?p with _ => _ end) <> Timeout => destruct p
      end ].
Qed.

Lemma scan_fuel_pos (p0 : Z) (s : RBBI.scan (C := StringCursor.t)) :
  inv p0 s -> 0 < scan_fuel text s.
Proof.
  intros ((pc & Hcur & Hpc) & _). unfold scan_fuel. rewrite Hcur. cbn.
  destruct (RBBI.s_nextOk s); destruct (rbbiRunMode_eqb _ _); lia.
Qed.

Lemma Next_loop_general (p0 : Z) (fuel : nat) :
  0 <= p0 ->
  forall s : RBBI.scan (C := StringCursor.t),
    inv p0 s ->
    match RBBI.Next_loop fuel d s with
    | Ret (RBBI.Continue _) => False
    | Ret (RBBI.Break s') => inv p0 s'
    | Ret (RBBI.Return s' q ok) =>
      ok = true /\ 0 <= q /\
      ((exists i : nat, lam !! i = Some q) \/ p0 < q <= len text) /\
      slots_inv lam text p0 (RBBI.s_lookaheadMatches s') /\
      exists pc, p0 < pc <= len text /\
        RBBI.s_cursor s' = fst (SetPosition (StringCursor.mk text pc) q)
    | Panic => True
    | Timeout => Z.of_nat fuel < scan_fuel text s
    end.
Proof.
  intros Hp0. induction fuel as [|fuel IH]; intros s Hinv.
  - cbn. apply (scan_fuel_pos p0). exact Hinv.
  - cbn [RBBI.Next_loop].
    pose proof (Next_body_no_Timeout s) as Hnt.
    pose proof (Next_body_general p0 s) as Hb.
    destruct (RBBI.Next_body d s) as [st| |]; cbn [mbind outcome_bind];
      [|exact I|congruence].
    specialize (Hb st Hp0 Hinv eq_refl).
    destruct st as [s'|s'|s' q ok]; [|exact Hb|exact Hb].
    destruct Hb as [Hinv' Hlt]. specialize (IH s' Hinv').
    destruct (RBBI.Next_loop fuel d s') as [[?|?|? ? ?]| |]; try exact IH. lia.
Qed.

(** [Next] over a [StringCursor]: with enough fuel the call returns or
    panics; at the end of the text it returns [ok = false] and leaves the
    cursor; elsewhere a call that returns gives a position beyond the entry
    position, where the cursor is left, unless the scan has completed a
    lookahead with a slot that it had not written: the value returned is then
    the value of that slot at the start. *)
Lemma Next_StringCursor (n : nat) (rsi pos : Z) :
  0 <= pos <= len text ->
  match RBBI.Next n (eng rsi pos) with
  | Ret (r', (q, ok)) =>
    RBBI.data r' = d /\
    slots_inv lam text pos (RBBI.lookaheadMatches r') /\
    if ok then
      pos < len text /\ 0 <= q /\
      ((exists i : nat, lam !! i = Some q) \/ pos < q <= len text) /\
      (q <= len text -> RBBI.cursor r' = Some (StringCursor.mk text q))
    else pos = len text /\ RBBI.cursor r' = Some (StringCursor.mk text pos)
  | Panic => pos < len text
  | Timeout => pos < len text /\ Z.of_nat n < len text - pos + 3
  end.
Proof.
  intros Hpos. unfold RBBI.Next, string_engine.
  cbn [RBBI.cursor RBBI.data RBBI.lookaheadMatches].
  cbn [Next StringCursor_Cursor Position StringCursor.Position StringCursor.position].
  destruct (Z.eq_dec pos (len text)) as [->|Hne].
  { rewrite StringCursor_Next_end by (cbn; lia). cbn [mbind outcome_bind negb].
    cbn. split; [reflexivity|]. split; [apply slots_inv_refl|]. auto. }
  destruct (StringCursor_Next_step text pos ltac:(lia)) as (c & size & Hsize & Hn).
  rewrite Hn. cbn [mbind outcome_bind negb].
  pose proof (slice_index_no_Timeout (rows (forwardTable d)) rbbiStateStart) as Hr.
  destruct (slice_index (rows (forwardTable d)) rbbiStateStart) as [row| |];
    cbn [mbind outcome_bind]; [|lia|congruence].
  set (s0 := RBBI.Next_init _ _ _ _ _).
  assert (Hinv0 : inv pos s0).
  { unfold scan_inv_general, s0, RBBI.Next_init. cbn.
    split; [exists (pos + size); split; [reflexivity|lia]|].
    split; [auto|]. split; [apply slots_inv_refl|].
    destruct (bofRequired _); discriminate. }
  assert (Hf0 : scan_fuel text s0 <= len text - pos + 3).
  { unfold scan_fuel, s0, RBBI.Next_init. cbn. destruct (bofRequired _); cbn; lia. }
  pose proof (Next_loop_general pos n ltac:(lia) s0 Hinv0) as Hloop.
  destruct (RBBI.Next_loop n d s0) as [[s'|s'|s' q ok]| |]; cbn [mbind outcome_bind];
    [contradiction| | |lia|lia].
  - (* the loop has ended at a [break] *)
    destruct Hloop as ((pc & Hcur & Hpc) & Hres & Hlam & _).
    unfold RBBI.Next_finish. rewrite Hcur.
    cbn [SetPosition StringCursor_Cursor Next Position StringCursor.Position
         StringCursor.position].
    destruct (Z.eqb_spec (RBBI.s_result s') pos) as [Heq|Hneq].
    + rewrite StringCursor_SetPosition_ok by (cbn; lia). cbn [fst StringCursor.text].
      rewrite Hn. cbn [mbind outcome_bind negb].
      rewrite StringCursor_SetPosition_ok by (cbn; lia). cbn.
      split; [reflexivity|]. split; [assumption|]. split; [lia|]. split; [lia|].
      split; [right; lia|]. reflexivity.
    + rewrite StringCursor_SetPosition_ok by (cbn; lia). cbn.
      split; [reflexivity|]. split; [assumption|]. split; [lia|]. split; [lia|].
      split; [right; lia|]. reflexivity.
  - (* the scan has completed a lookahead *)
    destruct Hloop as (-> & Hq & Hstale & Hlam & pc & Hpc & Hcur).
    cbn. split; [reflexivity|]. split; [assumption|]. split; [lia|]. split; [assumption|].
    split; [assumption|]. intros Hle. rewrite Hcur.
    cbn [SetPosition StringCursor_Cursor].
    rewrite StringCursor_SetPosition_ok by (cbn; lia). reflexivity.
Qed.

End Next_general.

(** C1, as the specification words it, fails: a new engine for
    [lookahead_data] over the text [b] enters, on the first rune, a row that
    completes the lookahead rule 2; the slot of the rule holds the 0 that
    [make] put there, and [Next] returns [(0, true)]: [ok] is true and the
    position is the entry position. *)
Lemma Next_returns_entry_position : ~ Next_as_specified.
Proof.
  intros H.
  specialize (H 1%nat (engine_at lookahead_data text_b 0)
    {| RBBI.data := lookahead_data; RBBI.lookaheadMatches := [0; 0; 0];
       RBBI.ruleStatusIndex := 7; RBBI.cursor := Some (StringCursor.mk text_b 0) |}
    text_b 0 0 true eq_refl).
  destruct H as (_ & H & _).
  - vm_compute. split; discriminate.
  - reflexivity.
  - destruct (H eq_refl) as [Hlt _]. lia.
Qed.

(** C1, amended. For an engine over a [StringCursor], with fuel for the
    length of the text, [Next] returns unless an assertion or a bounds check
    panics; it returns [ok = false] exactly when the cursor is at the end of
    the text on entry, and the cursor is then where it was; when it returns
    [ok = true], the position returned is beyond the entry position and the
    cursor is left at that position, provided the position is not a value, at
    or before the entry position or outside the text, that a slot of
    [lookaheadMatches] held on entry. *)
Theorem Next_progress (n : nat) (d : rbbiData) (lam : list Z) (text : list byte)
  (rsi p : Z) :
  0 <= p <= len text ->
  match RBBI.Next n (string_engine d lam text rsi p) with
  | Ret (r', (position, ok)) =>
    (ok = false <-> p = len text) /\
    (ok = false -> RBBI.cursor r' = Some (StringCursor.mk text p)) /\
    (ok = true ->
     (forall i : nat, lam !! i = Some position -> p < position <= len text) ->
     p < position <= len text /\
     RBBI.cursor r' = Some (StringCursor.mk text position))
  | Panic => p < len text
  | Timeout => p < len text /\ Z.of_nat n < len text - p + 3
  end.
Proof.
  intros Hp. pose proof (Next_StringCursor d lam text n rsi p Hp) as H.
  destruct (RBBI.Next n (string_engine d lam text rsi p)) as [[r' [q ok]]| |]; try exact H.
  destruct H as (_ & _ & H). destruct ok.
  - destruct H as (Hlt & Hq & Hs & Hcur).
    split; [split; [discriminate|lia]|]. split; [discriminate|].
    intros _ Hslots.
    assert (Hq' : p < q <= len text).
    { destruct Hs as [[i Hi]|Hs]; [|exact Hs]. exact (Hslots i Hi). }
    split; [exact Hq'|]. apply Hcur. lia.
  - destruct H as [-> Hcur]. split; [tauto|]. split; [|discriminate]. auto.
Qed.

Lemma Next_progress_witness :
  0 <= 0 <= len text_ab /\
  RBBI.Next 5 (string_engine lookahead_data [0; 0; 0] text_ab 0 0)
  = Ret (string_engine lookahead_data [0; 0; 1] text_ab 5 1, (1, true)) /\
  (forall i : nat, [0; 0; 0] !! i = Some 1 -> 0 < 1 <= len text_ab) /\
  0 < 1 <= len text_ab /\
  RBBI.cursor (string_engine lookahead_data [0; 0; 1] text_ab 5 1)
  = Some (StringCursor.mk text_ab 1).
Proof.
  assert (H1 : 0 <= 0 <= len text_ab) by (vm_compute; split; discriminate).
  assert (H2 : forall i : nat, [0; 0; 0] !! i = Some 1 -> 0 < 1 <= len text_ab).
  { intros [|[|[|i]]]; cbn; discriminate. }
  split; [exact H1|]. split; [reflexivity|]. split; [exact H2|].
  pose proof (Next_progress 5 lookahead_data [0; 0; 0] text_ab 0 0 H1) as W.
  change (RBBI.Next 5 (string_engine lookahead_data [0; 0; 0] text_ab 0 0))
    with (Ret (string_engine lookahead_data [0; 0; 1] text_ab 5 1, (1, true))) in W.
  exact (proj2 (proj2 W) eq_refl H2).
Defined.

(** C2, as the specification words it, fails: when the first call of [Next]
    on a new engine for [lookahead_data] enters its loop, the slots hold 0,
    which the test [lookaheadResult >= 0] takes for a saved position. *)
Lemma slots_of_new_engine_set : ~ slots_cleared_as_specified.
Proof.
  intros H.
  specialize (H lookahead_data text_b 0 (StringCursor.mk text_b 1) 0x62 stop_row).
  apply List.Forall_inv in H. lia.
Qed.

(** C2, amended. [Next] does not clear [lookaheadMatches]: [newRBBI] makes
    the array with 0 in every slot, the scan of a call of [Next] starts from
    the slots that the engine holds, and a call that returns leaves in every
    slot the value it held on entry or a position of the text beyond the entry
    position, recorded by the scan. *)
Theorem lookaheadMatches_not_cleared :
  (forall d : rbbiData,
     RBBI.lookaheadMatches (RBBI.newRBBI (C := StringCursor.t) d)
     = replicate (Z.to_nat (lookaheadResultsSize (forwardTable d))) 0) /\
  (forall (r : RBBI.t) (cur : StringCursor.t) (p : Z) (c : rune) (row : rbbiStateTableRow),
     RBBI.s_lookaheadMatches (RBBI.Next_init r cur p c row) = RBBI.lookaheadMatches r) /\
  (forall (n : nat) (d : rbbiData) (lam : list Z) (text : list byte) (rsi p : Z)
          (r' : RBBI.t) (res : Z * bool),
     0 <= p <= len text ->
     RBBI.Next n (string_engine d lam text rsi p) = Ret (r', res) ->
     slots_inv lam text p (RBBI.lookaheadMatches r')).
Proof.
  split; [reflexivity|]. split; [reflexivity|].
  intros n d lam text rsi p r' [q ok] Hp HN.
  pose proof (Next_StringCursor d lam text n rsi p Hp) as H.
  rewrite HN in H. apply H.
Qed.

Lemma lookaheadMatches_not_cleared_witness :
  0 <= 0 <= len text_ab /\
  RBBI.Next 5 (string_engine lookahead_data [0; 0; 0] text_ab 0 0)
  = Ret (string_engine lookahead_data [0; 0; 1] text_ab 5 1, (1, true)) /\
  slots_inv [0; 0; 0] text_ab 0 [0; 0; 1].
Proof.
  assert (H1 : 0 <= 0 <= len text_ab) by (vm_compute; split; discriminate).
  assert (H2 : RBBI.Next 5 (string_engine lookahead_data [0; 0; 0] text_ab 0 0)
    = Ret (string_engine lookahead_data [0; 0; 1] text_ab 5 1, (1, true))) by reflexivity.
  split; [exact H1|]. split; [exact H2|].
  exact (proj2 (proj2 lookaheadMatches_not_cleared) 5%nat lookahead_data [0; 0; 0] text_ab
    0 0 _ _ H1 H2).
Defined.

(** ** [Next] over a [StringCursor], for a table without lookahead rules *)

Lemma slice_index_In {A : Type} (l : list A) (i : Z) (a : A) :
  slice_index l i = Ret a -> In a l.
Proof.
  unfold slice_index. destruct (i <? 0); [discriminate|].
  destruct (l !! Z.to_nat i) eqn:E; [|discriminate].
  intros [= ->]. apply list_elem_of_In. eapply list_elem_of_lookup_2. exact E.
Qed.

Section Lookahead_free.

Variables (d : rbbiData) (lam : list Z) (text : list byte).

Hypothesis Hfree : lookahead_free (forwardTable d) = true.

Local Abbreviation eng := (string_engine d lam text).
Local Abbreviation inv := (scan_inv lam text).

Lemma lookahead_free_row (row : rbbiStateTableRow) :
  In row (rows (forwardTable d)) ->
  u8 (accepting row) <= 1 /\ u8 (lookahead row) = 0.
Proof.
  intros Hin. unfold lookahead_free in Hfree.
  rewrite forallb_forall in Hfree. specialize (Hfree row Hin).
  apply andb_true_iff in Hfree as [H1 H2].
  apply Z.leb_le in H1. apply Z.eqb_eq in H2. unfold rbbiAcceptingUnconditional in H1. lia.
Qed.

(** The transition changes neither the cursor nor the result nor the slots,
    and the row it enters is a row of the forward table. *)
Lemma Next_transition_frame (s s1 : RBBI.scan (C := StringCursor.t)) :
  RBBI.Next_transition d s = Ret s1 ->
  RBBI.s_cursor s1 = RBBI.s_cursor s /\
  RBBI.s_result s1 = RBBI.s_result s /\
  RBBI.s_lookaheadMatches s1 = RBBI.s_lookaheadMatches s /\
  In (RBBI.s_row s1) (rows (forwardTable d)).
Proof.
  unfold RBBI.Next_transition. cbv zeta.
  intros Ht. apply bind_Ret in Ht as (s2 & Hs2 & Ht).
  assert (H2 : RBBI.s_cursor s2 = RBBI.s_cursor s /\
               RBBI.s_result s2 = RBBI.s_result s /\
               RBBI.s_lookaheadMatches s2 = RBBI.s_lookaheadMatches s).
  { destruct (RBBI.s_nextOk s); cbn [negb] in Hs2;
      (destruct (rbbiRunMode_eqb _ rbbiRunModeRun);
       [apply bind_Ret in Hs2 as (v & _ & Hs2);
        destruct (_ <=? _) in Hs2; injection Hs2 as <-; auto
       |injection Hs2 as <-; auto]). }
  destruct (categoryCount d <=? RBBI.s_category s2); [discriminate|].
  apply bind_Ret in Ht as (e & _ & Ht). apply bind_Ret in Ht as (row & Hrow & Ht).
  injection Ht as <-. cbn. destruct H2 as (-> & -> & ->).
  repeat split. eapply slice_index_In. exact Hrow.
Qed.

Lemma Next_body_inv (p0 : Z) (s : RBBI.scan (C := StringCursor.t)) (st : RBBI.step (C := StringCursor.t)) :
  0 <= p0 ->
  inv p0 s ->
  RBBI.Next_body d s = Ret st ->
  match st with
  | RBBI.Continue s' | RBBI.Break s' => inv p0 s'
  | RBBI.Return _ _ _ => False
  end.
Proof.
  intros Hp0 Hinv. unfold RBBI.Next_body.
  destruct (negb (RBBI.s_nextOk s) && _); [intros [= <-]; exact Hinv|].
  intros Hb. apply bind_Ret in Hb as (s1 & Htr & Hrow).
  apply Next_transition_frame in Htr as (Hc & Hr & Hl & Hin).
  destruct (lookahead_free_row _ Hin) as [Hacc Hla].
  destruct Hinv as ((pc & Hcur & Hpc) & Hres & Hlam).
  rewrite <- Hc in Hcur. rewrite <- Hr in Hres. rewrite <- Hl in Hlam.
  clear Hc Hr Hl s.
  unfold RBBI.Next_row in Hrow. apply bind_Ret in Hrow as (r & Hacc' & Hrow).
  assert (Hr : exists s2, r = inl s2 /\ inv p0 s2 /\
                          RBBI.s_row s2 = RBBI.s_row s1).
  { unfold RBBI.Next_accept in Hacc'. cbv zeta in Hacc'.
    unfold rbbiAcceptingUnconditional in Hacc'.
    destruct (Z.eqb_spec (u8 (accepting (RBBI.s_row s1))) 1).
    - injection Hacc' as <-. eexists. split; [reflexivity|].
      destruct (negb _); cbn; (split; [|reflexivity]); unfold scan_inv; cbn;
        rewrite ?Hcur; cbn [Position StringCursor_Cursor StringCursor.Position
                              StringCursor.position]; eauto 10.
    - destruct (Z.ltb_spec 1 (u8 (accepting (RBBI.s_row s1)))); [lia|].
      injection Hacc' as <-. eexists. split; [reflexivity|].
      split; [|reflexivity]. unfold scan_inv. eauto 10. }
  destruct Hr as (s2 & -> & Hinv2 & Hrow2).
  unfold RBBI.Next_advance in Hrow. cbv zeta in Hrow.
  rewrite Hrow2, Hla in Hrow. cbn [Z.eqb negb andb] in Hrow.
  unfold rbbiAcceptingUnconditional in Hrow. cbn [Z.ltb Z.compare mbind outcome_bind] in Hrow.
  destruct (RBBI.s_state s2 =? rbbiStateStop); [injection Hrow as <-; exact Hinv2|].
  destruct Hinv2 as ((pc2 & Hcur2 & Hpc2) & Hres2 & Hlam2).
  destruct (rbbiRunMode_eqb (RBBI.s_mode s2) rbbiRunModeRun).
  - rewrite Hcur2 in Hrow. cbn [Next StringCursor_Cursor] in Hrow.
    destruct (Z.eq_dec pc2 (len text)) as [->|Hne].
    + rewrite StringCursor_Next_end in Hrow by (cbn; lia).
      injection Hrow as <-. unfold scan_inv. cbn. eauto 10.
    + destruct (StringCursor_Next_step text pc2 ltac:(lia)) as (r0 & size & Hsize & Hn).
      rewrite Hn in Hrow. injection Hrow as <-. unfold scan_inv. cbn.
      split; [exists (pc2 + size); split; [reflexivity|lia]|]. auto.
  - destruct (rbbiRunMode_eqb (RBBI.s_mode s2) rbbiRunModeStart);
      injection Hrow as <-; unfold scan_inv; cbn; eauto 10.
Qed.

Lemma Next_loop_inv (p0 : Z) (fuel : nat) (s : RBBI.scan (C := StringCursor.t)) (st : RBBI.step (C := StringCursor.t)) :
  0 <= p0 ->
  inv p0 s ->
  RBBI.Next_loop fuel d s = Ret st ->
  exists s', st = RBBI.Break s' /\ inv p0 s'.
Proof.
  intros Hp0. revert s. induction fuel as [|fuel IH]; intros s Hinv; [discriminate|].
  cbn [RBBI.Next_loop]. intros Hl. apply bind_Ret in Hl as (st0 & Hb & Hl).
  pose proof (Next_body_inv p0 s st0 Hp0 Hinv Hb) as Hst.
  destruct st0 as [s'|s'|].
  - eapply IH; eassumption.
  - injection Hl as <-. eauto.
  - contradiction.
Qed.

(** [Next] without lookahead rules: at the end of the text it returns
    [ok = false] and leaves the cursor; elsewhere a call that returns gives a
    position beyond the entry position, within the text, and leaves the cursor
    there; the slots are not written. *)
Lemma Next_lookahead_free (n : nat) (rsi pos : Z) (r' : RBBI.t) (q : Z) (ok : bool) :
  0 <= pos <= len text ->
  RBBI.Next n (eng rsi pos) = Ret (r', (q, ok)) ->
  (ok = false /\ pos = len text /\ r' = eng 0 pos) \/
  (ok = true /\ pos < q <= len text /\ exists rsi', r' = eng rsi' q).
Proof.
  intros Hpos. unfold RBBI.Next, string_engine. cbn [RBBI.cursor RBBI.data RBBI.lookaheadMatches].
  cbn [Next StringCursor_Cursor Position StringCursor.Position StringCursor.position].
  destruct (Z.eq_dec pos (len text)) as [->|Hne].
  { rewrite StringCursor_Next_end by (cbn; lia). cbn [mbind outcome_bind negb].
    intros [= <- <- <-]. left. auto. }
  destruct (StringCursor_Next_step text pos ltac:(lia)) as (c & size & Hsize & Hn).
  rewrite Hn. cbn [mbind outcome_bind negb].
  intros Hr. apply bind_Ret in Hr as (row & Hrow & Hr).
  apply bind_Ret in Hr as (st & Hloop & Hr).
  apply (Next_loop_inv pos) in Hloop as (s' & -> & (pc & Hcur & Hpc) & Hres & Hlam); [|lia|].
  2:{ unfold scan_inv, RBBI.Next_init. cbn. split; [exists (pos + size); split; [reflexivity|lia]|].
      auto. }
  right. unfold RBBI.Next_finish in Hr. rewrite Hcur in Hr.
  cbn [SetPosition StringCursor_Cursor Next Position StringCursor.Position
       StringCursor.position] in Hr.
  destruct (Z.eqb_spec (RBBI.s_result s') pos) as [Heq|Hneq].
  - rewrite StringCursor_SetPosition_ok in Hr by (cbn; lia). cbn [fst StringCursor.text] in Hr.
    rewrite Hn in Hr. cbn [mbind outcome_bind negb] in Hr.
    rewrite StringCursor_SetPosition_ok in Hr by (cbn; lia).
    injection Hr as <- <- <-. split; [reflexivity|]. split; [cbn; lia|].
    exists 0. unfold RBBI.engine_of. cbn. rewrite Hlam. reflexivity.
  - rewrite StringCursor_SetPosition_ok in Hr by (cbn; lia). cbn [fst StringCursor.text] in Hr.
    injection Hr as <- <- <-. split; [reflexivity|]. split; [lia|].
    exists (RBBI.s_ruleStatusIndex s'). unfold RBBI.engine_of. cbn. rewrite Hlam. reflexivity.
Qed.

End Lookahead_free.

(** ** The largest member of a list below a bound *)

Lemma largest_below_In (p : Z) (l : list Z) (a : Z) :
  largest_below p l = Some a -> In a l /\ a < p.
Proof.
  revert a. induction l as [|b l IH]; intros a; cbn [largest_below foldr]; [discriminate|].
  fold (largest_below p l).
  destruct (Z.ltb_spec b p).
  - destruct (largest_below p l) as [a'|] eqn:E.
    + intros [= <-]. destruct (IH a' eq_refl) as [Hin Hlt].
      destruct (Z.max_spec a' b) as [[_ ->]|[_ ->]]; [split; [left; reflexivity|lia]|].
      split; [right; assumption|assumption].
    + intros [= <-]. split; [left; reflexivity|assumption].
  - intros H'. destruct (IH a H') as [Hin Hlt]. split; [right; assumption|assumption].
Qed.

Lemma largest_below_None (p : Z) (l : list Z) :
  Forall (fun b => p <= b) l -> largest_below p l = None.
Proof.
  induction 1 as [|b l Hb _ IH]; [reflexivity|].
  cbn [largest_below foldr]. fold (largest_below p l).
  destruct (Z.ltb_spec b p); [lia|assumption].
Qed.

Lemma largest_below_cons (p q : Z) (l : list Z) :
  StronglySorted Z.lt (q :: l) -> q < p ->
  largest_below p (q :: l) = Some (default q (largest_below p l)).
Proof.
  intros Hs Hq. apply StronglySorted_inv in Hs as [_ Hall].
  cbn [largest_below foldr]. fold (largest_below p l).
  destruct (Z.ltb_spec q p); [|lia].
  destruct (largest_below p l) as [a|] eqn:E; [|reflexivity].
  apply largest_below_In in E as [Hin _].
  rewrite List.Forall_forall in Hall. specialize (Hall a Hin).
  cbn. f_equal. lia.
Qed.

Lemma largest_below_app (p q : Z) (pre suf : list Z) :
  StronglySorted Z.lt (pre ++ q :: suf) -> q < p ->
  largest_below p (pre ++ q :: suf) = Some (default q (largest_below p suf)).
Proof.
  intros Hs Hq. induction pre as [|a pre IH].
  - apply largest_below_cons; assumption.
  - cbn [app] in *. pose proof Hs as Hs'. apply StronglySorted_inv in Hs' as [Hs' Hall].
    specialize (IH Hs').
    assert (Ha : a < q).
    { rewrite List.Forall_forall in Hall. apply Hall. apply in_or_app. right. left. reflexivity. }
    rewrite largest_below_cons by (assumption || lia). rewrite IH. reflexivity.
Qed.

(** ** Calls of [Next] one after the other *)

Lemma Next_all_length (f n : nat) (r : RBBI.t) (bs : list Z) :
  Next_all f n r = Ret bs -> (length bs < f)%nat.
Proof.
  revert r bs. induction f as [|f IH]; intros r bs; [discriminate|].
  cbn [Next_all]. intros H. apply bind_Ret in H as ([r' [q ok]] & _ & H).
  destruct ok; cbn [negb] in H.
  - apply bind_Ret in H as (l & Hl & [= <-]). apply IH in Hl. cbn. lia.
  - injection H as <-. cbn. lia.
Qed.

Section Previous_facts.

Variables (d : rbbiData) (lam : list Z) (text : list byte) (n : nat).

Hypothesis Hfree : lookahead_free (forwardTable d) = true.

Local Abbreviation eng := (string_engine d lam text).

Lemma Next_all_rsi (f : nat) (rsi rsi' pos : Z) :
  Next_all f n (eng rsi pos) = Next_all f n (eng rsi' pos).
Proof. destruct f; reflexivity. Qed.

Lemma Next_all_step (f : nat) (rsi pos : Z) (bs : list Z) :
  0 <= pos <= len text ->
  Next_all f n (eng rsi pos) = Ret bs ->
  (pos = len text /\ bs = []) \/
  (exists f' b bs' rsi',
     f = S f' /\ pos < b <= len text /\
     RBBI.Next n (eng rsi pos) = Ret (eng rsi' b, (b, true)) /\
     bs = b :: bs' /\ Next_all f' n (eng rsi' b) = Ret bs').
Proof.
  intros Hpos. destruct f as [|f]; [discriminate|]. cbn [Next_all].
  intros H. apply bind_Ret in H as ([r' [q ok]] & HN & H).
  destruct (Next_lookahead_free d lam text Hfree n rsi pos r' q ok Hpos HN)
    as [(-> & -> & ->)|(-> & Hq & rsi' & ->)]; cbn [negb] in H.
  - left. injection H as <-. auto.
  - right. apply bind_Ret in H as (l & Hl & [= <-]).
    exists f, q, l, rsi'. auto 10.
Qed.

Lemma Next_all_sorted (f : nat) (rsi pos : Z) (bs : list Z) :
  0 <= pos <= len text ->
  Next_all f n (eng rsi pos) = Ret bs ->
  StronglySorted Z.lt (pos :: bs) /\ Forall (fun b => pos < b <= len text) bs.
Proof.
  revert rsi pos bs. induction f as [|f IH]; intros rsi pos bs Hpos H; [discriminate|].
  destruct (Next_all_step _ _ _ _ Hpos H) as [(_ & ->)|(f' & b & bs' & rsi' & [= <-] & Hb & _ & -> & Hr)].
  - split; [repeat constructor|constructor].
  - destruct (IH rsi' b bs' ltac:(lia) Hr) as [Hs Hall].
    assert (Hall' : Forall (fun x => pos < x <= len text) (b :: bs')).
    { constructor; [lia|]. eapply Forall_impl; [exact Hall|]. cbn. intros; lia. }
    split; [|exact Hall'].
    constructor; [exact Hs|]. eapply Forall_impl; [exact Hall'|]. cbn. intros; lia.
Qed.

Lemma Next_all_suffix (pre suf : list Z) (q : Z) :
  forall (f : nat) (rsi pos : Z),
    0 <= pos <= len text ->
    Next_all f n (eng rsi pos) = Ret (pre ++ q :: suf) ->
    exists f' rsi', Next_all f' n (eng rsi' q) = Ret suf.
Proof.
  induction pre as [|a pre IH]; intros f rsi pos Hpos H;
    destruct (Next_all_step _ _ _ _ Hpos H)
      as [(_ & Hnil)|(f' & b & bs' & rsi' & _ & Hb & _ & Hbs & Hr)];
    try (destruct pre; discriminate Hnil); try discriminate Hnil.
  - injection Hbs as <- <-. eauto.
  - cbn [app] in Hbs. injection Hbs as <- <-. eapply (IH f' rsi' a); [lia|exact Hr].
Qed.

(** The inner loop of [Previous], started at a break position [pos] before
    [p0]: it ends with the cursor at the first break position from [p0] on
    and with the last break position before [p0], if there is one. *)
Lemma Previous_replay_spec (bs : list Z) :
  forall (f fr : nat) (rsi pos L p0 : Z),
    0 <= pos < p0 -> p0 <= len text ->
    Next_all f n (eng rsi pos) = Ret bs ->
    (length bs <= fr)%nat ->
    exists rsi' b, p0 <= b <= len text /\
      RBBI.Previous_replay fr n (eng rsi pos) p0 L
      = Ret (eng rsi' b, default L (largest_below p0 bs)).
Proof.
  induction bs as [|b0 bs IH]; intros f fr rsi pos L p0 Hpos Hp0 H Hfr;
    pose proof (Next_all_sorted f rsi pos _ ltac:(lia) H) as [Hs Hall];
    destruct (Next_all_step f rsi pos _ ltac:(lia) H)
      as [(Hend & _)|(f' & b & bs' & rsi' & _ & Hb & HN & Hbs & Hr)]; try lia;
    try discriminate Hbs.
  injection Hbs as <- <-.
  destruct fr as [|fr]; [cbn in Hfr; lia|].
  cbn [RBBI.Previous_replay]. rewrite HN. cbn [mbind outcome_bind negb].
  unfold string_engine at 1. cbn [RBBI.cursor Position StringCursor_Cursor
    StringCursor.Position StringCursor.position].
  destruct (Z.leb_spec p0 b0).
  - exists rsi', b0. split; [lia|].
    rewrite largest_below_None; [reflexivity|].
    apply StronglySorted_inv in Hs as [Hs _]. apply StronglySorted_inv in Hs as [_ Hall'].
    constructor; [lia|]. eapply Forall_impl; [exact Hall'|]. cbn. intros; lia.
  - destruct (IH f' fr rsi' b0 b0 p0 ltac:(lia) Hp0 Hr ltac:(cbn in Hfr; lia))
      as (rsi2 & b & Hb2 & ->).
    exists rsi2, b. split; [assumption|].
    apply StronglySorted_inv in Hs as [Hs _].
    rewrite (largest_below_cons p0 b0 bs Hs) by lia. reflexivity.
Qed.

(** [safePrevious] over a [StringCursor]: what a call that returns gives. *)
Lemma safePrevious_shape (fuel : nat) (rsi pos fromPosition : Z) (r' : RBBI.t) (q : Z)
  (ok : bool) :
  0 <= fromPosition <= len text ->
  RBBI.safePrevious fuel (eng rsi pos) fromPosition = Ret (r', (q, ok)) ->
  (ok = false /\ fromPosition = 0 /\ r' = eng rsi 0) \/
  (ok = true /\ 0 <= q < fromPosition /\ r' = eng rsi q).
Proof.
  intros Hfrom. unfold RBBI.safePrevious, string_engine at 1.
  cbn [RBBI.cursor RBBI.data SetPosition StringCursor_Cursor Previous].
  rewrite StringCursor_SetPosition_ok by (cbn; lia). cbn [fst StringCursor.text].
  destruct (Z.eq_dec fromPosition 0) as [->|Hne].
  - rewrite StringCursor_Previous_start by (cbn; lia). cbn [mbind outcome_bind negb].
    intros [= <- <- <-]. left. auto.
  - destruct (StringCursor_Previous_step text fromPosition ltac:(lia)) as (c & size & Hsize & ->).
    cbn [mbind outcome_bind negb]. intros H.
    apply bind_Ret in H as (row & _ & H). apply bind_Ret in H as ([cur st] & Hl & H).
    change (RBBI.data (eng rsi pos)) with d in Hl.
    pose proof (safePrevious_loop_StringCursor d text fuel (fromPosition - size) c true
      rbbiStateStart row ltac:(lia) ltac:(discriminate)) as Hloop.
    rewrite Hl in Hloop. destruct Hloop as (q' & -> & Hq & _).
    injection H as <- <- <-. right. split; [reflexivity|].
    split; [cbn; lia|reflexivity].
Qed.

(** The result of [safePrevious] depends on the engine through its data and
    the text only. *)
Lemma safePrevious_any_engine (fuel : nat) (rsi pos rsi2 pos2 fromPosition q q' : Z)
  (ok : bool) :
  0 <= fromPosition <= len text ->
  RBBI.safePrevious fuel (eng rsi pos) fromPosition = Ret (eng rsi q, (q', ok)) ->
  RBBI.safePrevious fuel (eng rsi2 pos2) fromPosition = Ret (eng rsi2 q, (q', ok)).
Proof.
  intros Hfrom. unfold RBBI.safePrevious, string_engine.
  cbn [RBBI.cursor RBBI.data SetPosition StringCursor_Cursor Previous].
  rewrite !StringCursor_SetPosition_ok by (cbn; lia). cbn [fst StringCursor.text].
  destruct (StringCursor.Previous _) as [[cur [c ok0]]| |]; cbn [mbind outcome_bind];
    try discriminate.
  destruct ok0; cbn [negb].
  - destruct (slice_index _ _) as [row| |]; cbn [mbind outcome_bind]; try discriminate.
    destruct (RBBI.safePrevious_loop _ _ _ _ _ _ _) as [[cur' st]| |];
      cbn [mbind outcome_bind]; try discriminate.
    unfold RBBI.with_cursor. cbn. intros [= -> <- <-]. reflexivity.
  - unfold RBBI.with_cursor. cbn. intros [= -> <- <-]. reflexivity.
Qed.

Lemma safePrevious_at_start (fuel : nat) (rsi pos : Z) :
  0 <= len text ->
  RBBI.safePrevious fuel (eng rsi pos) 0 = Ret (eng rsi 0, (-1, false)).
Proof.
  intros Hlen. unfold RBBI.safePrevious, string_engine.
  cbn [RBBI.cursor RBBI.data SetPosition StringCursor_Cursor Previous].
  rewrite StringCursor_SetPosition_ok by (cbn; lia). cbn [fst StringCursor.text].
  rewrite StringCursor_Previous_start by (cbn; lia). reflexivity.
Qed.

(** The break positions after a break position [q] are those that calls of
    [Next] from [q] return. *)
Lemma breaks_chain (rsi0 q : Z) (bs : list Z) :
  Next_all n n (eng rsi0 0) = Ret bs ->
  In q (0 :: bs) ->
  exists pre suf f' rsi',
    0 :: bs = pre ++ q :: suf /\
    Next_all f' n (eng rsi' q) = Ret suf /\
    (length suf <= length bs)%nat.
Proof.
  intros Hb Hin. pose proof (len_nonneg text) as Hlen.
  apply in_split in Hin as (pre & suf & Hsplit).
  exists pre, suf. destruct pre as [|a pre].
  - cbn [app] in Hsplit. injection Hsplit as <- <-.
    exists n, rsi0. auto.
  - cbn [app] in Hsplit. injection Hsplit as <- ->.
    destruct (Next_all_suffix pre suf q n rsi0 0 ltac:(lia) Hb) as (f' & rsi' & Hs).
    exists f', rsi'. split; [reflexivity|]. split; [exact Hs|].
    rewrite length_app. cbn. lia.
Qed.

(** The end of [Previous]: with a last breakpoint, the cursor is set there. *)
Lemma Previous_loop_found (fuel : nat) (rsi b p0 backtraceStart x : Z) :
  0 <= x <= len text -> 
  RBBI.Previous_loop fuel n (eng rsi b) p0 backtraceStart x = Ret (eng rsi x, (x, true)).
Proof.
  intros Hx.
  assert (Hne : negb (x =? -1) = true).
  { apply negb_true_iff, Z.eqb_neq. lia. }
  destruct fuel; cbn [RBBI.Previous_loop]; rewrite Hne;
    unfold string_engine at 1; cbn [RBBI.cursor SetPosition StringCursor_Cursor];
    rewrite StringCursor_SetPosition_ok by (cbn; lia); reflexivity.
Qed.

Lemma Previous_loop_StringCursor (rsi p : Z) (bs : list Z) :
  0 <= p <= len text ->
  Next_all n n (eng rsi 0) = Ret bs ->
  forallb (fun s =>
             match RBBI.safePrevious n (eng rsi s) s with
             | Ret (_, (q, ok)) => negb ok || existsb (Z.eqb q) (0 :: bs)
             | _ => false
             end)
          (p :: List.filter (fun b => b <? p) (0 :: bs)) = true ->
  forall fuel, (length bs < fuel)%nat ->
  (p = 0 /\ RBBI.Previous_loop fuel n (eng rsi p) p p (-1) = Ret (eng rsi p, (-1, false))) \/
  (0 < p /\ exists rsi' q,
     largest_below p (0 :: bs) = Some q /\
     RBBI.Previous_loop fuel n (eng rsi p) p p (-1) = Ret (eng rsi' q, (q, true))).
Proof.
  intros Hp Hb Hsafe fuel Hfuel.
  pose proof (Next_all_length _ _ _ _ Hb) as Hn.
  pose proof (Next_all_sorted n rsi 0 bs ltac:(lia) Hb) as [Hsorted Hall].
  rewrite forallb_forall in Hsafe.
  assert (Hsafe' : forall s, s = p \/ (In s (0 :: bs) /\ s < p) ->
    exists r1 q1 ok1, RBBI.safePrevious n (eng rsi s) s = Ret (r1, (q1, ok1)) /\
      (ok1 = true -> In q1 (0 :: bs))).
  { intros s Hs.
    assert (Hin : In s (p :: List.filter (fun b => b <? p) (0 :: bs))).
    { destruct Hs as [->|[Hin Hlt]]; [left; reflexivity|right].
      apply filter_In. split; [assumption|]. apply Z.ltb_lt. assumption. }
    specialize (Hsafe s Hin).
    destruct (RBBI.safePrevious n (eng rsi s) s) as [[r1 [q1 ok1]]| |]; try discriminate.
    exists r1, q1, ok1. split; [reflexivity|]. intros ->. cbn [negb orb] in Hsafe.
    apply existsb_exists in Hsafe as (x & Hx & Heq). apply Z.eqb_eq in Heq. subst x.
    exact Hx. }
  destruct fuel as [|n1]; [lia|].
  cbn [RBBI.Previous_loop]. change (negb (-1 =? -1)) with false. cbv iota.
  destruct (Z.eq_dec p 0) as [->|Hp0].
  { left. split; [reflexivity|].
    rewrite safePrevious_at_start by lia. cbn [mbind outcome_bind negb].
    rewrite Z.eqb_refl. reflexivity. }
  right. split; [lia|].
  (* the first safe point *)
  destruct (Hsafe' p (or_introl eq_refl)) as (r1 & q1 & ok1 & HS1 & Hin1).
  destruct (safePrevious_shape n rsi p p r1 q1 ok1 Hp HS1)
    as [(_ & ? & _)|(-> & Hq1 & ->)]; [lia|].
  specialize (Hin1 eq_refl).
  rewrite HS1. cbn [mbind outcome_bind negb].
  destruct (breaks_chain rsi q1 bs Hb Hin1) as (pre & suf & f1 & rsi1 & Hsplit & Hchain & Hlen1).
  rewrite (Next_all_rsi f1 rsi1 rsi q1) in Hchain.
  destruct (Previous_replay_spec suf f1 n rsi q1 (-1) p ltac:(lia) ltac:(lia) Hchain ltac:(lia))
    as (rsi2 & b & Hb2 & ->).
  cbn [mbind outcome_bind].
  assert (Hlb1 : largest_below p (0 :: bs) = Some (default q1 (largest_below p suf))).
  { rewrite Hsplit. apply largest_below_app; [rewrite <- Hsplit; exact Hsorted|lia]. }
  assert (Hbound : forall x, In x (0 :: bs) -> 0 <= x <= len text).
  { intros x [<-|Hx]; [lia|]. rewrite List.Forall_forall in Hall. specialize (Hall x Hx). lia. }
  destruct (largest_below p suf) as [x|] eqn:Elb.
  - (* the replay has found the break *)
    exists rsi2, x. split; [exact Hlb1|].
    apply Previous_loop_found.
    apply largest_below_In in Elb as [Hx _]. apply Hbound.
    rewrite Hsplit. apply in_or_app. right. right. exact Hx.
  - (* no break between the safe point and the entry position: the safe
       point is the break, found by going back once more *)
    cbn [default] in *.
    assert (Hbs : bs <> []).
    { intros ->. destruct Hin1 as [<-|[]].
      destruct (Next_all_step n rsi 0 [] ltac:(lia) Hb) as [(Hz & _)|(? & ? & ? & ? & _ & _ & _ & Hd & _)];
        [lia|discriminate Hd]. }
    destruct n1 as [|n2]; [destruct bs; [congruence|cbn in Hfuel; lia]|].
    cbn [RBBI.Previous_loop]. change (negb (-1 =? -1)) with false. cbv iota.
    assert (Hq1p : q1 < p) by lia.
    destruct (Hsafe' q1 (or_intror (conj Hin1 Hq1p))) as (r2 & q2 & ok2 & HS2 & Hin2).
    destruct (safePrevious_shape n rsi q1 q1 r2 q2 ok2 ltac:(lia) HS2)
      as [(-> & -> & ->)|(-> & Hq2 & ->)].
    + exists rsi2, 0. split; [exact Hlb1|].
      rewrite (safePrevious_any_engine n rsi 0 rsi2 b 0 0 q2 false ltac:(lia) HS2).
      cbn [mbind outcome_bind negb].
      destruct (Z.eqb_spec 0 p); [lia|].
      unfold string_engine at 1. cbn [RBBI.cursor SetPosition StringCursor_Cursor].
      rewrite StringCursor_SetPosition_ok by (cbn; lia). reflexivity.
    + specialize (Hin2 eq_refl).
      rewrite (safePrevious_any_engine n rsi q1 rsi2 b q1 q2 q2 true ltac:(lia) HS2).
      cbn [mbind outcome_bind negb].
      destruct (breaks_chain rsi q2 bs Hb Hin2)
        as (pre2 & suf2 & f2 & rsi3 & Hsplit2 & Hchain2 & Hlen2).
      rewrite (Next_all_rsi f2 rsi3 rsi2 q2) in Hchain2.
      destruct (Previous_replay_spec suf2 f2 n rsi2 q2 (-1) p ltac:(lia) ltac:(lia) Hchain2
        ltac:(lia)) as (rsi4 & b' & Hb4 & ->).
      cbn [mbind outcome_bind].
      assert (Hlb2 : largest_below p (0 :: bs) = Some (default q2 (largest_below p suf2))).
      { rewrite Hsplit2. apply largest_below_app; [rewrite <- Hsplit2; exact Hsorted|lia]. }
      rewrite Hlb1 in Hlb2. injection Hlb2 as Hlb2.
      destruct (largest_below p suf2) as [y|]; cbn in Hlb2; [subst y|lia].
      exists rsi4, q1. split; [exact Hlb1|].
      cbn [default]. apply Previous_loop_found. lia.
Qed.

End Previous_facts.

(** With the forward table [pairs_table], whose breaks of the text [abab]
    are 2 and 4, and a reverse table that stops after one code point,
    [Previous] from position 4 returns position 3, which is no break position;
    the largest one before 4 is 2. *)
Lemma Previous_unsafe_restart : ~ Previous_as_specified.
Proof.
  intros H.
  specialize (H 10%nat (RBBI.newRBBI pairs_data)
    {| RBBI.data := pairs_data; RBBI.lookaheadMatches := [];
       RBBI.ruleStatusIndex := 0; RBBI.cursor := Some (StringCursor.mk text_abab 3) |}
    text_abab 4 [2; 4] 3 true).
  destruct H as [_ H].
  - vm_compute. split; discriminate.
  - reflexivity.
  - reflexivity.
  - destruct (H eq_refl) as [Hl _]. vm_compute in Hl. discriminate Hl.
Qed.


(** * More properties of the code

    ** Runes decoded from UTF-8 *)

Lemma lor_add (a b : Z) (n : Z) :
  0 <= n -> 0 <= b < 2 ^ n -> a mod 2 ^ n = 0 -> Z.lor a b = a + b.
Proof.
  intros Hn Hb Ha.
  rewrite <- Z.lxor_lor, <- Z.add_nocarry_lxor; auto.
  all: apply Z.bits_inj'; intros m Hm; rewrite Z.land_spec, Z.bits_0.
  all: destruct (Z.lt_ge_cases m n) as [Hlt|Hge].
  all: try (rewrite <- (Z.mod_pow2_bits_low a n m) by lia; rewrite Ha, Z.bits_0; reflexivity).
  all: rewrite <- (Z.mod_small b (2 ^ n)) by lia; rewrite Z.mod_pow2_bits_high by lia;
    apply andb_false_r.
Qed.

Lemma land_maskx (c : Z) : Z.land c utf8.maskx = c mod 64.
Proof. change utf8.maskx with (Z.ones 6). apply Z.land_ones. lia. Qed.
Lemma land_mask2 (c : Z) : Z.land c utf8.mask2 = c mod 32.
Proof. change utf8.mask2 with (Z.ones 5). apply Z.land_ones. lia. Qed.
Lemma land_mask3 (c : Z) : Z.land c utf8.mask3 = c mod 16.
Proof. change utf8.mask3 with (Z.ones 4). apply Z.land_ones. lia. Qed.
Lemma land_mask4 (c : Z) : Z.land c utf8.mask4 = c mod 8.
Proof. change utf8.mask4 with (Z.ones 3). apply Z.land_ones. lia. Qed.

(** The lead byte fixes the size and the bounds of the second byte. *)
Lemma first_accept (b : Z) :
  0xC2 <= b < 256 -> utf8.first b < utf8.as_ ->
  let sz := Z.land (utf8.first b) 7 in
  let accept := utf8.acceptRanges (Z.shiftr (utf8.first b) 4) in
  0x80 <= fst accept /\ snd accept <= 0xBF /\
  ((sz = 2 /\ b <= 0xDF) \/
   (sz = 3 /\ 0xE0 <= b <= 0xEF /\ (b = 0xE0 -> fst accept = 0xA0) /\
    (b = 0xED -> snd accept = 0x9F)) \/
   (sz = 4 /\ 0xF0 <= b <= 0xF4 /\ (b = 0xF0 -> fst accept = 0x90) /\
    (b = 0xF4 -> snd accept = 0x8F))).
Proof.
  intros Hb. unfold utf8.first.
  repeat match goal with
  | |- context [?x <? ?y] => destruct (Z.ltb_spec x y); try lia
  | |- context [?x =? ?y] => destruct (Z.eqb_spec x y); try lia
  end; intros Hlt; cbv -[Z.lt Z.le] in Hlt |- *; try lia.
  all: (split; [lia|]); (split; [lia|]).
  all: first [ left; split; [reflexivity|lia]
             | right; left; split; [reflexivity|]; repeat split; intros; lia
             | right; right; split; [reflexivity|]; repeat split; intros; lia ].
Qed.

Lemma pack2 (a b : Z) :
  Z.lor (a * 2 ^ 6) (b mod 64) = a * 64 + b mod 64.
Proof.
  rewrite (lor_add _ _ 6); change (2 ^ 6) with 64; try lia.
  - apply Z.mod_pos_bound; lia.
  - apply Z.mod_mul; lia.
Qed.

Lemma pack3 (a b c : Z) :
  Z.lor (Z.lor (a * 2 ^ 12) (b mod 64 * 2 ^ 6)) (c mod 64)
  = a * 4096 + b mod 64 * 64 + c mod 64.
Proof.
  pose proof (Z.mod_pos_bound b 64 ltac:(lia)).
  rewrite (lor_add (a * 2 ^ 12) _ 12); change (2 ^ 6) with 64; change (2 ^ 12) with 4096;
    try lia; [|apply Z.mod_mul; lia].
  rewrite (lor_add _ _ 6); change (2 ^ 6) with 64; try lia.
  - apply Z.mod_pos_bound; lia.
  - replace (a * 4096 + b mod 64 * 64) with ((a * 64 + b mod 64) * 64) by lia.
    apply Z.mod_mul; lia.
Qed.

Lemma pack4 (a b c e : Z) :
  Z.lor (Z.lor (Z.lor (a * 2 ^ 18) (b mod 64 * 2 ^ 12)) (c mod 64 * 2 ^ 6)) (e mod 64)
  = a * 262144 + b mod 64 * 4096 + c mod 64 * 64 + e mod 64.
Proof.
  pose proof (Z.mod_pos_bound b 64 ltac:(lia)).
  pose proof (Z.mod_pos_bound c 64 ltac:(lia)).
  rewrite (lor_add (a * 2 ^ 18) _ 18); change (2 ^ 6) with 64; change (2 ^ 12) with 4096;
    change (2 ^ 18) with 262144; try lia; [|apply Z.mod_mul; lia].
  rewrite (lor_add _ (c mod 64 * 64) 12); change (2 ^ 12) with 4096; try lia.
  2:{ replace (a * 262144 + b mod 64 * 4096) with ((a * 64 + b mod 64) * 4096) by lia.
      apply Z.mod_mul; lia. }
  rewrite (lor_add _ _ 6); change (2 ^ 6) with 64; try lia.
  - apply Z.mod_pos_bound; lia.
  - replace (a * 262144 + b mod 64 * 4096 + c mod 64 * 64)
      with ((a * 4096 + b mod 64 * 64 + c mod 64) * 64) by lia.
    apply Z.mod_mul; lia.
Qed.

Lemma DecodeRuneInString_lead (b0 : byte) (t' : list byte) :
  utf8.first (u8 b0) < utf8.as_ ->
  utf8.DecodeRuneInString (b0 :: t') =
      let sz := Z.land (utf8.first (u8 b0)) 7 in
      let accept := utf8.acceptRanges (Z.shiftr (utf8.first (u8 b0)) 4) in
      if len (b0 :: t') <? sz then (utf8.RuneError, 1)
      else match t' with
      | [] => (utf8.RuneError, 1)
      | b1 :: t1 =>
        if (u8 b1 <? fst accept) || (snd accept <? u8 b1) then (utf8.RuneError, 1)
        else if sz <=? 2 then
          (Z.lor (Z.shiftl (Z.land (u8 b0) utf8.mask2) 6) (Z.land (u8 b1) utf8.maskx), 2)
        else match t1 with
        | [] => (utf8.RuneError, 1)
        | b2 :: t2 =>
          if utf8.not_cont (u8 b2) then (utf8.RuneError, 1)
          else if sz <=? 3 then
            (Z.lor (Z.lor (Z.shiftl (Z.land (u8 b0) utf8.mask3) 12)
                          (Z.shiftl (Z.land (u8 b1) utf8.maskx) 6))
                   (Z.land (u8 b2) utf8.maskx), 3)
          else match t2 with
          | [] => (utf8.RuneError, 1)
          | b3 :: _ =>
            if utf8.not_cont (u8 b3) then (utf8.RuneError, 1)
            else
              (Z.lor (Z.lor (Z.lor (Z.shiftl (Z.land (u8 b0) utf8.mask4) 18)
                                   (Z.shiftl (Z.land (u8 b1) utf8.maskx) 12))
                            (Z.shiftl (Z.land (u8 b2) utf8.maskx) 6))
                     (Z.land (u8 b3) utf8.maskx), 4)
          end
        end
      end.
Proof.
  intros Hlt. unfold utf8.DecodeRuneInString.
  destruct (Z.leb_spec utf8.as_ (utf8.first (u8 b0))); [lia|]. reflexivity.
Qed.

Lemma RuneError_scalar : scalar_value utf8.RuneError.
Proof. unfold scalar_value, utf8.RuneError. lia. Qed.

Lemma RuneError_decoded (k : Z) : k <= 1 -> decoded utf8.RuneError k.
Proof. intros Hk. split; [apply RuneError_scalar|right; auto]. Qed.

Lemma DecodeRuneInString_range (s : list byte) :
  decoded (fst (utf8.DecodeRuneInString s)) (snd (utf8.DecodeRuneInString s)).
Proof.
  destruct s as [|b0 t]; [apply RuneError_decoded; simpl; lia|].
  pose proof (u8_range b0) as H0.
  destruct (first_cases (u8 b0) H0) as [[R F]|[[R F]|[R [F _]]]].
  - pose proof (DecodeRuneInString_shape (b0 :: t)) as Hs. cbn [decodes_as] in Hs.
    destruct Hs as [[Hk Hr]|[Hc _]]; [|lia].
    destruct (Z.ltb_spec (u8 b0) 128); [|lia]. rewrite Hr, Hk.
    unfold decoded, scalar_value, rune_size. ifs; try lia.
  - pose proof (DecodeRuneInString_shape (b0 :: t)) as Hs. cbn [decodes_as] in Hs.
    destruct Hs as [[Hk Hr]|[Hc Hm]].
    + destruct (Z.ltb_spec (u8 b0) 128); [lia|]. rewrite Hr, Hk.
      apply RuneError_decoded; lia.
    + exfalso. unfold utf8.DecodeRuneInString in Hm. rewrite F in Hm.
      change (utf8.as_ <=? utf8.xx) with true in Hm. cbn [fst snd] in Hm.
      destruct Hm as [(?&?&?&?&?)|[(?&?&?&?&?&?)|(?&?&?&?&?&?&?)]]; lia.
  - rewrite (DecodeRuneInString_lead b0 t F).
    pose proof (first_accept (u8 b0) ltac:(lia) F) as Hacc. cbv zeta in Hacc |- *.
    generalize dependent (Z.land (utf8.first (u8 b0)) 7). intros sz.
    generalize dependent (utf8.acceptRanges (Z.shiftr (utf8.first (u8 b0)) 4)).
    intros [lo hi]. cbn [fst snd]. intros (Hlo & Hhi & Hcase).
    unfold utf8.not_cont, utf8.locb, utf8.hicb.
    destruct t as [|b1 [|b2 [|b3 t3]]]; rewrite ?len_cons;
      try pose proof (len_nonneg t3);
      change (len (@nil byte)) with 0; ifs; cbn [fst snd];
      try (apply RuneError_decoded; lia).
    all: try pose proof (u8_range b1); try pose proof (u8_range b2);
      try pose proof (u8_range b3).
    all: rewrite ?land_maskx, ?land_mask2, ?land_mask3, ?land_mask4, ?Z.shiftl_mul_pow2 by lia.
    all: rewrite ?pack4, ?pack3, ?pack2.
    all: unfold decoded, scalar_value, rune_size.
    all: (split; [Z.div_mod_to_equations; lia|left]).
    all: ifs; try (Z.div_mod_to_equations; lia).
Qed.

Lemma DecodeLastRuneInString_range (s : list byte) :
  decoded (fst (utf8.DecodeLastRuneInString s)) (snd (utf8.DecodeLastRuneInString s)).
Proof.
  destruct s as [|b0 t] eqn:E; [apply RuneError_decoded; simpl; lia|]. rewrite <- E.
  assert (Hne : s <> []) by (subst; discriminate).
  destruct (utf8.DecodeLastRuneInString s) as [r k] eqn:Hd. cbn [fst snd].
  destruct (DecodeLastRuneInString_inv s r k Hne Hd) as [(-> & Hb & ->)|[(-> & Hb & ->)|(Hk & _ & Hdec)]].
  - assert (0 <= utf8.byte_at s (len s - 1)).
    { unfold utf8.byte_at. destruct (s !! _); [apply u8_range|lia]. }
    unfold decoded, scalar_value, rune_size. ifs; lia.
  - apply RuneError_decoded; lia.
  - pose proof (DecodeRuneInString_range (slice_from s (len s - k))) as Hr.
    rewrite Hdec in Hr. exact Hr.
Qed.

Lemma StringCursor_Next_decoded (c c' : StringCursor.t) (r : rune) :
  StringCursor.Next c = Ret (c', (r, true)) ->
  decoded r (StringCursor.position c' - StringCursor.position c) /\
  1 <= StringCursor.position c' - StringCursor.position c.
Proof.
  intros H. unfold StringCursor.Next in H.
  destruct (Z.leb_spec (len (StringCursor.text c)) (StringCursor.position c)); [discriminate H|].
  destruct (Z.ltb_spec (StringCursor.position c) 0); [discriminate H|].
  pose proof (DecodeRuneInString_range (slice_from (StringCursor.text c) (StringCursor.position c))) as Hr.
  destruct (utf8.DecodeRuneInString _) as [r0 k0] eqn:Hd.
  apply DecodeRuneInString_size in Hd; [|apply slice_from_nonempty; lia].
  injection H as <- <-. cbn [fst snd StringCursor.position] in *.
  replace (StringCursor.position c + k0 - StringCursor.position c) with k0 by lia.
  split; [exact Hr|lia].
Qed.

Lemma StringCursor_Previous_decoded (c c' : StringCursor.t) (r : rune) :
  StringCursor.Previous c = Ret (c', (r, true)) ->
  decoded r (StringCursor.position c - StringCursor.position c') /\
  1 <= StringCursor.position c - StringCursor.position c'.
Proof.
  intros H. unfold StringCursor.Previous in H.
  destruct (Z.leb_spec (StringCursor.position c) 0); [discriminate H|].
  destruct (Z.ltb_spec (len (StringCursor.text c)) (StringCursor.position c)); [discriminate H|].
  pose proof (DecodeLastRuneInString_range (slice_to (StringCursor.text c) (StringCursor.position c))) as Hr.
  destruct (StringCursor_Previous_step (StringCursor.text c) (StringCursor.position c) ltac:(lia))
    as (r1 & size & Hsz & Hp).
  unfold StringCursor.Previous in Hp. cbn [StringCursor.text StringCursor.position] in Hp.
  destruct (Z.leb_spec (StringCursor.position c) 0); [lia|].
  destruct (Z.ltb_spec (len (StringCursor.text c)) (StringCursor.position c)); [lia|].
  destruct (utf8.DecodeLastRuneInString _) as [r0 k0] eqn:Hd.
  injection Hp as Hk0 Hr1. injection H as <- <-. cbn [fst snd StringCursor.position] in *.
  replace (StringCursor.position c - (StringCursor.position c - k0)) with k0 by lia.
  split; [exact Hr|lia].
Qed.

(** X3. A rune that [Next] or [Previous] of a [StringCursor] returns with
    [ok = true] is a Unicode scalar value: between 0 and [0x10FFFF] and no
    surrogate.  The number of bytes the cursor has moved is the length of the
    UTF-8 encoding of that rune (1 below [0x80], 2 below [0x800], 3 below
    [0x10000], 4 above), or it is 1 and the rune is [U+FFFD], the answer to
    bytes that are no well-formed encoding. *)
Theorem StringCursor_runes_scalar (c c' : StringCursor.t) (r : rune) :
  Next c = Ret (c', (r, true)) \/ Previous c = Ret (c', (r, true)) ->
  scalar_value r /\
  let k := Z.abs (StringCursor.position c' - StringCursor.position c) in
  k = rune_size r \/ (k = 1 /\ r = utf8.RuneError).
Proof.
  intros [H|H]; cbn [Next Previous StringCursor_Cursor] in H.
  - apply StringCursor_Next_decoded in H as [[Hs Hk] H1]. split; [exact Hs|]. cbv zeta.
    rewrite Z.abs_eq by lia. destruct Hk as [Hk|[Hk Hr]]; [left; exact Hk|right; split; [lia|exact Hr]].
  - apply StringCursor_Previous_decoded in H as [[Hs Hk] H1]. split; [exact Hs|]. cbv zeta.
    rewrite Z.abs_neq by lia.
    replace (- (StringCursor.position c' - StringCursor.position c))
      with (StringCursor.position c - StringCursor.position c') by lia.
    destruct Hk as [Hk|[Hk Hr]]; [left; exact Hk|right; split; [lia|exact Hr]].
Qed.

Lemma StringCursor_runes_scalar_witness :
  (Next (StringCursor.mk euro 1) = Ret (StringCursor.mk euro 4, (0x20AC, true)) \/
   Previous (StringCursor.mk euro 1) = Ret (StringCursor.mk euro 4, (0x20AC, true))) /\
  scalar_value 0x20AC /\
  let k := Z.abs (4 - 1) in k = rune_size 0x20AC \/ (k = 1 /\ 0x20AC = utf8.RuneError).
Proof.
  assert (H : Next (StringCursor.mk euro 1) = Ret (StringCursor.mk euro 4, (0x20AC, true)) \/
              Previous (StringCursor.mk euro 1) = Ret (StringCursor.mk euro 4, (0x20AC, true)))
    by (left; vm_compute; reflexivity).
  split; [exact H|].
  exact (StringCursor_runes_scalar (StringCursor.mk euro 1) (StringCursor.mk euro 4) 0x20AC H).
Defined.

(** ** [StringCursor]: bounds and sequences of calls *)

Lemma StringCursor_Next_wf (c : StringCursor.t) :
  StringCursor.wf c ->
  exists c' r ok, StringCursor.Next c = Ret (c', (r, ok)) /\
    StringCursor.text c' = StringCursor.text c /\ StringCursor.wf c' /\
    (ok = false <-> StringCursor.position c = len (StringCursor.text c)) /\
    (if ok then 1 <= StringCursor.position c' - StringCursor.position c <= 4
     else c' = c /\ r = -1).
Proof.
  destruct c as [text p]. unfold StringCursor.wf. cbn [StringCursor.text StringCursor.position].
  intros Hwf. unfold StringCursor.Next. cbn [StringCursor.text StringCursor.position].
  destruct (Z.leb_spec (len text) p).
  - exists (StringCursor.mk text p), (-1), false. cbn [StringCursor.text StringCursor.position].
    repeat split; auto; lia.
  - destruct (Z.ltb_spec p 0); [lia|].
    destruct (utf8.DecodeRuneInString (slice_from text p)) as [r k] eqn:Hd.
    pose proof Hd as Hsz. apply DecodeRuneInString_size in Hsz; [|apply slice_from_nonempty; lia].
    rewrite len_slice_from in Hsz by lia.
    exists (StringCursor.mk text (p + k)), r, true.
    cbn [StringCursor.text StringCursor.position].
    repeat split; try lia; try discriminate.
Qed.

Lemma StringCursor_Previous_wf (c : StringCursor.t) :
  StringCursor.wf c ->
  exists c' r ok, StringCursor.Previous c = Ret (c', (r, ok)) /\
    StringCursor.text c' = StringCursor.text c /\ StringCursor.wf c' /\
    (ok = false <-> StringCursor.position c = 0) /\
    (if ok then 1 <= StringCursor.position c - StringCursor.position c' <= 4
     else c' = c /\ r = -1).
Proof.
  destruct c as [text p]. unfold StringCursor.wf. cbn [StringCursor.text StringCursor.position].
  intros Hwf. unfold StringCursor.Previous. cbn [StringCursor.text StringCursor.position].
  destruct (Z.leb_spec p 0).
  - exists (StringCursor.mk text p), (-1), false. cbn [StringCursor.text StringCursor.position].
    repeat split; auto; lia.
  - destruct (Z.ltb_spec (len text) p); [lia|].
    destruct (utf8.DecodeLastRuneInString (slice_to text p)) as [r k] eqn:Hd.
    assert (Hne : slice_to text p <> []).
    { intros E. pose proof (len_slice_to text p ltac:(lia)) as Hl. rewrite E in Hl.
      change (len (@nil byte)) with 0 in Hl. lia. }
    pose proof (DecodeLastRuneInString_inv _ _ _ Hne Hd) as Hinv.
    rewrite len_slice_to in Hinv by lia.
    exists (StringCursor.mk text (p - k)), r, true.
    cbn [StringCursor.text StringCursor.position].
    repeat split; try lia; try discriminate.
Qed.

(** X1. A [StringCursor] whose position is within its text: [Next] returns (it
    never panics) and leaves a cursor over the same text with its position
    within the text; [ok = false] exactly at the end of the text, where the
    cursor is unchanged and the rune is -1; otherwise the position has
    advanced by one to four bytes. *)
Theorem StringCursor_Next_bounds (c : StringCursor.t) :
  StringCursor.wf c ->
  exists c' r ok, Next c = Ret (c', (r, ok)) /\
    StringCursor.text c' = StringCursor.text c /\ StringCursor.wf c' /\
    (ok = false <-> StringCursor.position c = len (StringCursor.text c)) /\
    (if ok then 1 <= StringCursor.position c' - StringCursor.position c <= 4
     else c' = c /\ r = -1).
Proof. exact (StringCursor_Next_wf c). Qed.

Lemma StringCursor_Next_bounds_witness :
  StringCursor.wf (StringCursor.mk euro 1) /\
  exists c' r ok, Next (StringCursor.mk euro 1) = Ret (c', (r, ok)) /\
    StringCursor.text c' = euro /\ StringCursor.wf c' /\
    (ok = false <-> 1 = len euro) /\
    (if ok then 1 <= StringCursor.position c' - 1 <= 4 else c' = StringCursor.mk euro 1 /\ r = -1).
Proof.
  assert (Hwf : StringCursor.wf (StringCursor.mk euro 1)) by (vm_compute; split; discriminate).
  split; [exact Hwf|]. exact (StringCursor_Next_bounds (StringCursor.mk euro 1) Hwf).
Defined.

(** X2. A [StringCursor] whose position is within its text: [Previous] returns
    (it never panics) and leaves a cursor over the same text with its position
    within the text; [ok = false] exactly at the start of the text, where the
    cursor is unchanged and the rune is -1; otherwise the position has moved
    back by one to four bytes. *)
Theorem StringCursor_Previous_bounds (c : StringCursor.t) :
  StringCursor.wf c ->
  exists c' r ok, Previous c = Ret (c', (r, ok)) /\
    StringCursor.text c' = StringCursor.text c /\ StringCursor.wf c' /\
    (ok = false <-> StringCursor.position c = 0) /\
    (if ok then 1 <= StringCursor.position c - StringCursor.position c' <= 4
     else c' = c /\ r = -1).
Proof. exact (StringCursor_Previous_wf c). Qed.

Lemma StringCursor_Previous_bounds_witness :
  StringCursor.wf (StringCursor.mk euro 4) /\
  exists c' r ok, Previous (StringCursor.mk euro 4) = Ret (c', (r, ok)) /\
    StringCursor.text c' = euro /\ StringCursor.wf c' /\
    (ok = false <-> 4 = 0) /\
    (if ok then 1 <= 4 - StringCursor.position c' <= 4 else c' = StringCursor.mk euro 4 /\ r = -1).
Proof.
  assert (Hwf : StringCursor.wf (StringCursor.mk euro 4)) by (vm_compute; split; discriminate).
  split; [exact Hwf|]. exact (StringCursor_Previous_bounds (StringCursor.mk euro 4) Hwf).
Defined.

Lemma StringCursor_SetPosition_wf (c : StringCursor.t) (p : Z) :
  StringCursor.wf c ->
  StringCursor.text (fst (StringCursor.SetPosition c p)) = StringCursor.text c /\
  StringCursor.wf (fst (StringCursor.SetPosition c p)).
Proof.
  intros Hwf. unfold StringCursor.SetPosition.
  destruct (Z.ltb_spec p 0); [auto|].
  destruct (Z.ltb_spec (len (StringCursor.text c)) p); [auto|].
  cbn [fst]. unfold StringCursor.wf. cbn [StringCursor.text StringCursor.position].
  split; [reflexivity|lia].
Qed.

(** X5. No sequence of calls of [SetPosition], [Next] and [Previous] on a
    cursor made by [NewStringCursor] panics, changes the text, or leaves the
    position outside the text: the panics of the slice expressions in [Next]
    and [Previous] cannot be reached through the methods. *)
Theorem StringCursor_calls_safe (text : list byte) (ms : list cursor_call) :
  exists c, calls (StringCursor.NewStringCursor text) ms = Ret c /\
            StringCursor.text c = text /\ StringCursor.wf c.
Proof.
  assert (Hgen : forall c, StringCursor.wf c ->
    exists c', calls c ms = Ret c' /\ StringCursor.text c' = StringCursor.text c /\
               StringCursor.wf c').
  { induction ms as [|m ms IH]; intros c Hwf; [exists c; auto|].
    cbn [calls].
    assert (Hc : exists c1, call c m = Ret c1 /\ StringCursor.text c1 = StringCursor.text c /\
                            StringCursor.wf c1).
    { destruct m as [p| |]; cbn [call].
      - destruct (StringCursor_SetPosition_wf c p Hwf) as [Ht Hw]. eauto.
      - destruct (StringCursor_Next_wf c Hwf) as (c1 & r & ok & -> & Ht & Hw & _). simpl. eauto.
      - destruct (StringCursor_Previous_wf c Hwf) as (c1 & r & ok & -> & Ht & Hw & _). simpl. eauto. }
    destruct Hc as (c1 & -> & Ht & Hw). simpl.
    destruct (IH c1 Hw) as (c' & Hc' & Ht' & Hw'). exists c'. rewrite Ht', Ht. auto. }
  apply (Hgen (StringCursor.NewStringCursor text)).
  unfold StringCursor.wf, StringCursor.NewStringCursor. cbn. pose proof (len_nonneg text). lia.
Qed.

(** ** [StringCursor]: bytes, and boundaries of the text *)

Lemma slice_from_lookup {A : Type} (l : list A) (p i : Z) :
  0 <= p -> 0 <= i -> slice_from l p !! Z.to_nat i = l !! Z.to_nat (p + i).
Proof.
  intros Hp Hi. unfold slice_from. rewrite lookup_drop. f_equal. lia.
Qed.

(** X4. What [Next] of a [StringCursor] reads at a position that holds the
    byte [b]: either it advances by one byte, and the rune is [b] itself when
    [b] is ASCII and [U+FFFD] otherwise (ill-formed input is consumed one byte
    at a time); or it advances by two to four bytes that all lie within the
    text, [b] is a lead byte of at least [0xC2], and every byte after it that
    the call consumed is a continuation byte. *)
Theorem StringCursor_Next_bytes (text : list byte) (p : Z) (b : byte) :
  0 <= p -> text !! Z.to_nat p = Some b ->
  exists r k, Next (StringCursor.mk text p) = Ret (StringCursor.mk text (p + k), (r, true)) /\
    ((k = 1 /\ r = if u8 b <? 0x80 then u8 b else utf8.RuneError) \/
     (2 <= k <= 4 /\ 0xC2 <= u8 b /\ p + k <= len text /\
      forall i, 1 <= i < k ->
        exists bi, text !! Z.to_nat (p + i) = Some bi /\ cont bi)).
Proof.
  intros Hp Hb.
  assert (Hlen : p < len text).
  { apply lookup_lt_Some in Hb. unfold len. lia. }
  cbn [Next StringCursor_Cursor]. unfold StringCursor.Next.
  cbn [StringCursor.text StringCursor.position].
  destruct (Z.leb_spec (len text) p); [lia|]. destruct (Z.ltb_spec p 0); [lia|].
  destruct (utf8.DecodeRuneInString (slice_from text p)) as [r k] eqn:Hd.
  exists r, k. split; [reflexivity|].
  pose proof (DecodeRuneInString_size _ _ _ (slice_from_nonempty text p ltac:(lia)) Hd) as Hsz.
  rewrite len_slice_from in Hsz by lia.
  apply DecodeRuneInString_inv in Hd.
  assert (Hl : forall i, 0 <= i -> slice_from text p !! Z.to_nat i = text !! Z.to_nat (p + i)).
  { intros i Hi. apply slice_from_lookup; lia. }
  destruct (slice_from text p) as [|b0 t] eqn:Es; [simpl in Hd; lia|].
  assert (b0 = b).
  { specialize (Hl 0 ltac:(lia)). rewrite Z.add_0_r, Hb in Hl. simpl in Hl. congruence. }
  subst b0. cbn [decodes_as] in Hd.
  destruct Hd as [[-> Hr]|[Hc Hm]].
  - left. split; [reflexivity|]. destruct (u8 b <? 128); exact Hr.
  - right. split; [|split; [exact Hc|split; [lia|]]].
    + destruct Hm as [(?&?&?&?&?)|[(?&?&?&?&?&?)|(?&?&?&?&?&?&?)]]; lia.
    + intros i Hi. rewrite <- Hl by lia.
      destruct Hm as [(b1&t1&->&->&C1&_)|[(b1&b2&t2&->&->&C1&C2&_)|(b1&b2&b3&t3&->&->&C1&C2&C3&_)]].
      * assert (i = 1) by lia. subst i. exists b1. auto.
      * assert (i = 1 \/ i = 2) as [->| ->] by lia; [exists b1|exists b2]; auto.
      * assert (i = 1 \/ i = 2 \/ i = 3) as [->|[->| ->]] by lia;
          [exists b1|exists b2|exists b3]; auto.
Qed.

Lemma StringCursor_Next_bytes_witness :
  0 <= 1 /\ euro !! Z.to_nat 1 = Some xe2%byte /\
  exists r k, Next (StringCursor.mk euro 1) = Ret (StringCursor.mk euro (1 + k), (r, true)) /\
    ((k = 1 /\ r = if u8 xe2 <? 0x80 then u8 xe2 else utf8.RuneError) \/
     (2 <= k <= 4 /\ 0xC2 <= u8 xe2 /\ 1 + k <= len euro /\
      forall i, 1 <= i < k ->
        exists bi, euro !! Z.to_nat (1 + i) = Some bi /\ cont bi)).
Proof.
  split; [lia|]. split; [reflexivity|].
  apply (StringCursor_Next_bytes euro 1 xe2%byte); [lia|reflexivity].
Defined.

(** Forward steps between two boundaries. *)
Lemma Next_times_reach (text : list byte) (n : nat) :
  forall p1 p2,
    p2 - p1 <= Z.of_nat n ->
    StringCursor.on_boundary text p1 = true ->
    StringCursor.on_boundary text p2 = true ->
    p1 <= p2 ->
    exists k, Z.of_nat k <= p2 - p1 /\
      Next_times k (StringCursor.mk text p1) = Ret (StringCursor.mk text p2) /\
      Previous_times k (StringCursor.mk text p2) = Ret (StringCursor.mk text p1).
Proof.
  induction n as [|n IH]; intros p1 p2 Hn H1 H2 Hle.
  - assert (p2 = p1) by lia. subst. exists 0%nat. simpl. repeat split; lia.
  - destruct (Z.eq_dec p1 p2) as [->|Hne].
    { exists 0%nat. simpl. repeat split; lia. }
    pose proof (on_boundary_inv _ _ H1) as [Hr1 _].
    pose proof (on_boundary_inv _ _ H2) as [Hr2 Hs2].
    destruct (StringCursor_Next_step text p1 ltac:(lia)) as (r & size & Hsz & HN).
    assert (Hd : snd (utf8.DecodeRuneInString (slice_from text p1)) = size).
    { unfold StringCursor.Next in HN. cbn [StringCursor.text StringCursor.position] in HN.
      destruct (Z.leb_spec (len text) p1); [lia|]. destruct (Z.ltb_spec p1 0); [lia|].
      destruct (utf8.DecodeRuneInString (slice_from text p1)) as [r0 k0].
      injection HN as ? ?. cbn [snd]. lia. }
    assert (Hsz4 : size <= 4).
    { destruct (utf8.DecodeRuneInString (slice_from text p1)) as [r0 k0] eqn:E.
      apply DecodeRuneInString_size in E; [|apply slice_from_nonempty; lia].
      cbn [snd] in Hd. lia. }
    assert (Hfit : p1 + size <= p2).
    { destruct (Z.le_gt_cases (p1 + size) p2) as [|Hgt]; [assumption|exfalso].
      pose proof (splits_rune_false text p2 (p2 - p1) Hs2 ltac:(lia) ltac:(lia)) as Hsp.
      replace (p2 - (p2 - p1)) with p1 in Hsp by lia. lia. }
    pose proof (on_boundary_Next (StringCursor.mk text p1) _ r H1 HN) as H1'.
    cbn [StringCursor.text StringCursor.position] in H1'.
    destruct (IH (p1 + size) p2 ltac:(lia) H1' H2 Hfit) as (k & Hk & Hf & Hb).
    exists (S k). split; [lia|]. split.
    + cbn [Next_times]. rewrite HN. simpl. exact Hf.
    + destruct (StringCursor_Next_Previous (StringCursor.mk text p1) H1 ltac:(simpl; lia))
        as (r' & c1 & HN' & HP).
      cbn [StringCursor.text StringCursor.position] in HN'. rewrite HN in HN'.
      injection HN' as <- <-.
      clear - Hb HP. revert Hb. generalize (StringCursor.mk text p2).
      induction k as [|k IHk]; intros c Hb.
      * simpl in Hb. injection Hb as ->. cbn [Previous_times]. rewrite HP. reflexivity.
      * cbn [Previous_times] in Hb |- *.
        destruct (StringCursor.Previous c) as [[c2 rr]| |]; simpl in Hb |- *; try discriminate Hb.
        apply IHk. exact Hb.
Qed.

(** X6. Positions are connected in both directions: from a boundary [p1] of
    the text, at most [p2 - p1] calls of [Next] reach every boundary [p2]
    after it, without overshooting it, and the same number of calls of
    [Previous] from [p2] lead back to [p1]. *)
Theorem StringCursor_boundaries_connected (text : list byte) (p1 p2 : Z) :
  StringCursor.on_boundary text p1 = true ->
  StringCursor.on_boundary text p2 = true ->
  p1 <= p2 ->
  exists k, Z.of_nat k <= p2 - p1 /\
    Next_times k (StringCursor.mk text p1) = Ret (StringCursor.mk text p2) /\
    Previous_times k (StringCursor.mk text p2) = Ret (StringCursor.mk text p1).
Proof.
  intros H1 H2 Hle. apply (Next_times_reach text (Z.to_nat (p2 - p1))); auto. lia.
Qed.

Lemma StringCursor_boundaries_connected_witness :
  StringCursor.on_boundary euro 1 = true /\ StringCursor.on_boundary euro 5 = true /\ 1 <= 5 /\
  exists k, Z.of_nat k <= 5 - 1 /\
    Next_times k (StringCursor.mk euro 1) = Ret (StringCursor.mk euro 5) /\
    Previous_times k (StringCursor.mk euro 5) = Ret (StringCursor.mk euro 1).
Proof.
  split; [reflexivity|]. split; [reflexivity|]. split; [lia|].
  apply (StringCursor_boundaries_connected euro 1 5); [reflexivity|reflexivity|lia].
Defined.

Lemma Next_times_boundary (k : nat) :
  forall c c', 
    StringCursor.on_boundary (StringCursor.text c) (StringCursor.position c) = true ->
    Next_times k c = Ret c' ->
    StringCursor.text c' = StringCursor.text c /\
    StringCursor.on_boundary (StringCursor.text c') (StringCursor.position c') = true.
Proof.
  induction k as [|k IH]; intros c c' Hb H.
  - simpl in H. injection H as <-. auto.
  - cbn [Next_times] in H.
    pose proof (on_boundary_inv _ _ Hb) as [Hr _].
    destruct (StringCursor_Next_wf c Hr) as (c1 & r & ok & HN & Ht & Hw & _ & Hok).
    rewrite HN in H. simpl in H.
    assert (Hb1 : StringCursor.on_boundary (StringCursor.text c1) (StringCursor.position c1) = true).
    { destruct ok; [exact (on_boundary_Next c c1 r Hb HN)|]. destruct Hok as [-> _]. exact Hb. }
    destruct (IH c1 c' Hb1 H) as [Ht' Hb']. split; [congruence|exact Hb'].
Qed.

(** X7. The positions that calls of [Next] reach from the cursor
    [NewStringCursor] makes are exactly the boundaries of the text: the
    positions within the text that do not split a well-formed multi-byte
    rune. *)
Theorem StringCursor_boundaries_reached (text : list byte) (p : Z) :
  StringCursor.on_boundary text p = true <->
  exists k, Next_times k (StringCursor.NewStringCursor text) = Ret (StringCursor.mk text p).
Proof.
  split.
  - intros Hb. pose proof (on_boundary_inv _ _ Hb) as [Hr _].
    destruct (Next_times_reach text (Z.to_nat p) 0 p ltac:(lia) (on_boundary_start text) Hb
                ltac:(lia)) as (k & _ & Hf & _).
    exists k. exact Hf.
  - intros [k Hk].
    destruct (Next_times_boundary k (StringCursor.NewStringCursor text) _
                (on_boundary_start text) Hk) as [_ Hb]. exact Hb.
Qed.

(** ** The trie: lookups that cannot panic *)

Lemma readData_values (t : ucpTrie.t) (i : Z) (v : Z) :
  slice_index (values t) i = Ret v -> ucpTrie.readData t i = Ret v.
Proof.
  unfold values, ucpTrie.readData.
  destruct (ucpTrie.valueWidth t =? ucpTrie.ucpTrieValueWidth8).
  - unfold slice_index. destruct (i <? 0); [discriminate|].
    rewrite list_lookup_fmap. destruct (ucpTrie.data8 t !! Z.to_nat i); simpl; congruence.
  - destruct (ucpTrie.valueWidth t =? ucpTrie.ucpTrieValueWidth16); [auto|].
    destruct (ucpTrie.valueWidth t =? ucpTrie.ucpTrieValueWidth32); [auto|].
    unfold slice_index. destruct (i <? 0); [discriminate|]. rewrite lookup_nil. discriminate.
Qed.

Lemma slice_index_Ret {A : Type} (l : list A) (i : Z) :
  0 <= i < len l -> exists a, slice_index l i = Ret a /\ l !! Z.to_nat i = Some a.
Proof.
  intros Hi. unfold slice_index. destruct (Z.ltb_spec i 0); [lia|].
  destruct (lookup_lt_is_Some_2 l (Z.to_nat i)) as [a Ha]; [unfold len in Hi; lia|].
  rewrite Ha. eauto.
Qed.

Lemma land_fast_mask (c : Z) : Z.land c ucpTrie.ucpTrieFastDataMask = c mod 64.
Proof. change ucpTrie.ucpTrieFastDataMask with (Z.ones 6). apply Z.land_ones. lia. Qed.

Lemma flat_total (t : ucpTrie.t) (codePoint : rune) :
  flat t = true -> 0 <= codePoint ->
  exists i v, values t !! Z.to_nat i = Some v /\ 0 <= i /\
    ucpTrie.fastGet t codePoint = Ret v /\
    (0xffff < codePoint <= 0x10ffff -> i = ucpTrie.dataLength t - 2) /\
    (0x10ffff < codePoint -> i = ucpTrie.dataLength t - 1) /\
    (codePoint <= 0xffff ->
     exists e, ucpTrie.index t !! Z.to_nat (codePoint / 64) = Some e /\
               i = e + codePoint mod 64).
Proof.
  unfold flat. rewrite !andb_true_iff, forallb_forall.
  intros [[[[Hlen Hblk] Hhigh] Hdl] Hst] Hcp.
  apply Z.leb_le in Hlen, Hhigh, Hdl, Hst.
  change ucpTrie.ucpTrieBmpIndexLength with 1024 in *.
  change ucpTrie.ucpTrieHighValueNegDataOffset with 2 in *.
  change ucpTrie.ucpTrieFastDataBlockLength with 64 in *.
  unfold ucpTrie.fastGet, ucpTrie.codePointIndex.
  destruct (Z.leb_spec codePoint 0xffff) as [Hbmp|Hsup].
  - unfold ucpTrie.fastIndex. change ucpTrie.ucpTrieFastShift with 6.
    rewrite Z.shiftr_div_pow2 by lia. change (2 ^ 6) with 64.
    assert (Hq : 0 <= codePoint / 64 < 1024) by (Z.div_mod_to_equations; lia).
    destruct (slice_index_Ret (ucpTrie.index t) (codePoint / 64) ltac:(lia)) as (e & -> & He).
    simpl. rewrite land_fast_mask.
    assert (Hin : In e (take (Z.to_nat 1024) (ucpTrie.index t))).
    { apply list_elem_of_In. apply (list_elem_of_lookup_2 _ (Z.to_nat (codePoint / 64))).
      rewrite lookup_take_lt by lia. exact He. }
    apply Hblk in Hin. apply andb_true_iff in Hin as [He0 He1].
    apply Z.leb_le in He0, He1.
    pose proof (Z.mod_pos_bound codePoint 64 ltac:(lia)).
    destruct (slice_index_Ret (values t) (e + codePoint mod 64) ltac:(lia)) as (v & Hv & Hv').
    exists (e + codePoint mod 64), v. split; [exact Hv'|]. split; [lia|].
    split; [apply readData_values; exact Hv|]. split; [lia|]. split; [lia|].
    intros _. exists e. auto.
  - destruct (Z.leb_spec codePoint 0x10ffff).
    + unfold ucpTrie.smallIndex. destruct (Z.leb_spec (ucpTrie.highStart t) codePoint); [|lia].
      simpl. change ucpTrie.ucpTrieHighValueNegDataOffset with 2.
      destruct (slice_index_Ret (values t) (ucpTrie.dataLength t - 2) ltac:(lia)) as (v & Hv & Hv').
      exists (ucpTrie.dataLength t - 2), v. split; [exact Hv'|]. split; [lia|].
      split; [apply readData_values; exact Hv|]. repeat split; intros; lia.
    + simpl. change ucpTrie.ucpTrieErrorValueNegDataOffset with 1.
      destruct (slice_index_Ret (values t) (ucpTrie.dataLength t - 1) ltac:(lia)) as (v & Hv & Hv').
      exists (ucpTrie.dataLength t - 1), v. split; [exact Hv'|]. split; [lia|].
      split; [apply readData_values; exact Hv|]. repeat split; intros; lia.
Qed.

(** X8. A trie whose index has an entry for each of the 1024 blocks of the
    basic multilingual plane, each block of 64 values within the stored
    values, with [highStart] at most [0x10000] and with the high value and the
    error value stored: [fastGet] returns a stored value for every code point
    that is not negative.  Up to [0xFFFF] it is the value at
    [index[c / 64] + c mod 64]; from [0x10000] to [0x10FFFF] it is the high
    value at [dataLength - 2]; above [0x10FFFF] it is the error value at
    [dataLength - 1]. *)
Theorem fastGet_flat_total (t : ucpTrie.t) (codePoint : rune) :
  flat t = true -> 0 <= codePoint ->
  exists i v, values t !! Z.to_nat i = Some v /\ 0 <= i /\
    ucpTrie.fastGet t codePoint = Ret v /\
    (0xffff < codePoint <= 0x10ffff -> i = ucpTrie.dataLength t - 2) /\
    (0x10ffff < codePoint -> i = ucpTrie.dataLength t - 1) /\
    (codePoint <= 0xffff ->
     exists e, ucpTrie.index t !! Z.to_nat (codePoint / 64) = Some e /\
               i = e + codePoint mod 64).
Proof. exact (flat_total t codePoint). Qed.

Lemma fastGet_flat_total_witness :
  flat flat_trie = true /\ 0 <= 0x62 /\
  ucpTrie.fastGet flat_trie 0x62 = Ret 4 /\
  exists i v, values flat_trie !! Z.to_nat i = Some v /\ 0 <= i /\
    ucpTrie.fastGet flat_trie 0x62 = Ret v /\
    (0xffff < 0x62 <= 0x10ffff -> i = ucpTrie.dataLength flat_trie - 2) /\
    (0x10ffff < 0x62 -> i = ucpTrie.dataLength flat_trie - 1) /\
    (0x62 <= 0xffff ->
     exists e, ucpTrie.index flat_trie !! Z.to_nat (0x62 / 64) = Some e /\
               i = e + 0x62 mod 64).
Proof.
  split; [vm_compute; reflexivity|]. split; [lia|]. split; [vm_compute; reflexivity|].
  apply (fastGet_flat_total flat_trie 0x62); [vm_compute; reflexivity|lia].
Defined.

Lemma land_30000 (x : Z) : Z.land x 0x30000 = (x / 65536) mod 4 * 65536.
Proof.
  change 0x30000 with (Z.shiftl (Z.ones 2) 16).
  change 65536 with (2 ^ 16). change 4 with (2 ^ 2).
  rewrite <- Z.land_ones, <- Z.shiftr_div_pow2, <- Z.shiftl_mul_pow2 by lia.
  apply Z.bits_inj'; intros m Hm. rewrite Z.land_spec.
  destruct (Z.lt_ge_cases m 16).
  - rewrite !Z.shiftl_spec_low by lia. apply andb_false_r.
  - rewrite !Z.shiftl_spec by lia. rewrite Z.land_spec, Z.shiftr_spec by lia.
    replace (m - 16 + 16) with m by lia. reflexivity.
Qed.

Lemma lor_le_add (a b : Z) : 0 <= a -> 0 <= b -> 0 <= Z.lor a b <= a + b.
Proof.
  intros Ha Hb. split; [apply Z.lor_nonneg; auto|].
  pose proof (Z.add_lor_land a b). pose proof (proj2 (Z.land_nonneg a b) (or_introl Ha)). lia.
Qed.

Lemma land_small_mask (c : Z) : 0 <= Z.land c ucpTrie.ucpTrieSmallDataMask <= 15.
Proof.
  change ucpTrie.ucpTrieSmallDataMask with (Z.ones 4). rewrite Z.land_ones by lia.
  change (2 ^ 4) with 16. pose proof (Z.mod_pos_bound c 16 ltac:(lia)). lia.
Qed.

(** X10. When the entries of the index are 16-bit values, a data index that
    [internalSmallIndex] returns lies between 0 and [0x3FFFF + 15]: the
    wrap-around of the 32-bit shift in the path of the 18-bit indexes cannot
    make it negative. *)
Theorem internalSmallIndex_bounds (t : ucpTrie.t) (codePoint : rune) (i : Z) :
  Forall (fun e => 0 <= e < 65536) (ucpTrie.index t) ->
  ucpTrie.internalSmallIndex t codePoint = Ret i ->
  0 <= i <= 0x3FFFF + 15.
Proof.
  intros Hu H. rewrite List.Forall_forall in Hu.
  unfold ucpTrie.internalSmallIndex in H.
  apply bind_Ret in H as (i1 & _ & H).
  apply bind_Ret in H as (e1 & _ & H).
  apply bind_Ret in H as (i3Block & _ & H).
  apply bind_Ret in H as (dataBlock & Hd & H).
  injection H as <-.
  pose proof (land_small_mask codePoint).
  assert (0 <= dataBlock <= 0x3FFFF); [|lia].
  destruct (Z.land i3Block 32768 =? 0).
  - apply slice_index_In, Hu in Hd. lia.
  - apply bind_Ret in Hd as (e & _ & Hd).
    apply bind_Ret in Hd as (e' & He' & Hd). injection Hd as <-.
    apply slice_index_In, Hu in He'.
    rewrite land_30000.
    match goal with |- context [?x / 65536 mod 4] =>
      pose proof (Z.mod_pos_bound (x / 65536) 4 ltac:(lia)) as Hm;
      pose proof (lor_le_add (x / 65536 mod 4 * 65536) e' ltac:(lia) ltac:(lia)) end.
    lia.
Qed.


Lemma internalSmallIndex_bounds_witness :
  Forall (fun e => 0 <= e < 65536) (ucpTrie.index supplementary_trie) /\
  ucpTrie.internalSmallIndex supplementary_trie 0x10000 = Ret 1 /\
  0 <= 1 <= 0x3FFFF + 15.
Proof.
  assert (Hu : Forall (fun e => 0 <= e < 65536) (ucpTrie.index supplementary_trie)).
  { apply List.Forall_forall. intros e He.
    apply (List.forallb_forall (fun e => (0 <=? e) && (e <? 65536))
             (ucpTrie.index supplementary_trie)) in He; [|vm_compute; reflexivity].
    apply andb_true_iff in He as [H1 H2]. apply Z.leb_le in H1. apply Z.ltb_lt in H2. lia. }
  split; [exact Hu|]. split; [vm_compute; reflexivity|].
  apply (internalSmallIndex_bounds supplementary_trie 0x10000 1 Hu). vm_compute; reflexivity.
Defined.

(** X9. For every trie, whatever its type and its index: a code point above
    [0xFFFF] that is at or above [highStart] or above [0x10FFFF] is looked up
    without an access to the index; [fastGet] reads the value at
    [dataLength - 2] when the code point is at most [0x10FFFF] and the value at
    [dataLength - 1] when it is above. *)
Theorem fastGet_high_and_error (t : ucpTrie.t) (codePoint : rune) :
  0xffff < codePoint ->
  ucpTrie.highStart t <= codePoint \/ 0x10ffff < codePoint ->
  ucpTrie.fastGet t codePoint
  = ucpTrie.readData t (ucpTrie.dataLength t - (if codePoint <=? 0x10ffff then 2 else 1)).
Proof.
  intros Hs Hh. unfold ucpTrie.fastGet, ucpTrie.codePointIndex, ucpTrie.smallIndex.
  destruct (Z.leb_spec codePoint 0xffff); [lia|].
  destruct (Z.leb_spec codePoint 0x10ffff); [|reflexivity].
  destruct (Z.leb_spec (ucpTrie.highStart t) codePoint); [reflexivity|lia].
Qed.

Lemma fastGet_high_and_error_witness :
  0xffff < 0x20000 /\
  (ucpTrie.highStart supplementary_trie <= 0x20000 \/ 0x10ffff < 0x20000) /\
  ucpTrie.fastGet supplementary_trie 0x20000 = Ret 0 /\
  ucpTrie.fastGet supplementary_trie 0x20000
  = ucpTrie.readData supplementary_trie
      (ucpTrie.dataLength supplementary_trie - (if 0x20000 <=? 0x10ffff then 2 else 1)).
Proof.
  split; [lia|]. split; [left; vm_compute; discriminate|]. split; [vm_compute; reflexivity|].
  apply (fastGet_high_and_error supplementary_trie 0x20000); [lia|left; vm_compute; discriminate].
Defined.

(** ** [Next] on well-formed data *)

Lemma uint16_range (v : Z) : 0 <= uint16 v < 65536.
Proof. unfold uint16. change (2 ^ 16) with 65536. apply Z.mod_pos_bound. lia. Qed.

Lemma uint16_le (v : Z) : 0 <= v -> uint16 v <= v.
Proof. intros Hv. unfold uint16. apply Z.mod_le; lia. Qed.

Lemma row_ok_step (d : rbbiData) (table : rbbiStateTable) (row : rbbiStateTableRow) (cat : Z) :
  row_ok d table row = true -> 0 <= cat < categoryCount d ->
  exists e row', slice_index (nextStates row) cat = Ret e /\
    slice_index (rows table) (u8 e) = Ret row' /\ In row' (rows table).
Proof.
  unfold row_ok. rewrite andb_true_iff, forallb_forall. intros [Hlen Hall] Hcat.
  apply Z.leb_le in Hlen.
  destruct (slice_index_Ret (nextStates row) cat ltac:(lia)) as (e & He & He').
  assert (Hin : In e (nextStates row)) by (eapply slice_index_In; exact He).
  apply Hall in Hin. apply Z.ltb_lt in Hin. pose proof (u8_range e).
  destruct (slice_index_Ret (rows table) (u8 e) ltac:(lia)) as (row' & Hr & _).
  exists e, row'. split; [exact He|]. split; [exact Hr|]. eapply slice_index_In; exact Hr.
Qed.

Lemma forward_ok_inv (d : rbbiData) :
  forward_ok d = true ->
  3 <= categoryCount d /\ rbbiStateStart < len (rows (forwardTable d)) /\
  forall row, In row (rows (forwardTable d)) ->
    row_ok d (forwardTable d) row = true /\ lookahead_ok (forwardTable d) row = true.
Proof.
  unfold forward_ok. rewrite !andb_true_iff, forallb_forall. intros [[H1 H2] H3].
  apply Z.leb_le in H1. apply Z.ltb_lt in H2. split; [exact H1|]. split; [exact H2|].
  intros row Hin. apply H3 in Hin. apply andb_true_iff in Hin. exact Hin.
Qed.

Lemma lookahead_ok_inv (table : rbbiStateTable) (row : rbbiStateTableRow) :
  lookahead_ok table row = true ->
  (u8 (accepting row) <= 1 \/ u8 (accepting row) < lookaheadResultsSize table) /\
  (u8 (lookahead row) = 0 \/ 1 < u8 (lookahead row) < lookaheadResultsSize table).
Proof.
  unfold lookahead_ok, rbbiAcceptingUnconditional.
  rewrite andb_true_iff, !orb_true_iff, andb_true_iff.
  rewrite Z.leb_le, !Z.ltb_lt, Z.eqb_eq. tauto.
Qed.

Section Next_body_facts.

Variables (d : rbbiData) (text : list byte).

Hypothesis Hfwd : forward_ok d = true.
Hypothesis Htrie : trie_ok d.

Lemma Next_transition_total (s : RBBI.scan (C := StringCursor.t)) :
  scan_ok d text s ->
  negb (RBBI.s_nextOk s) && rbbiRunMode_eqb (RBBI.s_mode s) rbbiRunModeEnd = false ->
  exists s1, RBBI.Next_transition d s = Ret s1 /\
    RBBI.s_cursor s1 = RBBI.s_cursor s /\
    RBBI.s_lookaheadMatches s1 = RBBI.s_lookaheadMatches s /\
    RBBI.s_nextOk s1 = RBBI.s_nextOk s /\
    RBBI.s_c s1 = RBBI.s_c s /\
    RBBI.s_mode s1 = (if RBBI.s_nextOk s then RBBI.s_mode s else rbbiRunModeEnd) /\
    (RBBI.s_mode s1 = rbbiRunModeStart -> RBBI.s_category s1 = 2) /\
    In (RBBI.s_row s1) (rows (forwardTable d)).
Proof.
  destruct (forward_ok_inv d Hfwd) as (Hcc & Hstart & Hrows).
  intros (Hcur & Hrow & Hslots & Hc & Hcat & Hend) Etop.
  destruct s as [lm rsi cur cat dcc res c ok state row mode]. cbn in *.
  unfold RBBI.Next_transition. cbn.
  assert (Hcase : exists cat' dcc' mode',
    ((let s := if negb ok
               then RBBI.set_category
                      (RBBI.set_mode (RBBI.mkScan lm rsi cur cat dcc res c ok state row mode)
                         rbbiRunModeEnd) 1
               else RBBI.mkScan lm rsi cur cat dcc res c ok state row mode in
      if rbbiRunMode_eqb (RBBI.s_mode s) rbbiRunModeRun
      then v ← ucpTrie.fastGet (trie d) (RBBI.s_c s);
           let s0 := RBBI.set_category s (uint16 v) in
           if dictCategoriesStart (forwardTable d) <=? RBBI.s_category s0
           then Ret (RBBI.set_dictionaryCharCount s0 (RBBI.s_dictionaryCharCount s0 + 1))
           else Ret s0
      else Ret s)
     = Ret (RBBI.mkScan lm rsi cur cat' dcc' res c ok state row mode')) /\
    0 <= cat' < categoryCount d /\
    mode' = (if ok then mode else rbbiRunModeEnd) /\
    (mode' = rbbiRunModeStart -> cat' = 2)).
  { destruct ok; cbn.
    - destruct mode; cbn.
      + exists cat, dcc, rbbiRunModeStart. rewrite (Hcat eq_refl). repeat split; auto; lia.
      + destruct (Htrie c (Hc eq_refl)) as (v & -> & Hv). cbn.
        pose proof (uint16_range v). pose proof (uint16_le v ltac:(lia)).
        destruct (_ <=? _); eexists _, _, _; (split; [reflexivity|]); cbn;
          (split; [lia|]); (split; [reflexivity|]); discriminate.
      + specialize (Hend eq_refl). discriminate Hend.
    - exists 1, dcc, rbbiRunModeEnd. repeat split; try lia; discriminate. }
  destruct Hcase as (cat' & dcc' & mode' & Heq & Hcat' & Hmode' & Hst').
  cbv zeta in Heq. cbn in Heq |- *. rewrite Heq. cbn.
  destruct (Z.leb_spec (categoryCount d) cat'); [lia|].
  destruct (Hrows row Hrow) as [Hrok _].
  destruct (row_ok_step d (forwardTable d) row cat' Hrok Hcat') as (e & row' & He & Hr & Hin).
  rewrite He. cbn. rewrite Hr. cbn. eexists. split; [reflexivity|]. cbn. repeat split; auto.
Qed.

Lemma Next_body_total (s : RBBI.scan (C := StringCursor.t)) :
  scan_ok d text s ->
  exists st, RBBI.Next_body d s = Ret st /\
    match st with
    | RBBI.Continue s' => scan_ok d text s'
    | _ => True
    end.
Proof.
  destruct (forward_ok_inv d Hfwd) as (Hcc & Hstart & Hrows).
  intros Hok. unfold RBBI.Next_body.
  destruct (negb (RBBI.s_nextOk s) && rbbiRunMode_eqb (RBBI.s_mode s) rbbiRunModeEnd) eqn:Etop.
  { eexists. split; [reflexivity|exact I]. }
  destruct (Next_transition_total s Hok Etop) as (s1 & -> & Hc1 & Hl1 & Hok1 & Hcc1 & Hm1 & Hst1 & Hrow1).
  cbn [mbind outcome_bind].
  destruct Hok as ((pc & Hcur & Hpc) & _ & Hslots & Hc & _ & Hend).
  rewrite <- Hc1 in Hcur. rewrite <- Hl1 in Hslots. rewrite <- Hok1, <- Hcc1 in Hc.
  assert (Hend1 : RBBI.s_mode s1 = rbbiRunModeEnd -> RBBI.s_nextOk s1 = false).
  { rewrite Hm1, Hok1. destruct (RBBI.s_nextOk s); auto. }
  clear Hc1 Hl1 Hok1 Hcc1 Hm1 Hend Etop s.
  destruct (Hrows _ Hrow1) as [_ Hla]. apply lookahead_ok_inv in Hla as [Hacc Hrule].
  destruct s1 as [lm rsi cur cat dcc res c ok state row mode]. cbn in *.
  subst cur.
  unfold RBBI.Next_row, RBBI.Next_accept. cbn.
  pose proof (u8_range (accepting row)) as Ha. pose proof (u8_range (lookahead row)) as Hl.
  unfold rbbiAcceptingUnconditional in *.
  (* the second part of the body, for any result, rule status and slots of the same length *)
  assert (Hadv : forall rsi' res',
    exists st, RBBI.Next_advance d
                 (RBBI.mkScan lm rsi' (StringCursor.mk text pc) cat dcc res' c ok state row mode)
               = Ret st /\
      match st with
      | RBBI.Continue s' => scan_ok d text s'
      | _ => True
      end).
  { intros rsi' res'. unfold RBBI.Next_advance. cbn. unfold rbbiAcceptingUnconditional.
    destruct (Z.eqb_spec (u8 (lookahead row)) 0) as [E0|E0]; cbn [negb andb].
    - rewrite E0. cbn.
      destruct (state =? rbbiStateStop); [eexists; split; [reflexivity|exact I]|].
      destruct mode; cbn.
      + eexists. split; [reflexivity|]. unfold scan_ok. cbn.
        split; [eauto|]. repeat split; auto; try discriminate;
          try (match goal with H : ok = true |- _ => destruct (Hc H); lia end).
      + destruct (StringCursor_Next_wf (StringCursor.mk text pc) Hpc)
          as (c' & r & ok' & HN & Ht & Hw & _ & _).
        rewrite HN. cbn. eexists. split; [reflexivity|]. unfold scan_ok. cbn.
        split. { exists (StringCursor.position c'). destruct c'; cbn in *. subst. auto. }
        split; [exact Hrow1|]. split; [assumption|].
        split. { intros ->. apply StringCursor_Next_decoded in HN as [[[? ?] _] _]. lia. }
        split; discriminate.
      + eexists. split; [reflexivity|]. unfold scan_ok. cbn.
        split; [eauto|]. repeat split; auto; try discriminate;
          try (match goal with H : ok = true |- _ => destruct (Hc H); lia end).
    - destruct Hrule as [?|Hrule]; [lia|].
      destruct (Z.leb_spec (u8 (lookahead row)) 1); [lia|].
      destruct (Z.leb_spec (lookaheadResultsSize (forwardTable d)) (u8 (lookahead row))); [lia|].
      destruct (Z.ltb_spec 1 (u8 (lookahead row))); [|lia].
      unfold store. destruct (Z.ltb_spec (u8 (lookahead row)) 0); [lia|].
      destruct (Z.leb_spec (len lm) (u8 (lookahead row))); [lia|]. cbn.
      assert (Hlen : lookaheadResultsSize (forwardTable d)
                     <= len (<[Z.to_nat (u8 (lookahead row)) := pc]> lm)).
      { unfold len in *. rewrite length_insert. exact Hslots. }
      destruct (state =? rbbiStateStop); [eexists; split; [reflexivity|exact I]|].
      destruct mode; cbn.
      + eexists. split; [reflexivity|]. unfold scan_ok. cbn.
        split; [eauto|]. repeat split; auto; try discriminate;
          try (match goal with H : ok = true |- _ => destruct (Hc H); lia end).
      + destruct (StringCursor_Next_wf (StringCursor.mk text pc) Hpc)
          as (c' & r & ok' & HN & Ht & Hw & _ & _).
        rewrite HN. cbn. eexists. split; [reflexivity|]. unfold scan_ok. cbn.
        split. { exists (StringCursor.position c'). destruct c'; cbn in *. subst. auto. }
        split; [exact Hrow1|]. split; [assumption|].
        split. { intros ->. apply StringCursor_Next_decoded in HN as [[[? ?] _] _]. lia. }
        split; discriminate.
      + eexists. split; [reflexivity|]. unfold scan_ok. cbn.
        split; [eauto|]. repeat split; auto; try discriminate;
          try (match goal with H : ok = true |- _ => destruct (Hc H); lia end). }
  destruct (Z.eqb_spec (u8 (accepting row)) 1) as [E1|E1].
  - cbn. destruct (negb _); cbn; apply Hadv.
  - destruct (Z.ltb_spec 1 (u8 (accepting row))); [|cbn; apply Hadv].
    destruct Hacc as [?|Hacc]; [lia|].
    destruct (Z.leb_spec (lookaheadResultsSize (forwardTable d)) (u8 (accepting row))); [lia|].
    destruct (slice_index_Ret lm (u8 (accepting row)) ltac:(lia)) as (saved & -> & _).
    cbn. destruct (0 <=? saved); cbn; [eexists; split; [reflexivity|exact I]|apply Hadv].
Qed.

End Next_body_facts.

Section Next_returns_facts.

Variables (d : rbbiData) (lam : list Z) (text : list byte).

Hypothesis Hfwd : forward_ok d = true.
Hypothesis Htrie : trie_ok d.
Hypothesis Hslots : lookaheadResultsSize (forwardTable d) <= len lam.

Lemma Next_loop_no_Panic (p0 : Z) (fuel : nat) :
  0 <= p0 ->
  forall s : RBBI.scan (C := StringCursor.t),
    scan_inv_general lam text p0 s -> scan_ok d text s ->
    RBBI.Next_loop fuel d s <> Panic.
Proof.
  intros Hp0. induction fuel as [|fuel IH]; intros s Hinv Hok; [discriminate|].
  cbn [RBBI.Next_loop].
  destruct (Next_body_total d text Hfwd Htrie s Hok) as (st & Hb & Hst).
  rewrite Hb. cbn [mbind outcome_bind].
  pose proof (Next_body_general d lam text p0 s st Hp0 Hinv Hb) as Hg.
  destruct st as [s'|s'|s' q ok]; try discriminate.
  destruct Hg as [Hinv' _]. apply IH; assumption.
Qed.

Lemma Next_returns (n : nat) (rsi p : Z) :
  0 <= p <= len text -> len text - p + 3 <= Z.of_nat n ->
  exists lam' rsi' pc q ok,
    RBBI.Next n (string_engine d lam text rsi p)
    = Ret (string_engine d lam' text rsi' pc, (q, ok)) /\
    length lam' = length lam /\ 0 <= pc <= len text /\
    (ok = false <-> p = len text).
Proof.
  destruct (forward_ok_inv d Hfwd) as (Hcc & Hstart & Hrows).
  intros Hpos Hn. unfold RBBI.Next, string_engine.
  cbn [RBBI.cursor RBBI.data RBBI.lookaheadMatches].
  cbn [Next StringCursor_Cursor Position StringCursor.Position StringCursor.position].
  destruct (Z.eq_dec p (len text)) as [->|Hne].
  { rewrite StringCursor_Next_end by (cbn; lia). cbn [mbind outcome_bind negb].
    exists lam, 0, (len text), (-1), false. repeat split; auto; lia. }
  destruct (StringCursor_Next_step text p ltac:(lia)) as (c & size & Hsize & Hn1).
  rewrite Hn1. cbn [mbind outcome_bind negb].
  destruct (slice_index_Ret (rows (forwardTable d)) rbbiStateStart
              ltac:(unfold rbbiStateStart in *; lia)) as (row & Hrow & _).
  rewrite Hrow. cbn [mbind outcome_bind].
  set (s0 := RBBI.Next_init _ _ _ _ _).
  assert (Hinv0 : scan_inv_general lam text p s0).
  { unfold scan_inv_general, s0, RBBI.Next_init. cbn.
    split; [exists (p + size); split; [reflexivity|lia]|].
    split; [auto|]. split; [apply slots_inv_refl|].
    destruct (bofRequired _); discriminate. }
  assert (Hok0 : scan_ok d text s0).
  { unfold scan_ok, s0, RBBI.Next_init. cbn.
    split; [exists (p + size); split; [reflexivity|lia]|].
    split; [eapply slice_index_In; exact Hrow|]. split; [exact Hslots|].
    split. { intros _. apply StringCursor_Next_decoded in Hn1 as [[[? ?] _] _]. lia. }
    destruct (bofRequired _); split; (reflexivity || discriminate). }
  assert (Hf0 : scan_fuel text s0 <= len text - p + 3).
  { unfold scan_fuel, s0, RBBI.Next_init. cbn. destruct (bofRequired _); cbn; lia. }
  pose proof (Next_loop_general d lam text p n ltac:(lia) s0 Hinv0) as Hloop.
  pose proof (Next_loop_no_Panic p n ltac:(lia) s0 Hinv0 Hok0) as Hnp.
  destruct (RBBI.Next_loop n d s0) as [[s'|s'|s' q ok]| |]; cbn [mbind outcome_bind];
    [contradiction| | |congruence|lia].
  - destruct Hloop as ((pc & Hcur & Hpc) & Hres & [Hlen _] & _).
    unfold RBBI.Next_finish. rewrite Hcur.
    cbn [SetPosition StringCursor_Cursor Next Position StringCursor.Position
         StringCursor.position].
    destruct (Z.eqb_spec (RBBI.s_result s') p) as [Heq|Hneq].
    + rewrite StringCursor_SetPosition_ok by (cbn; lia). cbn [fst StringCursor.text].
      rewrite Hn1. cbn [mbind outcome_bind negb].
      rewrite StringCursor_SetPosition_ok by (cbn; lia). cbn.
      exists (RBBI.s_lookaheadMatches s'), 0, (p + size), (p + size), true.
      split; [reflexivity|]. split; [exact Hlen|]. split; [lia|]. split; [discriminate|lia].
    + rewrite StringCursor_SetPosition_ok by (cbn; lia). cbn.
      exists (RBBI.s_lookaheadMatches s'), (RBBI.s_ruleStatusIndex s'), (RBBI.s_result s'),
        (RBBI.s_result s'), true.
      split; [reflexivity|]. split; [exact Hlen|]. split; [lia|]. split; [discriminate|lia].
  - destruct Hloop as (-> & Hq & _ & [Hlen _] & pc & Hpc & Hcur).
    unfold RBBI.engine_of. rewrite Hcur. cbn [SetPosition StringCursor_Cursor].
    assert (Hsp : exists pc', fst (StringCursor.SetPosition (StringCursor.mk text pc) q)
                              = StringCursor.mk text pc' /\ 0 <= pc' <= len text).
    { unfold StringCursor.SetPosition. cbn.
      destruct (Z.ltb_spec q 0); [exists pc; split; [reflexivity|lia]|].
      destruct (Z.ltb_spec (len text) q); [exists pc; split; [reflexivity|lia]|].
      exists q. split; [reflexivity|lia]. }
    destruct Hsp as (pc' & -> & Hpc').
    exists (RBBI.s_lookaheadMatches s'), (RBBI.s_ruleStatusIndex s'), pc', q, true.
    split; [reflexivity|]. split; [exact Hlen|]. split; [lia|]. split; [discriminate|lia].
Qed.

End Next_returns_facts.

(** ** [safePrevious] on well-formed data *)

Lemma reverse_ok_inv (d : rbbiData) :
  reverse_ok d = true ->
  rbbiStateStart < len (rows (reverseTable d)) /\
  forall row, In row (rows (reverseTable d)) -> row_ok d (reverseTable d) row = true.
Proof.
  unfold reverse_ok. rewrite andb_true_iff, forallb_forall. intros [H1 H2].
  apply Z.ltb_lt in H1. auto.
Qed.

Section safePrevious_facts.

Variables (d : rbbiData) (lam : list Z) (text : list byte).

Hypothesis Hrev : reverse_ok d = true.
Hypothesis Htrie : trie_ok d.

Lemma safePrevious_loop_no_Panic :
  forall (fuel : nat) (p : Z) (c : rune) (ok : bool) (state : Z) (row : rbbiStateTableRow),
    0 <= p <= len text ->
    In row (rows (reverseTable d)) ->
    (ok = true -> 0 <= c <= 0x10FFFF) ->
    RBBI.safePrevious_loop fuel d (StringCursor.mk text p) c ok state row <> Panic.
Proof.
  destruct (reverse_ok_inv d Hrev) as [Hstart Hrows].
  induction fuel as [|fuel IH]; intros p c ok state row Hp Hrow Hc.
  - destruct ok; discriminate.
  - destruct ok; [|discriminate]. cbn [RBBI.safePrevious_loop negb].
    destruct (Htrie c (Hc eq_refl)) as (v & -> & Hv). cbn [mbind outcome_bind].
    destruct (Z.leb_spec (categoryCount d) v); [lia|].
    destruct (row_ok_step d (reverseTable d) row v (Hrows row Hrow) Hv)
      as (e & row' & He & Hr & Hin).
    rewrite He. cbn [mbind outcome_bind]. rewrite Hr. cbn [mbind outcome_bind].
    destruct (u8 e =? rbbiStateStop); [discriminate|].
    cbn [Previous StringCursor_Cursor].
    destruct (StringCursor_Previous_wf (StringCursor.mk text p) Hp)
      as (c' & r & ok' & HP & Ht & Hw & _ & _).
    rewrite HP. cbn [mbind outcome_bind].
    destruct c' as [text' p']. cbn in Ht, Hw. subst text'.
    apply IH; auto.
    intros ->. apply StringCursor_Previous_decoded in HP as [[[? ?] _] _]. lia.
Qed.

Lemma safePrevious_returns (fuel : nat) (rsi pos fromPosition : Z) :
  0 <= fromPosition <= len text -> fromPosition <= Z.of_nat fuel ->
  (fromPosition = 0 /\
   RBBI.safePrevious fuel (string_engine d lam text rsi pos) fromPosition
   = Ret (string_engine d lam text rsi 0, (-1, false))) \/
  (0 < fromPosition /\ exists q, 0 <= q < fromPosition /\
   RBBI.safePrevious fuel (string_engine d lam text rsi pos) fromPosition
   = Ret (string_engine d lam text rsi q, (q, true))).
Proof.
  destruct (reverse_ok_inv d Hrev) as [Hstart Hrows].
  intros Hfrom Hfuel.
  destruct (Z.eq_dec fromPosition 0) as [->|Hne].
  { left. split; [reflexivity|]. apply safePrevious_at_start. lia. }
  right. split; [lia|].
  assert (Hex : exists r' q ok,
    RBBI.safePrevious fuel (string_engine d lam text rsi pos) fromPosition = Ret (r', (q, ok))).
  { unfold RBBI.safePrevious, string_engine at 1.
    cbn [RBBI.cursor RBBI.data SetPosition StringCursor_Cursor Previous].
    rewrite StringCursor_SetPosition_ok by (cbn; lia). cbn [fst StringCursor.text].
    destruct (StringCursor_Previous_step text fromPosition ltac:(lia)) as (c & size & Hsize & HP).
    rewrite HP. cbn [mbind outcome_bind negb].
    change (RBBI.data (string_engine d lam text rsi pos)) with d.
    destruct (slice_index_Ret (rows (reverseTable d)) rbbiStateStart
                ltac:(unfold rbbiStateStart in *; lia)) as (row & Hrow & _).
    rewrite Hrow. cbn [mbind outcome_bind].
    pose proof (safePrevious_loop_no_Panic fuel (fromPosition - size) c true rbbiStateStart row
      ltac:(lia) ltac:(eapply slice_index_In; exact Hrow)
      ltac:(intros _; apply StringCursor_Previous_decoded in HP as [[[? ?] _] _]; lia)) as Hnp.
    pose proof (safePrevious_loop_StringCursor d text fuel (fromPosition - size) c true
      rbbiStateStart row ltac:(lia) ltac:(discriminate)) as Hloop.
    destruct (RBBI.safePrevious_loop fuel d _ c true _ row) as [[cur st]| |];
      [|congruence|destruct Hloop; lia].
    cbn [mbind outcome_bind]. eauto. }
  destruct Hex as (r' & q & ok & H).
  destruct (safePrevious_shape d lam text fuel rsi pos fromPosition r' q ok Hfrom H)
    as [(_ & ? & _)|(-> & Hq & ->)]; [lia|].
  exists q. split; [exact Hq|exact H].
Qed.

End safePrevious_facts.

(** ** Iteration over a text *)

Section Iteration.

Variables (d : rbbiData) (lam : list Z) (text : list byte) (n : nat).

Hypothesis Hfree : lookahead_free (forwardTable d) = true.
Hypothesis Hfwd : forward_ok d = true.
Hypothesis Htrie : trie_ok d.
Hypothesis Hslots : lookaheadResultsSize (forwardTable d) <= len lam.
Hypothesis Hn : len text + 3 <= Z.of_nat n.

Local Abbreviation eng := (string_engine d lam text).

Lemma Next_step_returns (rsi pos : Z) :
  0 <= pos <= len text ->
  (pos = len text /\ RBBI.Next n (eng rsi pos) = Ret (eng 0 pos, (-1, false))) \/
  (exists q rsi', pos < q <= len text /\
     RBBI.Next n (eng rsi pos) = Ret (eng rsi' q, (q, true))).
Proof.
  intros Hpos.
  destruct (Z.eq_dec pos (len text)) as [->|Hne].
  { left. split; [reflexivity|]. unfold RBBI.Next, string_engine.
    cbn [RBBI.cursor RBBI.data RBBI.lookaheadMatches Next StringCursor_Cursor].
    rewrite StringCursor_Next_end by (cbn; lia). reflexivity. }
  right.
  destruct (Next_returns d lam text Hfwd Htrie Hslots n rsi pos Hpos ltac:(lia))
    as (lam' & rsi' & pc & q & ok & HN & _).
  destruct (Next_lookahead_free d lam text Hfree n rsi pos _ q ok Hpos HN)
    as [(_ & ? & _)|(-> & Hq & rsi2 & E)]; [lia|].
  exists q, rsi2. split; [exact Hq|]. rewrite HN, E. reflexivity.
Qed.

Lemma Next_all_returns (f : nat) :
  forall rsi pos,
    0 <= pos <= len text -> len text - pos < Z.of_nat f ->
    exists bs, Next_all f n (eng rsi pos) = Ret bs /\
      StronglySorted Z.lt (pos :: bs) /\
      last (pos :: bs) = Some (len text).
Proof.
  induction f as [|f IH]; intros rsi pos Hpos Hf; [lia|].
  cbn [Next_all].
  destruct (Next_step_returns rsi pos Hpos) as [[-> ->]|(q & rsi' & Hq & ->)];
    cbn [mbind outcome_bind negb].
  - exists []. split; [reflexivity|]. split; [repeat constructor|reflexivity].
  - destruct (IH rsi' q ltac:(lia) ltac:(lia)) as (bs & -> & Hs & Hl).
    cbn [mbind outcome_bind]. exists (q :: bs). split; [reflexivity|]. split.
    + constructor; [exact Hs|]. constructor; [lia|].
      apply StronglySorted_inv in Hs as [_ Hall].
      eapply Forall_impl; [exact Hall|]. cbn. intros; lia.
    + rewrite last_cons_cons. exact Hl.
Qed.

Hypothesis Hrev : reverse_ok d = true.

Lemma Previous_loop_returns (start : Z) :
  0 <= start <= len text ->
  forall (fuel : nat) (bt rsi pos : Z),
    0 <= bt <= start -> bt < Z.of_nat fuel ->
    (start = 0 /\
     RBBI.Previous_loop fuel n (eng rsi pos) start bt (-1) = Ret (eng rsi 0, (-1, false))) \/
    (0 < start /\ exists rsi' q, 0 <= q < start /\
     RBBI.Previous_loop fuel n (eng rsi pos) start bt (-1) = Ret (eng rsi' q, (q, true))).
Proof.
  intros Hstart. induction fuel as [|fuel IH]; intros bt rsi pos Hbt Hfuel; [lia|].
  cbn [RBBI.Previous_loop]. change (negb (-1 =? -1)) with false. cbv iota.
  destruct (safePrevious_returns d lam text Hrev Htrie n rsi pos bt ltac:(lia) ltac:(lia))
    as [[-> ->]|(Hbt0 & q0 & Hq0 & ->)]; cbn [mbind outcome_bind negb].
  - destruct (Z.eqb_spec 0 start) as [<-|Hne]; [left; auto|].
    right. split; [lia|]. exists rsi, 0. split; [lia|].
    unfold string_engine. cbn [RBBI.cursor SetPosition StringCursor_Cursor].
    rewrite StringCursor_SetPosition_ok by (cbn; lia). reflexivity.
  - right. split; [lia|].
    destruct (Next_all_returns (S (Z.to_nat (len text - q0))) rsi q0 ltac:(lia) ltac:(lia))
      as (bs & Hbs & Hsorted & _).
    pose proof (Next_all_length _ _ _ _ Hbs) as Hlen.
    destruct (Previous_replay_spec d lam text n Hfree bs _ n rsi q0 (-1) start
                ltac:(lia) ltac:(lia) Hbs ltac:(lia)) as (rsi' & b & Hb & ->).
    cbn [mbind outcome_bind].
    destruct (largest_below start bs) as [x|] eqn:Elb; cbn [default].
    + apply largest_below_In in Elb as [Hin Hx].
      apply StronglySorted_inv in Hsorted as [_ Hall].
      rewrite List.Forall_forall in Hall. specialize (Hall x Hin).
      exists rsi', x. split; [lia|].
      apply Previous_loop_found. 
      pose proof (Next_all_sorted d lam text n Hfree _ rsi q0 bs ltac:(lia) Hbs) as [_ Hr].
      rewrite List.Forall_forall in Hr. specialize (Hr x Hin). lia.
    + destruct (IH q0 rsi' b ltac:(lia) ltac:(lia)) as [[? _]|(_ & H)]; [lia|exact H].
Qed.

Lemma Previous_returns (rsi p : Z) :
  0 <= p <= len text ->
  (p = 0 /\ RBBI.Previous n (eng rsi p) = Ret (eng rsi 0, (-1, false))) \/
  (0 < p /\ exists rsi' q, 0 <= q < p /\
   RBBI.Previous n (eng rsi p) = Ret (eng rsi' q, (q, true))).
Proof.
  intros Hp. unfold RBBI.Previous.
  change (RBBI.cursor (eng rsi p)) with (Some (StringCursor.mk text p)).
  cbn [Position StringCursor_Cursor StringCursor.Position StringCursor.position].
  pose proof (len_nonneg text).
  exact (Previous_loop_returns p Hp n p rsi p ltac:(lia) ltac:(lia)).
Qed.

End Iteration.

(** ** Backward iteration and round trips *)

Lemma filter_below_sorted (p : Z) (pre suf : list Z) :
  StronglySorted Z.lt (pre ++ p :: suf) ->
  List.filter (fun b => b <? p) (pre ++ p :: suf) = pre.
Proof.
  induction pre as [|a pre IH]; intros Hs.
  - cbn [app List.filter]. rewrite Z.ltb_irrefl.
    apply StronglySorted_inv in Hs as [_ Hall]. rewrite List.Forall_forall in Hall.
    induction suf as [|b suf IHs]; [reflexivity|]. cbn [List.filter].
    destruct (Z.ltb_spec b p) as [Hlt|_].
    + specialize (Hall b ltac:(left; reflexivity)). lia.
    + apply IHs. intros x Hx. apply Hall. right. exact Hx.
  - cbn [app List.filter]. apply StronglySorted_inv in Hs as [Hs Hall].
    rewrite List.Forall_forall in Hall.
    specialize (Hall p ltac:(apply in_or_app; right; left; reflexivity)).
    destruct (Z.ltb_spec a p); [|lia]. f_equal. apply IH. exact Hs.
Qed.

Lemma Previous_all_S (f n : nat) (r : RBBI.t (C := StringCursor.t)) :
  Previous_all (S f) n r =
  '(r', (position, ok)) ← RBBI.Previous n r;
  if negb ok then Ret [] else l ← Previous_all f n r'; Ret (position :: l).
Proof. reflexivity. Qed.

Section Backward.

Variables (d : rbbiData) (lam : list Z) (text : list byte) (n : nat) (rsi0 : Z) (bs : list Z).

Hypothesis Hfree : lookahead_free (forwardTable d) = true.
Hypothesis Hbs : Next_all n n (string_engine d lam text rsi0 0) = Ret bs.
Hypothesis Hsafe :
  forallb (safe_restart n (string_engine d lam text rsi0 0) text bs) (0 :: bs) = true.

Local Abbreviation eng := (string_engine d lam text).

Lemma breaks_range (p : Z) : In p (0 :: bs) -> 0 <= p <= len text.
Proof.
  pose proof (len_nonneg text).
  destruct (Next_all_sorted d lam text n Hfree n rsi0 0 bs ltac:(lia) Hbs) as [_ Hr].
  rewrite List.Forall_forall in Hr. intros [<-|Hin]; [lia|]. specialize (Hr p Hin). lia.
Qed.

Lemma safe_restart_any (rsi s : Z) :
  In s (0 :: bs) ->
  match RBBI.safePrevious n (eng rsi s) s with
  | Ret (_, (q, ok)) => negb ok || existsb (Z.eqb q) (0 :: bs)
  | _ => false
  end = true.
Proof.
  intros Hin. pose proof (breaks_range s Hin) as Hs.
  rewrite forallb_forall in Hsafe. specialize (Hsafe s Hin).
  unfold safe_restart, seek in Hsafe.
  change (RBBI.with_cursor (string_engine d lam text rsi0 0) (StringCursor.mk text s))
    with (eng rsi0 s) in Hsafe.
  destruct (RBBI.safePrevious n (eng rsi0 s) s) as [[r' [q ok]]| |] eqn:E; try discriminate.
  assert (Hsh : exists q', r' = eng rsi0 q').
  { destruct (safePrevious_shape d lam text n rsi0 s s r' q ok Hs E)
      as [(_ & _ & ->)|(_ & _ & ->)]; eauto. }
  destruct Hsh as [q' ->].
  rewrite (safePrevious_any_engine d lam text n rsi0 s rsi s s q' q ok Hs E). exact Hsafe.
Qed.

Lemma Previous_at_break (rsi p : Z) :
  In p (0 :: bs) ->
  (p = 0 /\ RBBI.Previous n (eng rsi p) = Ret (eng rsi p, (-1, false))) \/
  (0 < p /\ exists rsi' q,
     largest_below p (0 :: bs) = Some q /\
     RBBI.Previous n (eng rsi p) = Ret (eng rsi' q, (q, true))).
Proof.
  intros Hin. pose proof (breaks_range p Hin) as Hp.
  assert (Hb : Next_all n n (eng rsi 0) = Ret bs).
  { rewrite (Next_all_rsi d lam text n n rsi rsi0 0). exact Hbs. }
  pose proof (Next_all_length _ _ _ _ Hbs) as Hlen.
  apply (Previous_loop_StringCursor d lam text n Hfree rsi p bs Hp Hb); [|exact Hlen].
  apply forallb_forall. intros s Hs. apply safe_restart_any.
  destruct Hs as [<-|Hs]; [exact Hin|]. apply List.filter_In in Hs as [Hs _]. exact Hs.
Qed.

Lemma Previous_all_pre (pre : list Z) :
  forall (p : Z) (suf : list Z) (rsi : Z),
    0 :: bs = pre ++ p :: suf ->
    Previous_all (S (length pre)) n (eng rsi p) = Ret (rev pre).
Proof.
  pose proof (len_nonneg text) as Hlen0.
  destruct (Next_all_sorted d lam text n Hfree n rsi0 0 bs ltac:(lia) Hbs) as [Hsorted _].
  induction pre as [|q pre IH] using rev_ind; intros p suf rsi E.
  - cbn [app] in E. injection E as <- _. cbn [Previous_all length].
    destruct (Previous_at_break rsi 0 ltac:(left; reflexivity)) as [[_ ->]|[? _]]; [|lia].
    reflexivity.
  - rewrite <- app_assoc in E. cbn [app] in E.
    assert (Hin : In p (0 :: bs)).
    { rewrite E. apply in_or_app. right. right. left. reflexivity. }
    assert (Hqp : q < p /\ largest_below p (0 :: bs) = Some q).
    { rewrite E in Hsorted |- *.
      assert (Hlt : q < p).
      { clear - Hsorted. induction pre as [|a pre IHp]; cbn [app] in Hsorted.
        - apply StronglySorted_inv in Hsorted as [_ Hall].
          apply Forall_inv in Hall. exact Hall.
        - apply StronglySorted_inv in Hsorted as [Hs _]. auto. }
      split; [exact Hlt|].
      rewrite (largest_below_app p q pre (p :: suf) Hsorted Hlt).
      rewrite largest_below_None; [reflexivity|].
      assert (Hs2 : StronglySorted Z.lt (p :: suf)).
      { clear - Hsorted. induction pre as [|a pre IHp]; cbn [app] in Hsorted.
        - apply StronglySorted_inv in Hsorted as [Hs _]. exact Hs.
        - apply StronglySorted_inv in Hsorted as [Hs _]. auto. }
      apply StronglySorted_inv in Hs2 as [_ Hall].
      constructor; [lia|]. eapply Forall_impl; [exact Hall|]. cbn. intros; lia. }
    destruct Hqp as [Hlt Hlb].
    destruct (Previous_at_break rsi p Hin) as [[-> _]|(_ & rsi' & q' & Hlb' & HP)].
    { pose proof (breaks_range q ltac:(rewrite E; apply in_or_app; right; left; reflexivity)).
      lia. }
    rewrite Hlb in Hlb'. injection Hlb' as <-.
    rewrite length_app, Nat.add_1_r, Previous_all_S, HP.
    cbn [mbind outcome_bind negb].
    rewrite (IH q (p :: suf) rsi' E). cbn [mbind outcome_bind].
    rewrite rev_unit. reflexivity.
Qed.

Lemma Previous_all_returns (rsi p : Z) :
  In p (0 :: bs) ->
  Previous_all (S (length bs)) n (eng rsi p)
  = Ret (rev (List.filter (fun b => b <? p) (0 :: bs))).
Proof.
  intros Hin. pose proof (len_nonneg text) as Hlen0.
  destruct (Next_all_sorted d lam text n Hfree n rsi0 0 bs ltac:(lia) Hbs) as [Hsorted _].
  destruct (in_split _ _ Hin) as (pre & suf & E).
  rewrite E, (filter_below_sorted p pre suf) by (rewrite <- E; exact Hsorted).
  assert (Hl : (length pre <= length bs)%nat).
  { apply (f_equal (@length Z)) in E. rewrite length_app in E. cbn [length] in E. lia. }
  pose proof (Previous_all_pre pre p suf rsi E) as H.
  clear - H Hl. revert H. generalize (eng rsi p) (rev pre).
  assert (Hmono : forall f f' r l, (f <= f')%nat ->
    Previous_all f n r = Ret l -> Previous_all f' n r = Ret l).
  { induction f as [|f IH]; intros f' r l Hle H; [discriminate|].
    destruct f' as [|f']; [lia|]. cbn [Previous_all] in H |- *.
    destruct (RBBI.Previous n r) as [[r' [q ok]]| |]; cbn [mbind outcome_bind] in H |- *;
      try discriminate.
    destruct ok; cbn [negb] in H |- *; [|exact H].
    apply bind_Ret in H as (l' & Hl' & H). rewrite (IH f' r' l' ltac:(lia) Hl'). exact H. }
  intros r l H. apply (Hmono (S (length pre))); [lia|exact H].
Qed.

Lemma Next_Previous_at_break (rsi p : Z) :
  In p (0 :: bs) -> p < len text ->
  exists rsi1 rsi2 q, p < q <= len text /\ In q bs /\
    RBBI.Next n (eng rsi p) = Ret (eng rsi1 q, (q, true)) /\
    RBBI.Previous n (eng rsi1 q) = Ret (eng rsi2 p, (p, true)).
Proof.
  intros Hin Hp. pose proof (breaks_range p Hin) as Hr.
  pose proof (len_nonneg text) as Hlen0.
  destruct (Next_all_sorted d lam text n Hfree n rsi0 0 bs ltac:(lia) Hbs) as [Hsorted _].
  destruct (breaks_chain d lam text n Hfree rsi0 p bs Hbs Hin)
    as (pre & suf & f' & rsi' & E & Hsuf & _).
  destruct (Next_all_step d lam text n Hfree f' rsi' p suf ltac:(lia) Hsuf)
    as [[? _]|(f'' & q & suf' & rsi1 & _ & Hq & HN & -> & _)]; [lia|].
  assert (Hinq : In q (0 :: bs)).
  { rewrite E. apply in_or_app. right. right. left. reflexivity. }
  destruct (Previous_at_break rsi1 q Hinq) as [[-> _]|(_ & rsi2 & p' & Hlb & HP)]; [lia|].
  assert (Hlb' : largest_below q (0 :: bs) = Some p).
  { rewrite E in Hsorted |- *.
    rewrite (largest_below_app q p pre (q :: suf') Hsorted ltac:(lia)).
    rewrite largest_below_None; [reflexivity|].
    assert (Hs2 : StronglySorted Z.lt (q :: suf')).
    { clear - Hsorted. induction pre as [|a pre IHp]; cbn [app] in Hsorted.
      - apply StronglySorted_inv in Hsorted as [Hs _]. exact Hs.
      - apply StronglySorted_inv in Hsorted as [Hs _]. auto. }
    apply StronglySorted_inv in Hs2 as [_ Hall].
    constructor; [lia|]. eapply Forall_impl; [exact Hall|]. cbn. intros; lia. }
  rewrite Hlb' in Hlb. injection Hlb as <-.
  exists rsi1, rsi2, q. split; [exact Hq|]. split.
  { destruct Hinq as [<-|Hinq]; [lia|exact Hinq]. }
  split; [|exact HP].
  rewrite <- HN. reflexivity.
Qed.

Lemma Previous_Next_at_break (rsi p : Z) :
  In p (0 :: bs) -> 0 < p ->
  exists rsi1 rsi2 q, 0 <= q < p /\ In q (0 :: bs) /\
    RBBI.Previous n (eng rsi p) = Ret (eng rsi1 q, (q, true)) /\
    RBBI.Next n (eng rsi1 q) = Ret (eng rsi2 p, (p, true)).
Proof.
  intros Hin Hp. pose proof (len_nonneg text) as Hlen0.
  destruct (Next_all_sorted d lam text n Hfree n rsi0 0 bs ltac:(lia) Hbs) as [Hsorted _].
  destruct (in_split _ _ Hin) as (pre & suf & E).
  destruct pre as [|q pre _] using rev_ind.
  { cbn [app] in E. injection E as E _. lia. }
  rewrite <- app_assoc in E. cbn [app] in E.
  assert (Hinq : In q (0 :: bs)).
  { rewrite E. apply in_or_app. right. left. reflexivity. }
  pose proof (breaks_range q Hinq) as Hq.
  assert (Hs2 : StronglySorted Z.lt (q :: p :: suf)).
  { rewrite E in Hsorted. clear - Hsorted. induction pre as [|a pre IHp]; cbn [app] in Hsorted.
    - exact Hsorted.
    - apply StronglySorted_inv in Hsorted as [Hs _]. auto. }
  assert (Hlt : q < p).
  { apply StronglySorted_inv in Hs2 as [_ Hall]. apply Forall_inv in Hall. exact Hall. }
  assert (Hlb : largest_below p (0 :: bs) = Some q).
  { rewrite E in Hsorted |- *.
    rewrite (largest_below_app p q pre (p :: suf) Hsorted Hlt).
    rewrite largest_below_None; [reflexivity|].
    apply StronglySorted_inv in Hs2 as [Hs3 _].
    apply StronglySorted_inv in Hs3 as [_ Hall].
    constructor; [lia|]. eapply Forall_impl; [exact Hall|]. cbn. intros; lia. }
  destruct (Previous_at_break rsi p Hin) as [[-> _]|(_ & rsi1 & q' & Hlb' & HP)]; [lia|].
  rewrite Hlb in Hlb'. injection Hlb' as <-.
  assert (HN : exists f' rsi', Next_all f' n (eng rsi' q) = Ret (p :: suf)).
  { destruct pre as [|z pre].
    - cbn [app] in E. injection E as <- E. exists n, rsi0. rewrite <- E. exact Hbs.
    - cbn [app] in E. injection E as _ E. rewrite E in Hbs.
      exact (Next_all_suffix d lam text n Hfree pre (p :: suf) q n rsi0 0 ltac:(lia) Hbs). }
  destruct HN as (f' & rsi' & HN).
  destruct (Next_all_step d lam text n Hfree f' rsi' q (p :: suf) ltac:(lia) HN)
    as [[_ ?]|(f'' & b & suf' & rsi2 & _ & _ & HNx & Eb & _)]; [discriminate|].
  injection Eb as <- _.
  exists rsi1, rsi2, q. split; [lia|]. split; [exact Hinq|]. split; [exact HP|].
  rewrite <- HNx. reflexivity.
Qed.

End Backward.

(** ** Totality on well-formed data *)

Lemma trie_ok_flat (d : rbbiData) :
  flat (trie d) = true ->
  forallb (fun v => (0 <=? v) && (v <? categoryCount d)) (values (trie d)) = true ->
  trie_ok d.
Proof.
  intros Hflat Hvals c Hc. rewrite forallb_forall in Hvals.
  destruct (flat_total (trie d) c Hflat ltac:(lia)) as (i & v & Hv & _ & Hget & _).
  exists v. split; [exact Hget|].
  assert (Hin : In v (values (trie d))).
  { apply list_elem_of_In. eapply list_elem_of_lookup_2. exact Hv. }
  apply Hvals in Hin. apply andb_true_iff in Hin as [H1 H2].
  apply Z.leb_le in H1. apply Z.ltb_lt in H2. lia.
Qed.

Lemma trie_ok_mkFlatData (f r : rbbiStateTable) : trie_ok (mkFlatData f r).
Proof. apply trie_ok_flat; vm_compute; reflexivity. Qed.

(** X11. [Next] on well-formed data never panics and terminates.  When every
    row of the forward table has a column for each category, with entries
    that are rows of the table, and lookahead rules below
    [lookaheadResultsSize]; the data has at least three categories; the trie
    gives a category for every scalar value; and the engine has a slot for
    each lookahead rule: then [Next] over a [StringCursor] within its text,
    with fuel for the rest of the text, returns.  It leaves the data, the text
    and the number of slots as they were and the cursor within the text, so
    that [Next] can be called again, and [ok = false] exactly at the end of the
    text. *)
Theorem Next_total (n : nat) (d : rbbiData) (lam : list Z) (text : list byte) (rsi p : Z) :
  forward_ok d = true -> trie_ok d ->
  lookaheadResultsSize (forwardTable d) <= len lam ->
  0 <= p <= len text -> len text - p + 3 <= Z.of_nat n ->
  exists lam' rsi' pc q ok,
    RBBI.Next n (string_engine d lam text rsi p)
    = Ret (string_engine d lam' text rsi' pc, (q, ok)) /\
    length lam' = length lam /\ 0 <= pc <= len text /\
    (ok = false <-> p = len text).
Proof. intros Hf Ht Hs. exact (Next_returns d lam text Hf Ht Hs n rsi p). Qed.

Lemma Next_total_witness :
  forward_ok (mkFlatData lookahead_table stop_table) = true /\
  trie_ok (mkFlatData lookahead_table stop_table) /\
  lookaheadResultsSize (forwardTable (mkFlatData lookahead_table stop_table)) <= len [0; 0; 0] /\
  0 <= 0 <= len text_ab /\ len text_ab - 0 + 3 <= Z.of_nat 5 /\
  RBBI.Next 5 (string_engine (mkFlatData lookahead_table stop_table) [0; 0; 0] text_ab 0 0)
  = Ret (string_engine (mkFlatData lookahead_table stop_table) [0; 0; 1] text_ab 5 1, (1, true)) /\
  exists lam' rsi' pc q ok,
    RBBI.Next 5 (string_engine (mkFlatData lookahead_table stop_table) [0; 0; 0] text_ab 0 0)
    = Ret (string_engine (mkFlatData lookahead_table stop_table) lam' text_ab rsi' pc, (q, ok)) /\
    length lam' = length [0; 0; 0] /\ 0 <= pc <= len text_ab /\
    (ok = false <-> 0 = len text_ab).
Proof.
  split; [vm_compute; reflexivity|]. split; [apply trie_ok_mkFlatData|].
  split; [vm_compute; discriminate|]. split; [vm_compute; split; discriminate|].
  split; [vm_compute; discriminate|]. split; [vm_compute; reflexivity|].
  apply (Next_total 5 (mkFlatData lookahead_table stop_table) [0; 0; 0] text_ab 0 0).
  - vm_compute; reflexivity.
  - apply trie_ok_mkFlatData.
  - vm_compute; discriminate.
  - vm_compute; split; discriminate.
  - vm_compute; discriminate.
Defined.

(** X12. [safePrevious] on well-formed data never panics and terminates.
    When every row of the reverse table has a column for each category, with
    entries that are rows of the table, and the trie gives a category for
    every scalar value: [safePrevious] from a position within the text, with
    fuel for the text before it, reports the start of the text from position
    0, and otherwise returns a position before [fromPosition], where it
    leaves the cursor; the slots and the rule status are untouched. *)
Theorem safePrevious_total (fuel : nat) (d : rbbiData) (lam : list Z) (text : list byte)
  (rsi pos fromPosition : Z) :
  reverse_ok d = true -> trie_ok d ->
  0 <= fromPosition <= len text -> fromPosition <= Z.of_nat fuel ->
  (fromPosition = 0 /\
   RBBI.safePrevious fuel (string_engine d lam text rsi pos) fromPosition
   = Ret (string_engine d lam text rsi 0, (-1, false))) \/
  (0 < fromPosition /\ exists q, 0 <= q < fromPosition /\
   RBBI.safePrevious fuel (string_engine d lam text rsi pos) fromPosition
   = Ret (string_engine d lam text rsi q, (q, true))).
Proof. intros Hr Ht. exact (safePrevious_returns d lam text Hr Ht fuel rsi pos fromPosition). Qed.

Lemma safePrevious_total_witness :
  reverse_ok (mkFlatData each_table run_table) = true /\
  trie_ok (mkFlatData each_table run_table) /\
  0 <= 3 <= len text_abc /\ 3 <= Z.of_nat 3 /\
  RBBI.safePrevious 3 (string_engine (mkFlatData each_table run_table) [] text_abc 0 1) 3
  = Ret (string_engine (mkFlatData each_table run_table) [] text_abc 0 0, (0, true)) /\
  ((3 = 0 /\
    RBBI.safePrevious 3 (string_engine (mkFlatData each_table run_table) [] text_abc 0 1) 3
    = Ret (string_engine (mkFlatData each_table run_table) [] text_abc 0 0, (-1, false))) \/
   (0 < 3 /\ exists q, 0 <= q < 3 /\
    RBBI.safePrevious 3 (string_engine (mkFlatData each_table run_table) [] text_abc 0 1) 3
    = Ret (string_engine (mkFlatData each_table run_table) [] text_abc 0 q, (q, true)))).
Proof.
  split; [vm_compute; reflexivity|]. split; [apply trie_ok_mkFlatData|].
  split; [vm_compute; split; discriminate|]. split; [vm_compute; discriminate|].
  split; [vm_compute; reflexivity|].
  apply (safePrevious_total 3 (mkFlatData each_table run_table) [] text_abc 0 1 3).
  - vm_compute; reflexivity.
  - apply trie_ok_mkFlatData.
  - vm_compute; split; discriminate.
  - vm_compute; discriminate.
Defined.

(** X13. Forward iteration over a whole text.  For well-formed data without
    lookahead rules, calls of [Next] from the start of the text until
    [ok = false] all return; the positions returned are strictly increasing,
    begin after 0, and the last one is the end of the text (for the empty
    text there is none). *)
Theorem breaks_total (n : nat) (r : RBBI.t) (text : list byte) :
  lookahead_free (forwardTable (RBBI.data r)) = true ->
  forward_ok (RBBI.data r) = true -> trie_ok (RBBI.data r) ->
  lookaheadResultsSize (forwardTable (RBBI.data r)) <= len (RBBI.lookaheadMatches r) ->
  len text + 3 <= Z.of_nat n ->
  exists bs, breaks n r text = Ret bs /\
    StronglySorted Z.lt (0 :: bs) /\ last (0 :: bs) = Some (len text).
Proof.
  intros Hfree Hfwd Htrie Hslots Hn. pose proof (len_nonneg text).
  exact (Next_all_returns (RBBI.data r) (RBBI.lookaheadMatches r) text n Hfree Hfwd Htrie
           Hslots Hn n (RBBI.ruleStatusIndex r) 0 ltac:(lia) ltac:(lia)).
Qed.

Lemma breaks_total_witness :
  lookahead_free (forwardTable (RBBI.data (RBBI.newRBBI (C := StringCursor.t)
                                             (mkFlatData pairs_table stop_table)))) = true /\
  breaks 10 (RBBI.newRBBI (mkFlatData pairs_table stop_table)) text_abc = Ret [2; 3] /\
  exists bs, breaks 10 (RBBI.newRBBI (mkFlatData pairs_table stop_table)) text_abc = Ret bs /\
    StronglySorted Z.lt (0 :: bs) /\ last (0 :: bs) = Some (len text_abc).
Proof.
  split; [vm_compute; reflexivity|]. split; [vm_compute; reflexivity|].
  apply (breaks_total 10 (RBBI.newRBBI (mkFlatData pairs_table stop_table)) text_abc).
  - vm_compute; reflexivity.
  - vm_compute; reflexivity.
  - apply trie_ok_mkFlatData.
  - vm_compute; discriminate.
  - vm_compute; discriminate.
Defined.

(** X14. [Previous] on well-formed data without lookahead rules never panics
    and terminates, whether or not the reverse table is safe for the forward
    table: [ok = false] exactly at the start of the text, where the cursor is
    left; otherwise the position returned is before the entry position and
    not negative, and the cursor is left there. *)
Theorem Previous_total (n : nat) (r : RBBI.t) (text : list byte) (p : Z) :
  lookahead_free (forwardTable (RBBI.data r)) = true ->
  forward_ok (RBBI.data r) = true -> reverse_ok (RBBI.data r) = true ->
  trie_ok (RBBI.data r) ->
  lookaheadResultsSize (forwardTable (RBBI.data r)) <= len (RBBI.lookaheadMatches r) ->
  0 <= p <= len text -> len text + 3 <= Z.of_nat n ->
  exists (r' : RBBI.t) (q : Z) (ok : bool),
    RBBI.Previous n (seek r text p) = Ret (r', (q, ok)) /\
    (ok = false <-> p = 0) /\
    (ok = false -> RBBI.cursor r' = Some (StringCursor.mk text p)) /\
    (ok = true -> 0 <= q < p /\ RBBI.cursor r' = Some (StringCursor.mk text q)).
Proof.
  intros Hfree Hfwd Hrev Htrie Hslots Hp Hn.
  destruct (Previous_returns (RBBI.data r) (RBBI.lookaheadMatches r) text n Hfree Hfwd Htrie
              Hslots Hn Hrev (RBBI.ruleStatusIndex r) p Hp)
    as [(-> & HP)|(Hpos & rsi' & q & Hq & HP)].
  - eexists _, (-1), false. split; [exact HP|].
    split; [tauto|]. split; [reflexivity|discriminate].
  - eexists _, q, true. split; [exact HP|].
    split; [split; [discriminate|lia]|]. split; [discriminate|].
    intros _. split; [exact Hq|reflexivity].
Qed.

Lemma Previous_total_witness :
  lookahead_free (forwardTable (RBBI.data (RBBI.newRBBI (C := StringCursor.t)
                                             (mkFlatData pairs_table stop_table)))) = true /\
  RBBI.Previous 10 (seek (RBBI.newRBBI (mkFlatData pairs_table stop_table)) text_abab 4)
  = Ret (string_engine (mkFlatData pairs_table stop_table) [] text_abab 0 3, (3, true)) /\
  exists (r' : RBBI.t) (q : Z) (ok : bool),
    RBBI.Previous 10 (seek (RBBI.newRBBI (mkFlatData pairs_table stop_table)) text_abab 4)
    = Ret (r', (q, ok)) /\
    (ok = false <-> 4 = 0) /\
    (ok = false -> RBBI.cursor r' = Some (StringCursor.mk text_abab 4)) /\
    (ok = true -> 0 <= q < 4 /\ RBBI.cursor r' = Some (StringCursor.mk text_abab q)).
Proof.
  split; [vm_compute; reflexivity|]. split; [vm_compute; reflexivity|].
  apply (Previous_total 10 (RBBI.newRBBI (mkFlatData pairs_table stop_table)) text_abab 4).
  - vm_compute; reflexivity.
  - vm_compute; reflexivity.
  - vm_compute; reflexivity.
  - apply trie_ok_mkFlatData.
  - vm_compute; discriminate.
  - vm_compute; split; discriminate.
  - vm_compute; discriminate.
Defined.

(** ** Iteration in both directions, and edge cases *)

(** X15. Backward iteration.  For a forward table without lookahead rules,
    with [bs] the break positions of the text and a reverse table that is
    safe at the start of the text and at every break position: calls of
    [Previous] from a break position [p] until [ok = false] return the break
    positions before [p], the start of the text included, in decreasing
    order. *)
Theorem Previous_all_reverse (n : nat) (r : RBBI.t) (text : list byte) (bs : list Z) (p : Z) :
  lookahead_free (forwardTable (RBBI.data r)) = true ->
  breaks n r text = Ret bs ->
  forallb (safe_restart n r text bs) (0 :: bs) = true ->
  In p (0 :: bs) ->
  Previous_all (S (length bs)) n (seek r text p)
  = Ret (rev (List.filter (fun b => b <? p) (0 :: bs))).
Proof.
  intros Hfree Hbs Hsafe Hin.
  exact (Previous_all_returns (RBBI.data r) (RBBI.lookaheadMatches r) text n
           (RBBI.ruleStatusIndex r) bs Hfree Hbs Hsafe (RBBI.ruleStatusIndex r) p Hin).
Qed.

Lemma Previous_all_reverse_witness :
  lookahead_free (forwardTable (RBBI.data (RBBI.newRBBI (C := StringCursor.t) each_data))) = true /\
  breaks 10 (RBBI.newRBBI each_data) text_abc = Ret [1; 2; 3] /\
  forallb (safe_restart 10 (RBBI.newRBBI each_data) text_abc [1; 2; 3]) (0 :: [1; 2; 3]) = true /\
  In 3 (0 :: [1; 2; 3]) /\
  Previous_all (S (length [1; 2; 3])) 10 (seek (RBBI.newRBBI each_data) text_abc 3)
  = Ret [2; 1; 0].
Proof.
  split; [vm_compute; reflexivity|]. split; [vm_compute; reflexivity|].
  split; [vm_compute; reflexivity|]. split; [cbn; tauto|].
  apply (Previous_all_reverse 10 (RBBI.newRBBI each_data) text_abc [1; 2; 3] 3).
  - vm_compute; reflexivity.
  - vm_compute; reflexivity.
  - vm_compute; reflexivity.
  - cbn; tauto.
Defined.

(** X16. [Next] and [Previous] are inverse to each other at break positions.
    Under the hypotheses of X15, from a break position [p] before the end of
    the text [Next] returns a break position [q] after [p] and [Previous] then
    returns [p]; from a break position [p] after the start [Previous] returns
    a break position [q] before [p] and [Next] then returns [p].  Each call
    leaves the cursor at the position it returns. *)
Theorem Next_Previous_round_trip (n : nat) (r : RBBI.t) (text : list byte) (bs : list Z)
  (p : Z) :
  lookahead_free (forwardTable (RBBI.data r)) = true ->
  breaks n r text = Ret bs ->
  forallb (safe_restart n r text bs) (0 :: bs) = true ->
  In p (0 :: bs) ->
  (p < len text ->
   exists (r1 r2 : RBBI.t) (q : Z),
     p < q <= len text /\ In q bs /\
     RBBI.Next n (seek r text p) = Ret (r1, (q, true)) /\
     RBBI.cursor r1 = Some (StringCursor.mk text q) /\
     RBBI.Previous n r1 = Ret (r2, (p, true)) /\
     RBBI.cursor r2 = Some (StringCursor.mk text p)) /\
  (0 < p ->
   exists (r1 r2 : RBBI.t) (q : Z),
     0 <= q < p /\ In q (0 :: bs) /\
     RBBI.Previous n (seek r text p) = Ret (r1, (q, true)) /\
     RBBI.cursor r1 = Some (StringCursor.mk text q) /\
     RBBI.Next n r1 = Ret (r2, (p, true)) /\
     RBBI.cursor r2 = Some (StringCursor.mk text p)).
Proof.
  intros Hfree Hbs Hsafe Hin. split; intros Hp.
  - destruct (Next_Previous_at_break (RBBI.data r) (RBBI.lookaheadMatches r) text n
                (RBBI.ruleStatusIndex r) bs Hfree Hbs Hsafe (RBBI.ruleStatusIndex r) p Hin Hp)
      as (rsi1 & rsi2 & q & Hq & Hinq & HN & HP).
    eexists _, _, q. split; [exact Hq|]. split; [exact Hinq|]. split; [exact HN|].
    split; [reflexivity|]. split; [exact HP|reflexivity].
  - destruct (Previous_Next_at_break (RBBI.data r) (RBBI.lookaheadMatches r) text n
                (RBBI.ruleStatusIndex r) bs Hfree Hbs Hsafe (RBBI.ruleStatusIndex r) p Hin Hp)
      as (rsi1 & rsi2 & q & Hq & Hinq & HP & HN).
    eexists _, _, q. split; [exact Hq|]. split; [exact Hinq|]. split; [exact HP|].
    split; [reflexivity|]. split; [exact HN|reflexivity].
Qed.

Lemma Next_Previous_round_trip_witness :
  lookahead_free (forwardTable (RBBI.data (RBBI.newRBBI (C := StringCursor.t) each_data))) = true /\
  breaks 10 (RBBI.newRBBI each_data) text_abc = Ret [1; 2; 3] /\
  forallb (safe_restart 10 (RBBI.newRBBI each_data) text_abc [1; 2; 3]) (0 :: [1; 2; 3]) = true /\
  In 1 (0 :: [1; 2; 3]) /\ 1 < len text_abc /\ 0 < 1 /\
  (exists (r1 r2 : RBBI.t) (q : Z),
     1 < q <= len text_abc /\ In q [1; 2; 3] /\
     RBBI.Next 10 (seek (RBBI.newRBBI each_data) text_abc 1) = Ret (r1, (q, true)) /\
     RBBI.cursor r1 = Some (StringCursor.mk text_abc q) /\
     RBBI.Previous 10 r1 = Ret (r2, (1, true)) /\
     RBBI.cursor r2 = Some (StringCursor.mk text_abc 1)) /\
  (exists (r1 r2 : RBBI.t) (q : Z),
     0 <= q < 1 /\ In q (0 :: [1; 2; 3]) /\
     RBBI.Previous 10 (seek (RBBI.newRBBI each_data) text_abc 1) = Ret (r1, (q, true)) /\
     RBBI.cursor r1 = Some (StringCursor.mk text_abc q) /\
     RBBI.Next 10 r1 = Ret (r2, (1, true)) /\
     RBBI.cursor r2 = Some (StringCursor.mk text_abc 1)).
Proof.
  assert (H1 : lookahead_free (forwardTable (RBBI.data
                 (RBBI.newRBBI (C := StringCursor.t) each_data))) = true)
    by (vm_compute; reflexivity).
  assert (H2 : breaks 10 (RBBI.newRBBI each_data) text_abc = Ret [1; 2; 3])
    by (vm_compute; reflexivity).
  assert (H3 : forallb (safe_restart 10 (RBBI.newRBBI each_data) text_abc [1; 2; 3])
                 (0 :: [1; 2; 3]) = true) by (vm_compute; reflexivity).
  assert (H4 : In 1 (0 :: [1; 2; 3])) by (cbn; tauto).
  assert (H5 : 1 < len text_abc) by (vm_compute; reflexivity).
  assert (H6 : 0 < 1) by lia.
  split; [exact H1|]. split; [exact H2|]. split; [exact H3|]. split; [exact H4|].
  split; [exact H5|]. split; [exact H6|].
  pose proof (Next_Previous_round_trip 10 (RBBI.newRBBI each_data) text_abc [1; 2; 3] 1
                H1 H2 H3 H4) as [Ha Hb].
  split; [exact (Ha H5)|exact (Hb H6)].
Defined.

(** X17. At the end of the text [Next] returns [(-1, false)], and at the
    start of the text [Previous] returns [(-1, false)], for any data, also
    with tables that have no rows: neither call reads the trie or a table.
    Both leave the cursor and the slots; [Next] sets the rule status to 0 and
    [Previous] leaves it. *)
Theorem exhausted_any_data (n : nat) (d : rbbiData) (lam : list Z) (text : list byte)
  (rsi : Z) :
  RBBI.Next n (string_engine d lam text rsi (len text))
  = Ret (string_engine d lam text 0 (len text), (-1, false)) /\
  RBBI.Previous (S n) (string_engine d lam text rsi 0)
  = Ret (string_engine d lam text rsi 0, (-1, false)).
Proof.
  pose proof (len_nonneg text). split.
  - unfold RBBI.Next, string_engine.
    cbn [RBBI.cursor RBBI.data RBBI.lookaheadMatches Next StringCursor_Cursor].
    rewrite StringCursor_Next_end by (cbn; lia). reflexivity.
  - unfold RBBI.Previous.
    change (RBBI.cursor (string_engine d lam text rsi 0)) with (Some (StringCursor.mk text 0)).
    cbn [Position StringCursor_Cursor StringCursor.Position StringCursor.position].
    cbn [RBBI.Previous_loop]. change (negb (-1 =? -1)) with false. cbv iota.
    rewrite (safePrevious_at_start d lam text (S n) rsi 0 ltac:(lia)). reflexivity.
Qed.

(** X18. [safePrevious] ignores the error of [SetPosition]: for a
    [fromPosition] that is negative or beyond the end of the text, the scan
    starts at the position the cursor has, and the call does what it does for
    that position. *)
Theorem safePrevious_out_of_range (fuel : nat) (d : rbbiData) (lam : list Z)
  (text : list byte) (rsi pos fromPosition : Z) :
  0 <= pos <= len text ->
  fromPosition < 0 \/ len text < fromPosition ->
  RBBI.safePrevious fuel (string_engine d lam text rsi pos) fromPosition
  = RBBI.safePrevious fuel (string_engine d lam text rsi pos) pos.
Proof.
  intros Hpos Hfrom. unfold RBBI.safePrevious, string_engine.
  cbn [RBBI.cursor RBBI.data SetPosition StringCursor_Cursor].
  rewrite (StringCursor_SetPosition_ok (StringCursor.mk text pos) pos) by (cbn; lia).
  unfold StringCursor.SetPosition. cbn [StringCursor.text StringCursor.position].
  destruct (Z.ltb_spec fromPosition 0); [reflexivity|].
  destruct (Z.ltb_spec (len text) fromPosition); [reflexivity|lia].
Qed.

Lemma safePrevious_out_of_range_witness :
  0 <= 2 <= len text_abc /\ (7 < 0 \/ len text_abc < 7) /\
  RBBI.safePrevious 3 (string_engine stop_data [] text_abc 0 2) 7
  = Ret (string_engine stop_data [] text_abc 0 0, (0, true)) /\
  RBBI.safePrevious 3 (string_engine stop_data [] text_abc 0 2) 7
  = RBBI.safePrevious 3 (string_engine stop_data [] text_abc 0 2) 2.
Proof.
  split; [vm_compute; split; discriminate|]. split; [right; vm_compute; reflexivity|].
  split; [vm_compute; reflexivity|].
  apply (safePrevious_out_of_range 3 stop_data [] text_abc 0 2 7);
    [vm_compute; split; discriminate|right; vm_compute; reflexivity].
Defined.

(** ** The engine as the package builds it *)

Lemma Next_calls_return (d : rbbiData) (text : list byte) (n : nat) :
  forward_ok d = true -> trie_ok d -> len text + 3 <= Z.of_nat n ->
  forall (k : nat) (lam : list Z) (rsi p : Z),
    lookaheadResultsSize (forwardTable d) <= len lam -> 0 <= p <= len text ->
    exists lam' rsi' pc,
      Next_calls k n (string_engine d lam text rsi p) = Ret (string_engine d lam' text rsi' pc) /\
      length lam' = length lam /\ 0 <= pc <= len text.
Proof.
  intros Hfwd Htrie Hn. induction k as [|k IH]; intros lam rsi p Hslots Hp.
  - exists lam, rsi, p. auto.
  - cbn [Next_calls].
    destruct (Next_returns d lam text Hfwd Htrie Hslots n rsi p Hp ltac:(lia))
      as (lam1 & rsi1 & pc1 & q & ok & -> & Hlen & Hpc & _).
    cbn [mbind outcome_bind].
    destruct (IH lam1 rsi1 pc1 ltac:(unfold len in *; lia) Hpc)
      as (lam' & rsi' & pc & HN & Hlen' & Hpc').
    exists lam', rsi', pc. split; [exact HN|]. split; [lia|exact Hpc'].
Qed.

(** X20. The engine as the package builds it: [newRBBI] followed by
    [SetCursor] with the cursor [NewStringCursor] makes.  On well-formed data
    (the forward table may have lookahead rules) any number of calls of
    [Next], each with fuel for the text, all return: none panics.  The engine
    they leave has the data it was made with, as many slots as [newRBBI]
    allocated, one for each lookahead rule, and its cursor within the
    text. *)
Theorem new_engine_Next_calls (d : rbbiData) (text : list byte) (n k : nat) :
  forward_ok d = true -> trie_ok d -> len text + 3 <= Z.of_nat n ->
  exists (r' : RBBI.t) (pc : Z),
    Next_calls k n (RBBI.SetCursor (RBBI.newRBBI d) (StringCursor.NewStringCursor text))
    = Ret r' /\
    RBBI.data r' = d /\
    length (RBBI.lookaheadMatches r') = Z.to_nat (lookaheadResultsSize (forwardTable d)) /\
    RBBI.cursor r' = Some (StringCursor.mk text pc) /\ 0 <= pc <= len text.
Proof.
  intros Hfwd Htrie Hn. pose proof (len_nonneg text).
  destruct (Next_calls_return d text n Hfwd Htrie Hn k
              (replicate (Z.to_nat (lookaheadResultsSize (forwardTable d))) 0) 0 0)
    as (lam' & rsi' & pc & HN & Hlen & Hpc).
  { unfold len. rewrite length_replicate. lia. }
  { lia. }
  exists (string_engine d lam' text rsi' pc), pc.
  split; [exact HN|]. split; [reflexivity|].
  split; [cbn; rewrite Hlen, length_replicate; reflexivity|]. split; [reflexivity|exact Hpc].
Qed.

Lemma new_engine_Next_calls_witness :
  forward_ok (mkFlatData lookahead_table stop_table) = true /\
  trie_ok (mkFlatData lookahead_table stop_table) /\
  len text_ab + 3 <= Z.of_nat 5 /\
  Next_calls 3 5 (RBBI.SetCursor (RBBI.newRBBI (mkFlatData lookahead_table stop_table))
                    (StringCursor.NewStringCursor text_ab))
  = Ret (string_engine (mkFlatData lookahead_table stop_table) [0; 0; 1] text_ab 7 1) /\
  exists (r' : RBBI.t) (pc : Z),
    Next_calls 3 5 (RBBI.SetCursor (RBBI.newRBBI (mkFlatData lookahead_table stop_table))
                      (StringCursor.NewStringCursor text_ab))
    = Ret r' /\
    RBBI.data r' = mkFlatData lookahead_table stop_table /\
    length (RBBI.lookaheadMatches r')
    = Z.to_nat (lookaheadResultsSize (forwardTable (mkFlatData lookahead_table stop_table))) /\
    RBBI.cursor r' = Some (StringCursor.mk text_ab pc) /\ 0 <= pc <= len text_ab.
Proof.
  split; [vm_compute; reflexivity|]. split; [apply trie_ok_mkFlatData|].
  split; [vm_compute; discriminate|]. split; [vm_compute; reflexivity|].
  apply (new_engine_Next_calls (mkFlatData lookahead_table stop_table) text_ab 5 3).
  - vm_compute; reflexivity.
  - apply trie_ok_mkFlatData.
  - vm_compute; discriminate.
Defined.

(** ** The dictionary categories have no effect *)

Lemma bind_map_inv {A B : Type} (f : A -> B) (m' m : outcome A) :
  (x ← m'; Ret (f x)) = (x ← m; Ret (f x)) ->
  match m', m with
  | Ret a', Ret a => f a' = f a
  | Panic, Panic => True
  | Timeout, Timeout => True
  | _, _ => False
  end.
Proof. destruct m', m; cbn; intros E; try discriminate E; auto. injection E. auto. Qed.

Section Dictionary.

Context {C : Type} `{Cursor C}.

Variables (d : rbbiData) (v : Z).

Local Abbreviation d' := (with_dictCategoriesStart d v).

Ltac scan_simpl :=
  cbv beta iota zeta delta
    [RBBI.set_lookaheadMatches RBBI.set_ruleStatusIndex RBBI.set_cursor RBBI.set_category
     RBBI.set_dictionaryCharCount RBBI.set_result RBBI.set_read RBBI.set_state RBBI.set_mode
     RBBI.s_lookaheadMatches RBBI.s_ruleStatusIndex RBBI.s_cursor RBBI.s_category
     RBBI.s_dictionaryCharCount RBBI.s_result RBBI.s_c RBBI.s_nextOk RBBI.s_state RBBI.s_row
     RBBI.s_mode forget_count forget_step negb andb rbbiRunMode_eqb mbind mret
     outcome_bind outcome_ret];
  cbn [with_dictCategoriesStart forwardTable lookaheadResultsSize rows trie categoryCount
       dictCategoriesStart bofRequired].

Ltac cases :=
  repeat (match goal with
          | |- context [ucpTrie.fastGet ?t ?c] => destruct (ucpTrie.fastGet t c); scan_simpl
          | |- context [slice_index ?l ?i] => destruct (slice_index l i); scan_simpl
          | |- context [store ?l ?i ?x] => destruct (store l i x); scan_simpl
          | |- context [Next ?c] => destruct (Next c) as [[? [? ?]]| |]; scan_simpl
          | |- context [if ?b then _ else _] => destruct b; scan_simpl
          end; try reflexivity).

Lemma Next_transition_dictionary (s s' : RBBI.scan (C := C)) :
  forget_count s' = forget_count s ->
  (s1 ← RBBI.Next_transition d' s'; Ret (forget_count s1))
  = (s1 ← RBBI.Next_transition d s; Ret (forget_count s1)).
Proof.
  destruct s as [lm rsi cur cat dcc res c ok state row mode].
  destruct s' as [lm' rsi' cur' cat' dcc' res' c' ok' state' row' mode'].
  unfold forget_count. cbn. intros [= -> -> -> -> -> -> -> -> -> ->].
  unfold RBBI.Next_transition. scan_simpl.
  destruct ok; scan_simpl; destruct mode; scan_simpl;
    try (destruct (ucpTrie.fastGet (trie d) c) as [a| |]; scan_simpl; [|reflexivity..];
         destruct (v <=? uint16 a); destruct (dictCategoriesStart (forwardTable d) <=? uint16 a);
         scan_simpl);
    cases.
Qed.

Lemma Next_advance_dictionary (s s' : RBBI.scan (C := C)) :
  forget_count s' = forget_count s ->
  (st ← RBBI.Next_advance d' s'; Ret (forget_step st))
  = (st ← RBBI.Next_advance d s; Ret (forget_step st)).
Proof.
  destruct s as [lm rsi cur cat dcc res c ok state row mode].
  destruct s' as [lm' rsi' cur' cat' dcc' res' c' ok' state' row' mode'].
  unfold forget_count. cbn. intros [= -> -> -> -> -> -> -> -> -> ->].
  unfold RBBI.Next_advance. scan_simpl.
  destruct mode; scan_simpl; cases.
Qed.

Lemma Next_row_dictionary (s s' : RBBI.scan (C := C)) :
  forget_count s' = forget_count s ->
  (st ← RBBI.Next_row d' s'; Ret (forget_step st))
  = (st ← RBBI.Next_row d s; Ret (forget_step st)).
Proof.
  intros E. unfold RBBI.Next_row, RBBI.Next_accept.
  assert (Ea : accepting (RBBI.s_row s') = accepting (RBBI.s_row s)).
  { destruct s, s'. injection E. intros; subst. reflexivity. }
  assert (Et : tagIndex (RBBI.s_row s') = tagIndex (RBBI.s_row s)).
  { destruct s, s'. injection E. intros; subst. reflexivity. }
  assert (Em : RBBI.s_mode s' = RBBI.s_mode s).
  { destruct s, s'. injection E. intros; subst. reflexivity. }
  assert (Ec : RBBI.s_cursor s' = RBBI.s_cursor s).
  { destruct s, s'. injection E. intros; subst. reflexivity. }
  assert (El : RBBI.s_lookaheadMatches s' = RBBI.s_lookaheadMatches s).
  { destruct s, s'. injection E. intros; subst. reflexivity. }
  cbv zeta. rewrite Ea, Et, Em, Ec, El.
  change (lookaheadResultsSize (forwardTable d')) with (lookaheadResultsSize (forwardTable d)).
  destruct (u8 (accepting (RBBI.s_row s)) =? rbbiAcceptingUnconditional).
  - cbn [mbind outcome_bind]. apply Next_advance_dictionary.
    destruct (negb _); destruct s, s'; cbn in *; injection E; intros; subst; reflexivity.
  - destruct (rbbiAcceptingUnconditional <? u8 (accepting (RBBI.s_row s))).
    + destruct (lookaheadResultsSize (forwardTable d) <=? u8 (accepting (RBBI.s_row s)));
        [reflexivity|].
      destruct (slice_index _ _) as [saved| |]; cbn [mbind outcome_bind]; try reflexivity.
      destruct (0 <=? saved); cbn [mbind outcome_bind].
      * cbn. f_equal. f_equal. destruct s, s'; cbn in *; injection E; intros; subst; reflexivity.
      * apply Next_advance_dictionary. exact E.
    + cbn [mbind outcome_bind]. apply Next_advance_dictionary. exact E.
Qed.

Lemma forget_count_fields (s s' : RBBI.scan (C := C)) :
  forget_count s' = forget_count s ->
  RBBI.s_lookaheadMatches s' = RBBI.s_lookaheadMatches s /\
  RBBI.s_ruleStatusIndex s' = RBBI.s_ruleStatusIndex s /\
  RBBI.s_cursor s' = RBBI.s_cursor s /\
  RBBI.s_result s' = RBBI.s_result s /\
  RBBI.s_nextOk s' = RBBI.s_nextOk s /\
  RBBI.s_mode s' = RBBI.s_mode s.
Proof.
  destruct s, s'. unfold forget_count. cbn. intros [= -> -> -> -> -> -> -> -> -> ->]. auto 10.
Qed.

Lemma Next_body_dictionary (s s' : RBBI.scan (C := C)) :
  forget_count s' = forget_count s ->
  (st ← RBBI.Next_body d' s'; Ret (forget_step st))
  = (st ← RBBI.Next_body d s; Ret (forget_step st)).
Proof.
  intros E. destruct (forget_count_fields s s' E) as (_ & _ & _ & _ & Eok & Em).
  unfold RBBI.Next_body. rewrite Eok, Em.
  destruct (negb (RBBI.s_nextOk s) && rbbiRunMode_eqb (RBBI.s_mode s) rbbiRunModeEnd).
  - cbn. rewrite E. reflexivity.
  - pose proof (bind_map_inv _ _ _ (Next_transition_dictionary s s' E)) as Ht.
    destruct (RBBI.Next_transition d' s') as [s1'| |], (RBBI.Next_transition d s) as [s1| |];
      try contradiction; try reflexivity.
    cbn [mbind outcome_bind]. apply Next_row_dictionary. exact Ht.
Qed.

Lemma Next_loop_dictionary (fuel : nat) :
  forall s s' : RBBI.scan (C := C),
    forget_count s' = forget_count s ->
    (st ← RBBI.Next_loop fuel d' s'; Ret (forget_step st))
    = (st ← RBBI.Next_loop fuel d s; Ret (forget_step st)).
Proof.
  induction fuel as [|fuel IH]; intros s s' E; [reflexivity|].
  cbn [RBBI.Next_loop].
  pose proof (bind_map_inv _ _ _ (Next_body_dictionary s s' E)) as Hb.
  destruct (RBBI.Next_body d' s') as [st'| |], (RBBI.Next_body d s) as [st| |];
    try contradiction; try reflexivity.
  cbn [mbind outcome_bind].
  destruct st' as [s1'|s1'|s1' q' ok'], st as [s1|s1|s1 q ok]; try discriminate Hb.
  - apply IH. cbn [forget_step] in Hb. congruence.
  - cbn [mbind outcome_bind]. rewrite Hb. reflexivity.
  - cbn [mbind outcome_bind]. rewrite Hb. reflexivity.
Qed.

Lemma Next_finish_dictionary (initialPosition : Z) (s s' : RBBI.scan (C := C)) :
  forget_count s' = forget_count s ->
  RBBI.Next_finish d' initialPosition s'
  = '(r1, res) ← RBBI.Next_finish d initialPosition s; Ret (with_data r1 d', res).
Proof.
  destruct s as [lm rsi cur cat dcc res c ok state row mode].
  destruct s' as [lm' rsi' cur' cat' dcc' res' c' ok' state' row' mode'].
  unfold forget_count. cbn. intros [= -> -> -> -> -> -> -> -> -> ->].
  unfold RBBI.Next_finish, RBBI.engine_of, with_data. scan_simpl.
  destruct (res =? initialPosition); [|reflexivity].
  destruct (Next (fst (SetPosition cur initialPosition))) as [[cur1 [c1 ok1]]| |];
    scan_simpl; try reflexivity.
  destruct ok1; reflexivity.
Qed.

Lemma Next_dictionary (n : nat) (lam : list Z) (rsi : Z) (cur : option C) :
  RBBI.Next n (RBBI.mk d' lam rsi cur)
  = '(r1, res) ← RBBI.Next n (RBBI.mk d lam rsi cur); Ret (with_data r1 d', res).
Proof.
  unfold RBBI.Next. cbn [RBBI.cursor RBBI.data RBBI.lookaheadMatches].
  destruct cur as [cur|]; [|reflexivity].
  destruct (Next cur) as [[cur1 [c ok]]| |]; cbn [mbind outcome_bind]; try reflexivity.
  destruct ok; cbn [negb]; [|reflexivity].
  change (rows (forwardTable d')) with (rows (forwardTable d)).
  destruct (slice_index (rows (forwardTable d)) rbbiStateStart) as [row| |];
    cbn [mbind outcome_bind]; try reflexivity.
  change (RBBI.Next_init (RBBI.mk d' lam rsi (Some cur)) cur1 (Position cur) c row)
    with (RBBI.Next_init (RBBI.mk d lam rsi (Some cur)) cur1 (Position cur) c row).
  set (s0 := RBBI.Next_init _ _ _ _ _).
  pose proof (bind_map_inv _ _ _ (Next_loop_dictionary n s0 s0 eq_refl)) as Hl.
  destruct (RBBI.Next_loop n d' s0) as [st'| |], (RBBI.Next_loop n d s0) as [st| |];
    try contradiction; try reflexivity.
  cbn [mbind outcome_bind].
  destruct st' as [s1'|s1'|s1' q' ok'], st as [s1|s1|s1 q ok]; try discriminate Hl.
  - reflexivity.
  - apply Next_finish_dictionary. cbn [forget_step] in Hl. congruence.
  - cbn [forget_step] in Hl.
    assert (Hs : forget_count s1' = forget_count s1) by congruence.
    assert (q' = q) as -> by congruence. assert (ok' = ok) as -> by congruence.
    apply forget_count_fields in Hs as (El & Er & Ec & _).
    cbn. unfold RBBI.engine_of, with_data. cbn. rewrite El, Er, Ec. reflexivity.
Qed.

End Dictionary.

(** X19. The count of dictionary characters has no effect: for every cursor
    type, [Next] on an engine whose forward table has another
    [dictCategoriesStart] panics, runs out of fuel or returns exactly as on
    the engine itself, with the same position, [ok], slots, rule status and
    cursor. *)
Theorem Next_ignores_dictCategoriesStart {C : Type} `{Cursor C} (n : nat) (r : RBBI.t (C := C))
  (v : Z) :
  RBBI.Next n (with_data r (with_dictCategoriesStart (RBBI.data r) v))
  = '(r1, res) ← RBBI.Next n r;
    Ret (with_data r1 (with_dictCategoriesStart (RBBI.data r) v), res).
Proof. destruct r as [d lam rsi cur]. apply Next_dictionary. Qed.

(** ** [Previous] with lookahead rules *)

Lemma answer_Ret {A B : Type} (o : outcome (A * B)) (b : B) :
  answer o = Ret b -> exists a, o = Ret (a, b).
Proof. destruct o as [[a b']| |]; cbn; intros E; try discriminate E. injection E as ->. eauto. Qed.

Section Previous_slots.

Variables (d : rbbiData) (L : nat) (text : list byte) (n : nat).

Local Abbreviation irr := (slots_irrelevant n d L text).

(** A call of [Next] from a position where the slots are irrelevant: when
    it returns [ok = true], the position is beyond the entry position, within
    the text, and the cursor is left there. *)
Lemma Next_step_slots (lam : list Z) (rsi q : Z) (r' : RBBI.t) (b : Z) (ok : bool) :
  0 <= q <= len text ->
  irr q ->
  length lam = L ->
  RBBI.Next n (string_engine d lam text rsi q) = Ret (r', (b, ok)) ->
  (ok = false /\ q = len text) \/
  (ok = true /\ q < b <= len text /\
   exists lam' rsi', length lam' = L /\ r' = string_engine d lam' text rsi' b).
Proof.
  intros Hq Hirr Hlen HN.
  pose proof (Next_StringCursor d lam text n rsi q Hq) as HS. rewrite HN in HS.
  destruct HS as (Hd & (Hl & _) & HS).
  destruct ok; [right|left; split; [reflexivity|tauto]].
  destruct HS as (_ & Hb0 & _ & Hcur).
  assert (Hb : q < b <= len text).
  { pose proof (Hirr lam (replicate L (-1)) rsi 0 Hlen (length_replicate _ _)) as E.
    rewrite HN in E. cbn [answer] in E. symmetry in E.
    apply answer_Ret in E as (r2 & E).
    pose proof (Next_StringCursor d (replicate L (-1)) text n 0 q Hq) as HS2.
    rewrite E in HS2. destruct HS2 as (_ & _ & _ & _ & [(i & Hi)|Hb] & _); [|exact Hb].
    apply lookup_replicate in Hi as [Hi _]. lia. }
  split; [reflexivity|]. split; [exact Hb|].
  exists (RBBI.lookaheadMatches r'), (RBBI.ruleStatusIndex r').
  split; [congruence|].
  specialize (Hcur ltac:(lia)). destruct r' as [d' lam' rsi' cur']. cbn in *.
  unfold string_engine. congruence.
Qed.

Lemma Next_all_step_slots (f : nat) (lam : list Z) (rsi pos : Z) (bs : list Z) :
  0 <= pos <= len text ->
  irr pos ->
  length lam = L ->
  Next_all f n (string_engine d lam text rsi pos) = Ret bs ->
  (pos = len text /\ bs = []) \/
  (exists f' b bs' lam' rsi',
     f = S f' /\ pos < b <= len text /\ length lam' = L /\
     RBBI.Next n (string_engine d lam text rsi pos)
     = Ret (string_engine d lam' text rsi' b, (b, true)) /\
     bs = b :: bs' /\ Next_all f' n (string_engine d lam' text rsi' b) = Ret bs').
Proof.
  intros Hpos Hirr Hlen. destruct f as [|f]; [discriminate|]. cbn [Next_all].
  intros H. apply bind_Ret in H as ([r' [q ok]] & HN & H).
  destruct (Next_step_slots lam rsi pos r' q ok Hpos Hirr Hlen HN)
    as [(-> & ->)|(-> & Hq & lam' & rsi' & Hlen' & ->)]; cbn [negb] in H.
  - left. injection H as <-. auto.
  - right. apply bind_Ret in H as (l & Hl & [= <-]).
    exists f, q, l, lam', rsi'. auto 10.
Qed.

Lemma Next_all_sorted_slots (f : nat) (lam : list Z) (rsi pos : Z) (bs : list Z) :
  0 <= pos <= len text ->
  Forall irr (pos :: bs) ->
  length lam = L ->
  Next_all f n (string_engine d lam text rsi pos) = Ret bs ->
  StronglySorted Z.lt (pos :: bs) /\ Forall (fun b => pos < b <= len text) bs.
Proof.
  revert lam rsi pos bs. induction f as [|f IH]; intros lam rsi pos bs Hpos Hirr Hlen H;
    [discriminate|].
  apply Forall_cons in Hirr as [Hirr0 Hirr].
  destruct (Next_all_step_slots _ _ _ _ _ Hpos Hirr0 Hlen H)
    as [(_ & ->)|(f' & b & bs' & lam' & rsi' & [= <-] & Hb & Hlen' & _ & -> & Hr)].
  - split; [repeat constructor|constructor].
  - destruct (IH lam' rsi' b bs' ltac:(lia) Hirr Hlen' Hr) as [Hs Hall].
    assert (Hall' : Forall (fun x => pos < x <= len text) (b :: bs')).
    { constructor; [lia|]. eapply Forall_impl; [exact Hall|]. cbn. intros; lia. }
    split; [|exact Hall'].
    constructor; [exact Hs|]. eapply Forall_impl; [exact Hall'|]. cbn. intros; lia.
Qed.

(** The break positions from a position on do not depend on the slots. *)
Lemma Next_all_any_slots (f : nat) (lam lam2 : list Z) (rsi rsi2 pos : Z) (bs : list Z) :
  0 <= pos <= len text ->
  Forall irr (pos :: bs) ->
  length lam = L -> length lam2 = L ->
  Next_all f n (string_engine d lam text rsi pos) = Ret bs ->
  Next_all f n (string_engine d lam2 text rsi2 pos) = Ret bs.
Proof.
  revert lam lam2 rsi rsi2 pos bs.
  induction f as [|f IH]; intros lam lam2 rsi rsi2 pos bs Hpos Hirr Hlen Hlen2 H;
    [discriminate|].
  apply Forall_cons in Hirr as [Hirr0 Hirr].
  cbn [Next_all] in *. apply bind_Ret in H as ([r' [q ok]] & HN & H).
  pose proof (Hirr0 lam2 lam rsi2 rsi Hlen2 Hlen) as E. rewrite HN in E. cbn [answer] in E.
  apply answer_Ret in E as (r2 & E). rewrite E. cbn [mbind outcome_bind].
  destruct ok; cbn [negb] in *; [|exact H].
  apply bind_Ret in H as (l & Hl & [= <-]).
  destruct (Next_step_slots lam rsi pos r' q true Hpos Hirr0 Hlen HN)
    as [(Hf & _)|(_ & Hq & lam' & rsi' & Hlen' & ->)]; [discriminate Hf|].
  destruct (Next_step_slots lam2 rsi2 pos r2 q true Hpos Hirr0 Hlen2 E)
    as [(Hf & _)|(_ & _ & lam2' & rsi2' & Hlen2' & ->)]; [discriminate Hf|].
  rewrite (IH lam' lam2' rsi' rsi2' q l ltac:(lia) Hirr Hlen' Hlen2' Hl). reflexivity.
Qed.

Lemma Next_all_suffix_slots (pre suf : list Z) (q : Z) :
  forall (f : nat) (lam : list Z) (rsi pos : Z),
    0 <= pos <= len text ->
    Forall irr (pos :: pre ++ q :: suf) ->
    length lam = L ->
    Next_all f n (string_engine d lam text rsi pos) = Ret (pre ++ q :: suf) ->
    exists f' lam' rsi',
      length lam' = L /\ Next_all f' n (string_engine d lam' text rsi' q) = Ret suf.
Proof.
  induction pre as [|a pre IH]; intros f lam rsi pos Hpos Hirr Hlen H;
    apply Forall_cons in Hirr as [Hirr0 Hirr];
    destruct (Next_all_step_slots _ _ _ _ _ Hpos Hirr0 Hlen H)
      as [(_ & Hnil)|(f' & b & bs' & lam' & rsi' & _ & Hb & Hlen' & _ & Hbs & Hr)];
    try (destruct pre; discriminate Hnil); try discriminate Hnil.
  - injection Hbs as <- <-. eauto.
  - cbn [app] in Hbs. injection Hbs as <- <-.
    eapply (IH f' lam' rsi' a); [lia|exact Hirr|exact Hlen'|exact Hr].
Qed.

(** The inner loop of [Previous], started at a break position [pos] before
    [p0]: it ends with the cursor at the first break position from [p0] on
    and with the last break position before [p0], if there is one. *)
Lemma Previous_replay_slots (bs : list Z) :
  forall (f fr : nat) (lam : list Z) (rsi pos last p0 : Z),
    0 <= pos < p0 -> p0 <= len text ->
    Forall irr (pos :: bs) ->
    length lam = L ->
    Next_all f n (string_engine d lam text rsi pos) = Ret bs ->
    (length bs <= fr)%nat ->
    exists lam' rsi' b, length lam' = L /\ p0 <= b <= len text /\
      RBBI.Previous_replay fr n (string_engine d lam text rsi pos) p0 last
      = Ret (string_engine d lam' text rsi' b, default last (largest_below p0 bs)).
Proof.
  induction bs as [|b0 bs IH]; intros f fr lam rsi pos last p0 Hpos Hp0 Hirr Hlen H Hfr;
    pose proof (Next_all_sorted_slots f lam rsi pos _ ltac:(lia) Hirr Hlen H) as [Hs Hall];
    pose proof Hirr as Hirr'; apply Forall_cons in Hirr' as [Hirr0 Hirr1];
    destruct (Next_all_step_slots f lam rsi pos _ ltac:(lia) Hirr0 Hlen H)
      as [(Hend & _)|(f' & b & bs' & lam' & rsi' & _ & Hb & Hlen' & HN & Hbs & Hr)]; try lia;
    try discriminate Hbs.
  injection Hbs as <- <-.
  destruct fr as [|fr]; [cbn in Hfr; lia|].
  cbn [RBBI.Previous_replay]. rewrite HN. cbn [mbind outcome_bind negb].
  unfold string_engine at 1. cbn [RBBI.cursor Position StringCursor_Cursor
    StringCursor.Position StringCursor.position].
  destruct (Z.leb_spec p0 b0).
  - exists lam', rsi', b0. split; [exact Hlen'|]. split; [lia|].
    rewrite largest_below_None; [reflexivity|].
    apply StronglySorted_inv in Hs as [Hs _]. apply StronglySorted_inv in Hs as [_ Hall'].
    constructor; [lia|]. eapply Forall_impl; [exact Hall'|]. cbn. intros; lia.
  - destruct (IH f' fr lam' rsi' b0 b0 p0 ltac:(lia) Hp0 Hirr1 Hlen' Hr ltac:(cbn in Hfr; lia))
      as (lam2 & rsi2 & b & Hlen2 & Hb2 & ->).
    exists lam2, rsi2, b. split; [exact Hlen2|]. split; [assumption|].
    apply StronglySorted_inv in Hs as [Hs _].
    rewrite (largest_below_cons p0 b0 bs Hs) by lia. reflexivity.
Qed.

(** The result of [safePrevious] depends on the engine through its data and
    the text only. *)
Lemma safePrevious_any_slots (fuel : nat) (lam lam2 : list Z)
  (rsi pos rsi2 pos2 fromPosition q q' : Z) (ok : bool) :
  0 <= fromPosition <= len text ->
  RBBI.safePrevious fuel (string_engine d lam text rsi pos) fromPosition
  = Ret (string_engine d lam text rsi q, (q', ok)) ->
  RBBI.safePrevious fuel (string_engine d lam2 text rsi2 pos2) fromPosition
  = Ret (string_engine d lam2 text rsi2 q, (q', ok)).
Proof.
  intros Hfrom. unfold RBBI.safePrevious, string_engine.
  cbn [RBBI.cursor RBBI.data SetPosition StringCursor_Cursor Previous].
  rewrite !StringCursor_SetPosition_ok by (cbn; lia). cbn [fst StringCursor.text].
  destruct (StringCursor.Previous _) as [[cur [c ok0]]| |]; cbn [mbind outcome_bind];
    try discriminate.
  destruct ok0; cbn [negb].
  - destruct (slice_index _ _) as [row| |]; cbn [mbind outcome_bind]; try discriminate.
    destruct (RBBI.safePrevious_loop _ _ _ _ _ _ _) as [[cur' st]| |];
      cbn [mbind outcome_bind]; try discriminate.
    unfold RBBI.with_cursor. cbn. intros [= -> <- <-]. reflexivity.
  - unfold RBBI.with_cursor. cbn. intros [= -> <- <-]. reflexivity.
Qed.

(** The break positions after a break position [q] are those that calls of
    [Next] from [q] return. *)
Lemma breaks_chain_slots (lam0 : list Z) (rsi0 q : Z) (bs : list Z) :
  length lam0 = L ->
  Forall irr (0 :: bs) ->
  Next_all n n (string_engine d lam0 text rsi0 0) = Ret bs ->
  In q (0 :: bs) ->
  exists pre suf f' lam' rsi',
    0 :: bs = pre ++ q :: suf /\
    length lam' = L /\
    Forall irr (q :: suf) /\
    Next_all f' n (string_engine d lam' text rsi' q) = Ret suf /\
    (length suf <= length bs)%nat.
Proof.
  intros Hlen Hirr Hb Hin. pose proof (len_nonneg text) as Hlt.
  apply in_split in Hin as (pre & suf & Hsplit).
  assert (Hirrq : Forall irr (q :: suf)).
  { rewrite Hsplit in Hirr. apply Forall_app in Hirr as [_ Hirr]. exact Hirr. }
  exists pre, suf. destruct pre as [|a pre].
  - cbn [app] in Hsplit. injection Hsplit as <- <-.
    exists n, lam0, rsi0. auto 10.
  - cbn [app] in Hsplit. injection Hsplit as <- ->.
    destruct (Next_all_suffix_slots pre suf q n lam0 rsi0 0 ltac:(lia) Hirr Hlen Hb)
      as (f' & lam' & rsi' & Hlen' & Hs).
    exists f', lam', rsi'. split; [reflexivity|]. split; [exact Hlen'|].
    split; [exact Hirrq|]. split; [exact Hs|].
    rewrite length_app. cbn. lia.
Qed.

Lemma Previous_loop_slots (lam : list Z) (rsi p : Z) (bs : list Z) :
  length lam = L ->
  0 <= p <= len text ->
  Next_all n n (string_engine d lam text rsi 0) = Ret bs ->
  Forall irr (0 :: bs) ->
  forallb (fun s =>
             match RBBI.safePrevious n (string_engine d lam text rsi s) s with
             | Ret (_, (q, ok)) => negb ok || existsb (Z.eqb q) (0 :: bs)
             | _ => false
             end)
          (p :: List.filter (fun b => b <? p) (0 :: bs)) = true ->
  forall fuel, (length bs < fuel)%nat ->
  (p = 0 /\ RBBI.Previous_loop fuel n (string_engine d lam text rsi p) p p (-1)
            = Ret (string_engine d lam text rsi p, (-1, false))) \/
  (0 < p /\ exists lam' rsi' q,
     largest_below p (0 :: bs) = Some q /\
     RBBI.Previous_loop fuel n (string_engine d lam text rsi p) p p (-1)
     = Ret (string_engine d lam' text rsi' q, (q, true))).
Proof.
  intros Hlen Hp Hb Hirr Hsafe fuel Hfuel.
  pose proof (Next_all_length _ _ _ _ Hb) as Hn.
  pose proof (Next_all_sorted_slots n lam rsi 0 bs ltac:(lia) Hirr Hlen Hb) as [Hsorted Hall].
  rewrite forallb_forall in Hsafe.
  assert (Hsafe' : forall s, s = p \/ (In s (0 :: bs) /\ s < p) ->
    exists r1 q1 ok1,
      RBBI.safePrevious n (string_engine d lam text rsi s) s = Ret (r1, (q1, ok1)) /\
      (ok1 = true -> In q1 (0 :: bs))).
  { intros s Hs.
    assert (Hin : In s (p :: List.filter (fun b => b <? p) (0 :: bs))).
    { destruct Hs as [->|[Hin Hlt]]; [left; reflexivity|right].
      apply filter_In. split; [assumption|]. apply Z.ltb_lt. assumption. }
    specialize (Hsafe s Hin).
    destruct (RBBI.safePrevious n (string_engine d lam text rsi s) s) as [[r1 [q1 ok1]]| |];
      try discriminate.
    exists r1, q1, ok1. split; [reflexivity|]. intros ->. cbn [negb orb] in Hsafe.
    apply existsb_exists in Hsafe as (x & Hx & Heq). apply Z.eqb_eq in Heq. subst x.
    exact Hx. }
  destruct fuel as [|n1]; [lia|].
  cbn [RBBI.Previous_loop]. change (negb (-1 =? -1)) with false. cbv iota.
  destruct (Z.eq_dec p 0) as [->|Hp0].
  { left. split; [reflexivity|].
    rewrite safePrevious_at_start by lia. cbn [mbind outcome_bind negb].
    rewrite Z.eqb_refl. reflexivity. }
  right. split; [lia|].
  (* the first safe point *)
  destruct (Hsafe' p (or_introl eq_refl)) as (r1 & q1 & ok1 & HS1 & Hin1).
  destruct (safePrevious_shape d lam text n rsi p p r1 q1 ok1 Hp HS1)
    as [(_ & ? & _)|(-> & Hq1 & ->)]; [lia|].
  specialize (Hin1 eq_refl).
  rewrite HS1. cbn [mbind outcome_bind negb].
  destruct (breaks_chain_slots lam rsi q1 bs Hlen Hirr Hb Hin1)
    as (pre & suf & f1 & lam1 & rsi1 & Hsplit & Hlen1 & Hirr1 & Hchain & Hlens1).
  apply (Next_all_any_slots f1 lam1 lam rsi1 rsi q1 suf ltac:(lia) Hirr1 Hlen1 Hlen) in Hchain.
  destruct (Previous_replay_slots suf f1 n lam rsi q1 (-1) p ltac:(lia) ltac:(lia)
    Hirr1 Hlen Hchain ltac:(lia)) as (lam2 & rsi2 & b & Hlen2 & Hb2 & ->).
  cbn [mbind outcome_bind].
  assert (Hlb1 : largest_below p (0 :: bs) = Some (default q1 (largest_below p suf))).
  { rewrite Hsplit. apply largest_below_app; [rewrite <- Hsplit; exact Hsorted|lia]. }
  assert (Hbound : forall x, In x (0 :: bs) -> 0 <= x <= len text).
  { intros x [<-|Hx]; [lia|]. rewrite List.Forall_forall in Hall. specialize (Hall x Hx). lia. }
  destruct (largest_below p suf) as [x|] eqn:Elb.
  - (* the replay has found the break *)
    exists lam2, rsi2, x. split; [exact Hlb1|].
    apply Previous_loop_found.
    apply largest_below_In in Elb as [Hx _]. apply Hbound.
    rewrite Hsplit. apply in_or_app. right. right. exact Hx.
  - (* no break between the safe point and the entry position: the safe
       point is the break, found by going back once more *)
    cbn [default] in *.
    assert (Hbs : bs <> []).
    { intros ->. destruct Hin1 as [<-|[]].
      apply Forall_cons in Hirr as [Hirr0 _].
      destruct (Next_all_step_slots n lam rsi 0 [] ltac:(lia) Hirr0 Hlen Hb)
        as [(Hz & _)|(? & ? & ? & ? & ? & _ & _ & _ & _ & Hd & _)];
        [lia|discriminate Hd]. }
    destruct n1 as [|n2]; [destruct bs; [congruence|cbn in Hfuel; lia]|].
    cbn [RBBI.Previous_loop]. change (negb (-1 =? -1)) with false. cbv iota.
    assert (Hq1p : q1 < p) by lia.
    destruct (Hsafe' q1 (or_intror (conj Hin1 Hq1p))) as (r2 & q2 & ok2 & HS2 & Hin2).
    destruct (safePrevious_shape d lam text n rsi q1 q1 r2 q2 ok2 ltac:(lia) HS2)
      as [(-> & -> & ->)|(-> & Hq2 & ->)].
    + exists lam2, rsi2, 0. split; [exact Hlb1|].
      rewrite (safePrevious_any_slots n lam lam2 rsi 0 rsi2 b 0 0 q2 false ltac:(lia) HS2).
      cbn [mbind outcome_bind negb].
      destruct (Z.eqb_spec 0 p); [lia|].
      unfold string_engine at 1. cbn [RBBI.cursor SetPosition StringCursor_Cursor].
      rewrite StringCursor_SetPosition_ok by (cbn; lia). reflexivity.
    + specialize (Hin2 eq_refl).
      rewrite (safePrevious_any_slots n lam lam2 rsi q1 rsi2 b q1 q2 q2 true ltac:(lia) HS2).
      cbn [mbind outcome_bind negb].
      destruct (breaks_chain_slots lam rsi q2 bs Hlen Hirr Hb Hin2)
        as (pre2 & suf2 & f2 & lam3 & rsi3 & Hsplit2 & Hlen3 & Hirr3 & Hchain2 & Hlens2).
      apply (Next_all_any_slots f2 lam3 lam2 rsi3 rsi2 q2 suf2 ltac:(lia) Hirr3 Hlen3 Hlen2)
        in Hchain2.
      destruct (Previous_replay_slots suf2 f2 n lam2 rsi2 q2 (-1) p ltac:(lia) ltac:(lia)
        Hirr3 Hlen2 Hchain2 ltac:(lia)) as (lam4 & rsi4 & b' & Hlen4 & Hb4 & ->).
      cbn [mbind outcome_bind].
      assert (Hlb2 : largest_below p (0 :: bs) = Some (default q2 (largest_below p suf2))).
      { rewrite Hsplit2. apply largest_below_app; [rewrite <- Hsplit2; exact Hsorted|lia]. }
      rewrite Hlb1 in Hlb2. injection Hlb2 as Hlb2.
      destruct (largest_below p suf2) as [y|]; cbn in Hlb2; [subst y|lia].
      exists lam4, rsi4, q1. split; [exact Hlb1|].
      cbn [default]. apply Previous_loop_found. lia.
Qed.

End Previous_slots.

(** ** Tables without lookahead rules do not look at the slots *)

Section Slots_unused.

Variables (d : rbbiData) (m : list Z).

Hypothesis Hfree : lookahead_free (forwardTable d) = true.

Local Abbreviation put := (fun s : RBBI.scan (C := StringCursor.t) => RBBI.set_lookaheadMatches s m).

Ltac slots_simpl :=
  cbv beta iota zeta delta
    [RBBI.set_lookaheadMatches RBBI.set_ruleStatusIndex RBBI.set_cursor RBBI.set_category
     RBBI.set_dictionaryCharCount RBBI.set_result RBBI.set_read RBBI.set_state RBBI.set_mode
     RBBI.s_lookaheadMatches RBBI.s_ruleStatusIndex RBBI.s_cursor RBBI.s_category
     RBBI.s_dictionaryCharCount RBBI.s_result RBBI.s_c RBBI.s_nextOk RBBI.s_state RBBI.s_row
     RBBI.s_mode step_with_slots negb andb rbbiRunMode_eqb mbind mret
     outcome_bind outcome_ret].

Ltac slots_cases :=
  repeat (match goal with
          | |- context [ucpTrie.fastGet ?t ?c] => destruct (ucpTrie.fastGet t c); slots_simpl
          | |- context [slice_index ?l ?i] => destruct (slice_index l i); slots_simpl
          | |- context [Next ?c] => destruct (Next c) as [[? [? ?]]| |]; slots_simpl
          | |- context [if ?b then _ else _] => destruct b; slots_simpl
          end; try reflexivity).

Lemma Next_transition_slots (s : RBBI.scan (C := StringCursor.t)) :
  RBBI.Next_transition d (put s) = (s1 ← RBBI.Next_transition d s; Ret (put s1)).
Proof.
  destruct s as [lam rsi cur cat cnt res c ok st row [| |]]; destruct ok;
    unfold RBBI.Next_transition; slots_simpl; slots_cases.
Qed.

Lemma Next_row_slots (s : RBBI.scan (C := StringCursor.t)) :
  u8 (accepting (RBBI.s_row s)) <= 1 ->
  u8 (lookahead (RBBI.s_row s)) = 0 ->
  RBBI.Next_row d (put s) = (st ← RBBI.Next_row d s; Ret (step_with_slots m st)).
Proof.
  destruct s as [lam rsi cur cat cnt res c ok st row mode].
  cbn [RBBI.s_row]. intros Hacc Hla.
  unfold RBBI.Next_row, RBBI.Next_accept, RBBI.Next_advance, rbbiAcceptingUnconditional.
  slots_simpl.
  destruct (Z.eqb_spec (u8 (accepting row)) 1) as [E|E].
  - destruct mode; slots_simpl; rewrite Hla; cbn [Z.eqb Z.leb Z.ltb Z.compare]; slots_simpl;
      slots_cases.
  - destruct (Z.ltb_spec 1 (u8 (accepting row))); [lia|].
    destruct mode; slots_simpl; rewrite Hla; cbn [Z.eqb Z.leb Z.ltb Z.compare]; slots_simpl;
      slots_cases.
Qed.

Lemma Next_body_slots (s : RBBI.scan (C := StringCursor.t)) :
  RBBI.Next_body d (put s) = (st ← RBBI.Next_body d s; Ret (step_with_slots m st)).
Proof.
  unfold RBBI.Next_body.
  change (RBBI.s_nextOk (RBBI.set_lookaheadMatches s m)) with (RBBI.s_nextOk s).
  change (RBBI.s_mode (RBBI.set_lookaheadMatches s m)) with (RBBI.s_mode s).
  destruct (negb (RBBI.s_nextOk s) && _); [reflexivity|].
  rewrite Next_transition_slots.
  destruct (RBBI.Next_transition d s) as [s1| |] eqn:Htr; cbn [mbind outcome_bind];
    try reflexivity.
  apply Next_transition_frame in Htr as (_ & _ & _ & Hin).
  destruct (lookahead_free_row d Hfree _ Hin) as [Hacc Hla].
  apply Next_row_slots; assumption.
Qed.

Lemma Next_loop_slots (fuel : nat) :
  forall s : RBBI.scan (C := StringCursor.t),
    RBBI.Next_loop fuel d (put s) = (st ← RBBI.Next_loop fuel d s; Ret (step_with_slots m st)).
Proof.
  induction fuel as [|fuel IH]; intros s; [reflexivity|].
  cbn [RBBI.Next_loop]. rewrite Next_body_slots.
  destruct (RBBI.Next_body d s) as [[s'|s'|s' q ok]| |]; cbn [mbind outcome_bind step_with_slots];
    try reflexivity.
  apply IH.
Qed.

Lemma Next_finish_slots (p0 : Z) (s : RBBI.scan (C := StringCursor.t)) :
  answer (RBBI.Next_finish d p0 (put s)) = answer (RBBI.Next_finish d p0 s).
Proof.
  destruct s as [lam rsi cur cat cnt res c ok st row mode].
  unfold RBBI.Next_finish, RBBI.engine_of. slots_simpl.
  destruct (res =? p0); [|reflexivity].
  destruct (Next _) as [[? [? []]]| |]; reflexivity.
Qed.

End Slots_unused.

(** With a forward table without lookahead rules, what [Next] returns does
    not depend on the slots. *)
Lemma lookahead_free_slots_irrelevant (n : nat) (d : rbbiData) (L : nat) (text : list byte)
  (q : Z) :
  lookahead_free (forwardTable d) = true ->
  slots_irrelevant n d L text q.
Proof.
  intros Hfree.
  assert (Hany : forall lam rsi,
    answer (RBBI.Next n (string_engine d lam text rsi q))
    = answer (RBBI.Next n (string_engine d [] text 0 q))).
  { intros lam rsi. unfold RBBI.Next, string_engine.
    cbn [RBBI.cursor RBBI.data RBBI.lookaheadMatches].
    destruct (Next _) as [[cur [c []]]| |]; cbn [mbind outcome_bind negb]; try reflexivity.
    destruct (slice_index _ _) as [row| |]; cbn [mbind outcome_bind]; try reflexivity.
    change (RBBI.Next_init {| RBBI.data := d; RBBI.lookaheadMatches := lam;
                              RBBI.ruleStatusIndex := rsi;
                              RBBI.cursor := Some (StringCursor.mk text q) |}
              cur (Position (StringCursor.mk text q)) c row)
      with (RBBI.set_lookaheadMatches
              (RBBI.Next_init {| RBBI.data := d; RBBI.lookaheadMatches := [];
                                 RBBI.ruleStatusIndex := 0;
                                 RBBI.cursor := Some (StringCursor.mk text q) |}
                 cur (Position (StringCursor.mk text q)) c row) lam).
    rewrite (Next_loop_slots d lam Hfree).
    destruct (RBBI.Next_loop n d _) as [[s'|s'|s' p ok]| |];
      cbn [mbind outcome_bind step_with_slots]; try reflexivity.
    apply Next_finish_slots. }
  intros lam lam' rsi rsi' _ _. rewrite (Hany lam rsi), (Hany lam' rsi'). reflexivity.
Qed.

(** ** [Previous]: the claim and its correction *)

(** With the table [stale_table], a reverse table that is safe for the text
    [aabb], and an engine whose slot of rule 2 holds the position 3 from
    earlier calls of [Next] over the text [baa]: the breaks of [aabb] are 1, 2
    and 4, but [Previous] from position 4 restarts at 1, where the scan
    completes the rule with the position that the slot holds, and returns 3. *)
Lemma Previous_stale_slot :
  (exists r1 a, RBBI.Next 10 (engine_at stale_data text_baa 0) = Ret (r1, a) /\
                RBBI.Next 10 r1 = Ret (stale_engine, (2, true))) /\
  breaks 10 stale_engine text_aabb = Ret [1; 2; 4] /\
  forallb (safe_restart 10 stale_engine text_aabb [1; 2; 4])
    (4 :: List.filter (fun b => b <? 4) (0 :: [1; 2; 4])) = true /\
  ~ slots_irrelevant 10 stale_data 3 text_aabb 1 /\
  answer (RBBI.Previous 10 (seek stale_engine text_aabb 4)) = Ret (3, true) /\
  largest_below 4 (0 :: [1; 2; 4]) = Some 2.
Proof.
  split.
  { exists (string_engine stale_data [0; 0; 0] text_baa 0 1), (1, true).
    split; vm_compute; reflexivity. }
  split; [reflexivity|]. split; [reflexivity|].
  split; [|split; reflexivity].
  intros H. specialize (H [0; 0; 3] [0; 0; 2] 0 0 eq_refl eq_refl).
  vm_compute in H. discriminate H.
Qed.

(** C3, as the specification words it, fails, in two ways.  A reverse table
    that does not stop at a break position: with [pairs_table], which has no
    lookahead rules, the breaks of [abab] are 2 and 4, and [Previous] from 4
    restarts at 3 and returns 3.  A slot that holds a position from earlier
    calls: with [stale_table] and a reverse table that is safe for [aabb],
    [Previous] from 4 returns 3, where the breaks are 1, 2 and 4. *)
Lemma Previous_not_largest_break :
  ~ Previous_as_specified /\
  (breaks 10 (RBBI.newRBBI pairs_data) text_abab = Ret [2; 4] /\
   Forall (slots_irrelevant 10 pairs_data 0 text_abab) (0 :: [2; 4]) /\
   safe_restart 10 (RBBI.newRBBI pairs_data) text_abab [2; 4] 4 = false /\
   answer (RBBI.Previous 10 (seek (RBBI.newRBBI pairs_data) text_abab 4)) = Ret (3, true) /\
   largest_below 4 (0 :: [2; 4]) = Some 2) /\
  (breaks 10 stale_engine text_aabb = Ret [1; 2; 4] /\
   forallb (safe_restart 10 stale_engine text_aabb [1; 2; 4])
     (4 :: List.filter (fun b => b <? 4) (0 :: [1; 2; 4])) = true /\
   ~ slots_irrelevant 10 stale_data 3 text_aabb 1 /\
   answer (RBBI.Previous 10 (seek stale_engine text_aabb 4)) = Ret (3, true) /\
   largest_below 4 (0 :: [1; 2; 4]) = Some 2).
Proof.
  split; [exact Previous_unsafe_restart|]. split.
  - split; [reflexivity|]. split.
    + repeat constructor; apply lookahead_free_slots_irrelevant; reflexivity.
    + split; [reflexivity|]. split; reflexivity.
  - destruct Previous_stale_slot as (_ & H). exact H.
Qed.

(** C3, amended. For an engine over a [StringCursor], with [bs] the break
    positions of the text that calls of [Next] from the start compute: when
    at every break position what [Next] returns does not depend on what the
    slots hold (every table without lookahead rules is such, by
    [lookahead_free_slots_irrelevant]), and the reverse table is safe for the
    text (from the entry position and from every break position before it,
    [safePrevious] reports the start of the text or returns a break position),
    then [Previous] returns; [ok = false] exactly when the entry position is
    the start of the text, and the cursor is then where it was; when
    [ok = true], the position returned is the largest break position before
    the entry position, and the cursor is left there. *)
Theorem Previous_largest_break (n : nat) (r : RBBI.t) (text : list byte) (p : Z)
  (bs : list Z) :
  0 <= p <= len text ->
  breaks n r text = Ret bs ->
  Forall (slots_irrelevant n (RBBI.data r) (length (RBBI.lookaheadMatches r)) text)
         (0 :: bs) ->
  forallb (safe_restart n r text bs) (p :: List.filter (fun b => b <? p) (0 :: bs)) = true ->
  exists (r' : RBBI.t) (position : Z) (ok : bool),
    RBBI.Previous n (seek r text p) = Ret (r', (position, ok)) /\
    (ok = false <-> p = 0) /\
    (ok = false -> RBBI.cursor r' = Some (StringCursor.mk text p)) /\
    (ok = true ->
     largest_below p (0 :: bs) = Some position /\
     RBBI.cursor r' = Some (StringCursor.mk text position)).
Proof.
  intros Hp Hb Hirr Hsafe.
  pose proof (Next_all_length _ _ _ _ Hb) as Hn.
  destruct (Previous_loop_slots (RBBI.data r) (length (RBBI.lookaheadMatches r)) text n
    (RBBI.lookaheadMatches r) (RBBI.ruleStatusIndex r) p bs eq_refl Hp Hb Hirr Hsafe n Hn)
    as [(-> & HP)|(Hpos & lam' & rsi' & q & Hlb & HP)].
  - eexists _, (-1), false. split; [exact HP|].
    split; [tauto|]. split; [reflexivity|discriminate].
  - eexists _, q, true. split; [exact HP|].
    split; [split; [discriminate|lia]|]. split; [discriminate|].
    intros _. split; [exact Hlb|reflexivity].
Qed.

Lemma Previous_largest_break_witness :
  0 <= 4 <= len text_aabb /\
  breaks 10 (RBBI.newRBBI recorded_data) text_aabb = Ret [2; 4] /\
  Forall (slots_irrelevant 10 (RBBI.data (RBBI.newRBBI (C := StringCursor.t) recorded_data))
            (length (RBBI.lookaheadMatches (RBBI.newRBBI (C := StringCursor.t) recorded_data)))
            text_aabb)
         (0 :: [2; 4]) /\
  forallb (safe_restart 10 (RBBI.newRBBI recorded_data) text_aabb [2; 4])
    (4 :: List.filter (fun b => b <? 4) (0 :: [2; 4])) = true /\
  (exists (r' : RBBI.t) (position : Z) (ok : bool),
     RBBI.Previous 10 (seek (RBBI.newRBBI recorded_data) text_aabb 4)
     = Ret (r', (position, ok)) /\
     (ok = false <-> 4 = 0) /\
     (ok = false -> RBBI.cursor r' = Some (StringCursor.mk text_aabb 4)) /\
     (ok = true ->
      largest_below 4 (0 :: [2; 4]) = Some position /\
      RBBI.cursor r' = Some (StringCursor.mk text_aabb position))) /\
  answer (RBBI.Previous 10 (seek (RBBI.newRBBI recorded_data) text_aabb 4)) = Ret (2, true).
Proof.
  assert (H1 : 0 <= 4 <= len text_aabb) by (vm_compute; split; discriminate).
  assert (H2 : breaks 10 (RBBI.newRBBI recorded_data) text_aabb = Ret [2; 4]) by reflexivity.
  assert (H3 : Forall (slots_irrelevant 10
                         (RBBI.data (RBBI.newRBBI (C := StringCursor.t) recorded_data))
                         (length (RBBI.lookaheadMatches
                                    (RBBI.newRBBI (C := StringCursor.t) recorded_data)))
                         text_aabb)
                      (0 :: [2; 4])).
  { repeat constructor;
      intros [|x0 [|x1 [|x2 [|x3 lam]]]] [|y0 [|y1 [|y2 [|y3 lam']]]] rsi rsi' Hl Hl';
      try discriminate Hl; try discriminate Hl'; vm_compute; reflexivity. }
  assert (H4 : forallb (safe_restart 10 (RBBI.newRBBI recorded_data) text_aabb [2; 4])
    (4 :: List.filter (fun b => b <? 4) (0 :: [2; 4])) = true) by reflexivity.
  split; [exact H1|]. split; [exact H2|]. split; [exact H3|]. split; [exact H4|].
  split; [|reflexivity].
  exact (Previous_largest_break 10 (RBBI.newRBBI recorded_data) text_aabb 4 [2; 4] H1 H2 H3 H4).
Defined.

(** ** The completion of a lookahead: the claim and its correction *)





